(** * A shallow embedding of the captcha generator (package [captcha])

    The development follows the three Go sources of the package: the
    helper functions ([randomString], [pixelBounds], [randomNearColor],
    [lerp], [abs], [clamp]), the option constructors, and the [Captcha]
    type with [New], [Generate] and the drawing methods.

    Conventions.
    - Go's [int] is a 64-bit two's complement integer: it is a [Z] and
      the arithmetic operations of the source on [int] go through
      [GoInt.wrap] (a loop counter that stays below its bound does not).
    - Go's [float64] is Rocq's primitive binary64 [float]; operations are
      performed one by one (no fused multiply-add, as on amd64).
    - The process-wide random source is a tape of raw 64-bit draws.
    - A panic is an outcome of its own; the unbounded [for] loop of the
      line rasterizer runs on fuel and reports when it runs out.
    - Code of other packages (font engine, image compositing and
      resampling, trigonometry, file system, UTF-8 decoding) is a
      parameter of the development, gathered in the class [Library]. *)

From Stdlib Require Import ZArith Lia List String Ascii Bool Floats.
Import ListNotations.
Local Open Scope Z_scope.

(** ** Machine integers *)

Module GoInt.

Definition min_int : Z := - 2 ^ 63.
Definition max_int : Z := 2 ^ 63 - 1.

(** Two's complement reduction of a mathematical integer to [int]. *)
Definition wrap (z : Z) : Z := (z + 2 ^ 63) mod 2 ^ 64 - 2 ^ 63.

Definition in_range (z : Z) : Prop := min_int <= z <= max_int.

Definition add (a b : Z) : Z := wrap (a + b).
Definition sub (a b : Z) : Z := wrap (a - b).
Definition mul (a b : Z) : Z := wrap (a * b).
Definition neg (a : Z) : Z := wrap (- a).

(** Integer division truncates toward zero.  Every divisor of the source
    is a non-zero constant. *)
Definition quot (a b : Z) : Z := wrap (Z.quot a b).

End GoInt.

(** [uint8(v)]: conversion to an 8-bit unsigned integer keeps the low byte. *)
Definition uint8 (z : Z) : Z := z mod 256.

(** The integers [lo, lo+1, ..., hi-1] in increasing order: the values a
    counting loop [for i := lo; i < hi; i++] goes through, and with
    [lo = 0] those of [for i := range hi]. *)
Definition zrange (lo hi : Z) : list Z :=
  map (fun k => lo + Z.of_nat k) (seq 0 (Z.to_nat (hi - lo))).

(** ** Floating point conversions *)

(** [float64(i)] for an [int] [i]. *)
Definition float64_of_int (z : Z) : float :=
  if z =? GoInt.min_int then (-0x1p+63)%float
  else if z <? 0 then PrimFloat.opp (PrimFloat.of_uint63 (Uint63.of_Z (- z)))
  else PrimFloat.of_uint63 (Uint63.of_Z z).

(** The integer part of a finite binary64 value, toward zero. *)
Definition truncate (f : float) : option Z :=
  match Prim2SF f with
  | S754_zero _ => Some 0
  | S754_finite s m e =>
      let mag := if e <? 0 then Z.shiftr (Z.pos m) (- e)
                 else Z.shiftl (Z.pos m) e in
      Some (if s then - mag else mag)
  | S754_infinity _ => None
  | S754_nan => None
  end.

(** [int(f)] for a [float64] [f]: the fraction is discarded.  When the
    value does not fit (or is not a number) the result is the one of the
    amd64 conversion instruction, the least [int]. *)
Definition int_of_float64 (f : float) : Z :=
  match truncate f with
  | Some v =>
      if (GoInt.min_int <=? v) && (v <=? GoInt.max_int) then v
      else GoInt.min_int
  | None => GoInt.min_int
  end.

(** [math.Pi] and the constant expression [2*math.Pi], each rounded once
    to binary64. *)
Definition math_Pi : float := 0x1.921fb54442d18p+1%float.
Definition two_Pi : float := 0x1.921fb54442d18p+2%float.

(** [math.Abs] and [math.Max]. *)
Definition math_Abs (x : float) : float := PrimFloat.abs x.

Definition math_Max (x y : float) : float :=
  if PrimFloat.is_infinity x && negb (PrimFloat.get_sign x) then x
  else if PrimFloat.is_infinity y && negb (PrimFloat.get_sign y) then y
  else if PrimFloat.is_nan x then x
  else if PrimFloat.is_nan y then y
  else if PrimFloat.is_zero x && PrimFloat.is_zero y then
    (if PrimFloat.get_sign x then y else x)
  else if PrimFloat.ltb y x then x else y.

(** ** Outcomes and programs *)

Inductive Outcome (A : Type) : Type :=
| Returned (a : A)
| Panicked (msg : string)
| OutOfFuel.

Arguments Returned {A} a.
Arguments Panicked {A} msg.
Arguments OutOfFuel {A}.

(** A program over a state [S]: it ends in an outcome and a final state.
    The state survives a panic. *)
Definition Prog (S A : Type) : Type := S -> Outcome A * S.

Definition ret {S A : Type} (a : A) : Prog S A := fun s => (Returned a, s).

Definition bind {S A B : Type} (m : Prog S A) (k : A -> Prog S B) : Prog S B :=
  fun s =>
    match m s with
    | (Returned a, s') => k a s'
    | (Panicked msg, s') => (Panicked msg, s')
    | (OutOfFuel, s') => (OutOfFuel, s')
    end.

Definition panic {S A : Type} (msg : string) : Prog S A :=
  fun s => (Panicked msg, s).

Definition liftOutcome {S A : Type} (o : Outcome A) : Prog S A := fun s => (o, s).

Declare Scope prog_scope.
Delimit Scope prog_scope with prog.
Notation "x <- m ;; k" := (bind m (fun x => k))
  (at level 61, m at next level, right associativity) : prog_scope.
Notation "m ;;; k" := (bind m (fun _ => k))
  (at level 61, right associativity) : prog_scope.
Local Open Scope prog_scope.

(** A loop body run once for each element of a list, in order, threading
    an accumulator: [for _, v := range l { acc = body(acc, v) }]. *)
Fixpoint forEach {S A B : Type} (l : list B) (body : A -> B -> Prog S A) (acc : A)
  : Prog S A :=
  match l with
  | [] => ret acc
  | v :: rest => acc' <- body acc v ;; forEach rest body acc'
  end.

(** ** The random source ([math/rand/v2], top-level functions) *)

Record Rand : Type := mkRand { tape : nat -> Z; cursor : nat }.

(** The next raw 64-bit draw. *)
Definition rand_Uint64 (r : Rand) : Z * Rand :=
  (tape r (cursor r) mod 2 ^ 64, mkRand (tape r) (S (cursor r))).

(** [rand.IntN(n)]: panics when [n <= 0], otherwise a value of [[0,n)].
    The value is obtained here from one raw draw by reduction; the
    package has its own way from raw draws to the value, and what is used
    of it below is the range of the value and the panic. *)
Definition rand_IntN (n : Z) : Prog Rand Z :=
  fun r =>
    if n <=? 0 then (Panicked "invalid argument to IntN", r)
    else let (u, r') := rand_Uint64 r in (Returned (u mod n), r').

(** [rand.Float64()]: [float64(u<<11>>11) / (1<<53)], a value of [[0,1)]. *)
Definition rand_Float64 : Prog Rand float :=
  fun r =>
    let (u, r') := rand_Uint64 r in
    (Returned (float64_of_int (u mod 2 ^ 53) / 0x1p+53)%float, r').

(** The [k]-th value that [rand.IntN(n)] yields from state [r] on, when the
    calls in between are calls of [rand.IntN] too. *)
Definition nthIntN (r : Rand) (k : nat) (n : Z) : Z :=
  (tape r (cursor r + k) mod 2 ^ 64) mod n.

(** ** Colors ([image/color]) *)

Module color.

(** [color.RGBA]: four 8-bit channels. *)
Record RGBA : Type := mkRGBA { R : Z; G : Z; B : Z; A : Z }.

(** A value of the interface [color.Color]: either a [color.RGBA], or a
    value of another type, known by what its [RGBA()] method returns. *)
Inductive Color : Type :=
| ofRGBA (c : RGBA)
| other (r g b a : Z).

(** The method [RGBA()]: 16-bit channels in 32-bit words. *)
Definition Color_RGBA (c : Color) : Z * Z * Z * Z :=
  match c with
  | ofRGBA c =>
      (Z.lor (R c) (Z.shiftl (R c) 8), Z.lor (G c) (Z.shiftl (G c) 8),
       Z.lor (B c) (Z.shiftl (B c) 8), Z.lor (A c) (Z.shiftl (A c) 8))
  | other r g b a => (r, g, b, a)
  end.

(** [color.RGBAModel.Convert]. *)
Definition rgbaModel (c : Color) : RGBA :=
  match c with
  | ofRGBA c => c
  | other r g b a =>
      mkRGBA (uint8 (Z.shiftr r 8)) (uint8 (Z.shiftr g 8))
             (uint8 (Z.shiftr b 8)) (uint8 (Z.shiftr a 8))
  end.

Definition transparent : RGBA := mkRGBA 0 0 0 0.

Definition eqb (c d : RGBA) : bool :=
  (R c =? R d) && (G c =? G d) && (B c =? B d) && (A c =? A d).

End color.

(** ** Points, rectangles and RGBA images ([image]) *)

Module image.

Record Point : Type := Pt { X : Z; Y : Z }.

(** A rectangle contains the points with [Min.X <= X < Max.X] and
    [Min.Y <= Y < Max.Y]. *)
Record Rectangle : Type := mkRectangle { Min : Point; Max : Point }.

(** [image.Rect]: the coordinates are swapped where needed so that the
    rectangle is well formed. *)
Definition Rect (x0 y0 x1 y1 : Z) : Rectangle :=
  let '(x0, x1) := if x0 >? x1 then (x1, x0) else (x0, x1) in
  let '(y0, y1) := if y0 >? y1 then (y1, y0) else (y0, y1) in
  mkRectangle (Pt x0 y0) (Pt x1 y1).

Definition Dx (r : Rectangle) : Z := GoInt.sub (X (Max r)) (X (Min r)).
Definition Dy (r : Rectangle) : Z := GoInt.sub (Y (Max r)) (Y (Min r)).

(** [p.In(r)]. *)
Definition In (p : Point) (r : Rectangle) : bool :=
  (X (Min r) <=? X p) && (X p <? X (Max r)) &&
  (Y (Min r) <=? Y p) && (Y p <? Y (Max r)).

(** [r.Empty()]. *)
Definition Empty (r : Rectangle) : bool :=
  (X (Min r) >=? X (Max r)) || (Y (Min r) >=? Y (Max r)).

(** [*image.RGBA]: the rectangle of the image and its pixels.  [Pix x y]
    is meaningful inside [Bounds] only. *)
Record RGBA : Type := mkRGBA { Bounds : Rectangle; Pix : Z -> Z -> color.RGBA }.

(** [image.NewRGBA]: a transparent image; it panics when the byte length
    [4 * Dx * Dy] of the pixel buffer is negative or is no [int]. *)
Definition NewRGBA (r : Rectangle) : Outcome RGBA :=
  if (0 <=? Dx r) && (0 <=? Dy r) && (4 * Dx r * Dy r <=? GoInt.max_int)
  then Returned (mkRGBA r (fun _ _ => color.transparent))
  else Panicked "image: NewRGBA Rectangle has huge or negative dimensions".

(** [p.RGBAAt(x, y)]: the zero color outside the rectangle. *)
Definition RGBAAt (p : RGBA) (x y : Z) : color.RGBA :=
  if In (Pt x y) (Bounds p) then Pix p x y else color.transparent.

(** [p.At(x, y)]. *)
Definition At (p : RGBA) (x y : Z) : color.Color := color.ofRGBA (RGBAAt p x y).

(** [p.Set(x, y, c)]: no effect outside the rectangle. *)
Definition Set_ (p : RGBA) (x y : Z) (c : color.Color) : RGBA :=
  if In (Pt x y) (Bounds p) then
    let c1 := color.rgbaModel c in
    mkRGBA (Bounds p)
           (fun x' y' => if (x' =? x) && (y' =? y) then c1 else Pix p x' y')
  else p.

End image.

(** ** Fixed-point numbers ([golang.org/x/image/math/fixed]) *)

Module fixed.

(** Reduction to a 32-bit two's complement integer. *)
Definition wrap32 (z : Z) : Z := (z + 2 ^ 31) mod 2 ^ 32 - 2 ^ 31.

(** [x.Ceil()] for an [Int26_6]: [int((x + 0x3f) >> 6)]. *)
Definition Ceil (x : Z) : Z := Z.shiftr (wrap32 (x + 63)) 6.

(** [fixed.I(i)]: [Int26_6(i << 6)]. *)
Definition I (i : Z) : Z := wrap32 (GoInt.wrap (Z.shiftl i 6)).

Record Point26_6 : Type := mkPoint26_6 { X : Z; Y : Z }.

End fixed.

(** ** Helper functions of the package *)

(** [len(s)] and [s[i]] on a string: a string is a sequence of bytes. *)
Definition len (s : string) : Z := Z.of_nat (String.length s).

Definition byteAt {S : Type} (s : string) (i : Z) : Prog S ascii :=
  if i <? 0 then panic "index out of range"
  else match String.get (Z.to_nat i) s with
       | Some ch => ret ch
       | None => panic "index out of range"
       end.

(** [b[i] = v] on a slice, for an index within the slice. *)
Fixpoint setIndex {A : Type} (b : list A) (i : nat) (v : A) : list A :=
  match b, i with
  | [], _ => []
  | _ :: t, O => v :: t
  | h :: t, S j => h :: setIndex t j v
  end.

(** The body of the loop of [randomString]: [b[i] = set[rand.IntN(len(set))]]. *)
Definition randomString_body (set : string) (b : list ascii) (i : nat)
  : Prog Rand (list ascii) :=
  k <- rand_IntN (len set) ;;
  ch <- byteAt set k ;;
  ret (setIndex b i ch).

(** [[
func randomString(length int, set string) string {
	b := make([]byte, length)
	for i := range b {
		b[i] = set[rand.IntN(len(set))]
	}
	return string(b)
}
]] *)
Definition randomString (length : Z) (set : string) : Prog Rand string :=
  if length <? 0 then panic "makeslice: len out of range"
  else
    let b := repeat Ascii.zero (Z.to_nat length) in
    b <- forEach (seq 0 (List.length b)) (randomString_body set) b ;;
    ret (string_of_list_ascii b).

(** The running extremes [minX, minY, maxX, maxY] of [pixelBounds]. *)
Definition Extremes : Type := (Z * Z * Z * Z)%type.

(** The body of the inner loop of [pixelBounds] at pixel [(x, y)]. *)
Definition pixelBounds_pixel (src : image.RGBA) (y : Z) (st : Extremes) (x : Z)
  : Extremes :=
  let '(minX, minY, maxX, maxY) := st in
  if color.A (image.RGBAAt src x y) >? 0 then
    let minX := if x <? minX then x else minX in
    let maxX := if x >? maxX then x else maxX in
    let minY := if y <? minY then y else minY in
    let maxY := if y >? maxY then y else maxY in
    (minX, minY, maxX, maxY)
  else st.

(** The inner loop: one row. *)
Definition pixelBounds_row (src : image.RGBA) (st : Extremes) (y : Z) : Extremes :=
  let bounds := image.Bounds src in
  fold_left (pixelBounds_pixel src y)
            (zrange (image.X (image.Min bounds)) (image.X (image.Max bounds))) st.

(** The two nested loops, from the initial extremes. *)
Definition pixelBounds_scan (src : image.RGBA) : Extremes :=
  let bounds := image.Bounds src in
  fold_left (pixelBounds_row src)
            (zrange (image.Y (image.Min bounds)) (image.Y (image.Max bounds)))
            (image.X (image.Max bounds), image.Y (image.Max bounds),
             image.X (image.Min bounds), image.Y (image.Min bounds)).

(** [[
func pixelBounds(src *image.RGBA) image.Rectangle {
	bounds := src.Bounds()
	minX, minY := bounds.Max.X, bounds.Max.Y
	maxX, maxY := bounds.Min.X, bounds.Min.Y
	for y := bounds.Min.Y; y < bounds.Max.Y; y++ {
		for x := bounds.Min.X; x < bounds.Max.X; x++ {
			if src.RGBAAt(x, y).A > 0 { ... }
		}
	}
	return image.Rect(minX, minY, maxX, maxY)
}
]] *)
Definition pixelBounds (src : image.RGBA) : image.Rectangle :=
  let '(minX, minY, maxX, maxY) := pixelBounds_scan src in
  image.Rect minX minY maxX maxY.

(** [[
func clamp(v, min, max uint8) uint8
]] *)
Definition clamp (v min max : Z) : Z :=
  if v <? min then min
  else if v >? max then max
  else v.

(** One channel of [randomNearColor]:
    [clamp(uint8(r>>8)+uint8(rOffset), 0, 255)], the sum being a [uint8]. *)
Definition nearChannel (r rOffset : Z) : Z :=
  clamp (uint8 (uint8 (Z.shiftr r 8) + uint8 rOffset)) 0 255.

(** [rand.IntN(50) - 25]. *)
Definition randomOffset : Prog Rand Z :=
  v <- rand_IntN 50 ;; ret (GoInt.sub v 25).

(** [[
func randomNearColor(base color.Color) color.RGBA {
	r, g, b, a := base.RGBA()
	rOffset, gOffset, bOffset := rand.IntN(50)-25, rand.IntN(50)-25, rand.IntN(50)-25
	return color.RGBA{
		R: clamp(uint8(r>>8)+uint8(rOffset), 0, 255),
		G: clamp(uint8(g>>8)+uint8(gOffset), 0, 255),
		B: clamp(uint8(b>>8)+uint8(bOffset), 0, 255),
		A: uint8(a >> 8),
	}
}
]] *)
Definition randomNearColor (base : color.Color) : Prog Rand color.RGBA :=
  let '(r, g, b, a) := color.Color_RGBA base in
  rOffset <- randomOffset ;;
  gOffset <- randomOffset ;;
  bOffset <- randomOffset ;;
  ret (color.mkRGBA (nearChannel r rOffset) (nearChannel g gOffset)
                    (nearChannel b bOffset) (uint8 (Z.shiftr a 8))).

(** [[
func lerp(a, b, t float64) float64 { return a + (b-a)*t }
]] *)
Definition lerp (a b t : float) : float := (a + (b - a) * t)%float.

(** [[
func abs(x int) int
]] *)
Definition abs (x : Z) : Z := if x <? 0 then GoInt.neg x else x.

(** ** The line rasterizers, on given endpoints *)

(** The loop of [drawStraightLine] (Bresenham's algorithm), from the state
    [(x1, y1, err)]; [x2], [y2], [dx], [dy], [sx], [sy] do not change.
    [[
	for {
		img.Set(x1, y1, lineColor)
		if x1 == x2 && y1 == y2 { break }
		err2 := 2 * err
		if err2 > -dy { err -= dy; x1 += sx }
		if err2 < dx { err += dx; y1 += sy }
	}
    ]] *)
Fixpoint bresenham (fuel : nat) (lineColor : color.RGBA) (x2 y2 dx dy sx sy : Z)
  (img : image.RGBA) (x1 y1 err : Z) : Outcome image.RGBA :=
  match fuel with
  | O => OutOfFuel
  | S fuel' =>
      let img := image.Set_ img x1 y1 (color.ofRGBA lineColor) in
      if (x1 =? x2) && (y1 =? y2) then Returned img
      else
        let err2 := GoInt.mul 2 err in
        let '(err, x1) :=
          if err2 >? GoInt.neg dy then (GoInt.sub err dy, GoInt.add x1 sx)
          else (err, x1) in
        let '(err, y1) :=
          if err2 <? dx then (GoInt.add err dx, GoInt.add y1 sy)
          else (err, y1) in
        bresenham fuel' lineColor x2 y2 dx dy sx sy img x1 y1 err
  end.

(** The part of [drawStraightLine] that follows the random choices. *)
Definition straightLine (fuel : nat) (lineColor : color.RGBA) (img : image.RGBA)
  (x1 y1 x2 y2 : Z) : Outcome image.RGBA :=
  let dx := abs (GoInt.sub x2 x1) in
  let dy := abs (GoInt.sub y2 y1) in
  let sx := if x1 <? x2 then 1 else -1 in
  let sy := if y1 <? y2 then 1 else -1 in
  let err := GoInt.sub dx dy in
  bresenham fuel lineColor x2 y2 dx dy sx sy img x1 y1 err.

(** The sample of [drawCurveLine] at [step]: [(finalX, finalY)]. *)
Definition curvePoint (x1 y1 x2 y2 ctrlX ctrlY : Z) (step : Z) : Z * Z :=
  let steps := 120 in
  let t := (float64_of_int step / float64_of_int steps)%float in
  let x := int_of_float64 (lerp (float64_of_int x1) (float64_of_int x2) t) in
  let y := int_of_float64 (lerp (float64_of_int y1) (float64_of_int y2) t) in
  let ctrlXt := int_of_float64 (lerp (float64_of_int x1) (float64_of_int ctrlX) t) in
  let ctrlYt := int_of_float64 (lerp (float64_of_int y1) (float64_of_int ctrlY) t) in
  let finalX := int_of_float64 (lerp (float64_of_int x) (float64_of_int ctrlXt) t) in
  let finalY := int_of_float64 (lerp (float64_of_int y) (float64_of_int ctrlYt) t) in
  (finalX, finalY).

(** The body of the loop of [drawCurveLine]. *)
Definition curveStep (lineColor : color.RGBA) (w h x1 y1 x2 y2 ctrlX ctrlY : Z)
  (img : image.RGBA) (step : Z) : image.RGBA :=
  let '(finalX, finalY) := curvePoint x1 y1 x2 y2 ctrlX ctrlY step in
  if (finalX >=? 0) && (finalX <? w) && (finalY >=? 0) && (finalY <? h)
  then image.Set_ img finalX finalY (color.ofRGBA lineColor)
  else img.

(** The part of [drawCurveLine] that follows the random choices:
    [for step := range steps { ... }] with [steps := 120]. *)
Definition curveLine (lineColor : color.RGBA) (img : image.RGBA)
  (x1 y1 x2 y2 ctrlX ctrlY : Z) : image.RGBA :=
  let w := image.Dx (image.Bounds img) in
  let h := image.Dy (image.Bounds img) in
  fold_left (curveStep lineColor w h x1 y1 x2 y2 ctrlX ctrlY) (zrange 0 120) img.

(** ** Code of other packages *)

(** A value and an [error], of which one is set. *)
Inductive Result (A : Type) : Type :=
| Ok (a : A)
| Err (e : string).

Arguments Ok {A} a.
Arguments Err {A} e.

(** [font.Metrics], the fields that are read. *)
Record Metrics : Type := mkMetrics { Height : Z; Ascent : Z; Descent : Z }.

Inductive Hinting : Type := HintingNone | HintingVertical | HintingFull.

(** [opentype.FaceOptions]. *)
Record FaceOptions : Type := mkFaceOptions { Size : float; DPI : float; Hint : Hinting }.

(** The source image of a drawing operation: an [*image.RGBA] or an
    [*image.Uniform]. *)
Inductive Source : Type :=
| ofImage (img : image.RGBA)
| Uniform (c : color.Color).

(** [draw.Op]. *)
Inductive Op : Type := Over | Src.

(** [f64.Aff3]: a 2x3 affine matrix, row by row. *)
Record Aff3 : Type := mkAff3 { m00 : float; m01 : float; m02 : float;
                               m10 : float; m11 : float; m12 : float }.

(** What the package calls in [os], [golang.org/x/image], [math] and the
    run time.  A function that writes into its destination image returns
    the image written. *)
Class Library : Type := {
  (** [font.Face] and [*opentype.Font] *)
  Face : Type;
  Font : Type;
  os_ReadFile : string -> Result (list ascii);
  opentype_Parse : list ascii -> Result Font;
  opentype_NewFace : Font -> FaceOptions -> Result Face;
  (** advance of a string, an [Int26_6] *)
  font_MeasureString : Face -> string -> Z;
  font_Metrics : Face -> Metrics;
  (** [(&font.Drawer{Dst, Src, Face, Dot}).DrawString(s)] *)
  Drawer_DrawString : image.RGBA -> Source -> Face -> fixed.Point26_6 -> string -> image.RGBA;
  (** [draw.Draw(dst, r, src, sp, op)] *)
  draw_Draw : image.RGBA -> image.Rectangle -> Source -> image.Point -> Op -> image.RGBA;
  (** [draw.CatmullRom.Scale(dst, dr, src, sr, op, nil)] *)
  CatmullRom_Scale :
    image.RGBA -> image.Rectangle -> image.RGBA -> image.Rectangle -> Op -> image.RGBA;
  (** [draw.CatmullRom.Transform(dst, m, src, sr, op, nil)] *)
  CatmullRom_Transform :
    image.RGBA -> Aff3 -> image.RGBA -> image.Rectangle -> Op -> image.RGBA;
  math_Sin : float -> float;
  math_Cos : float -> float;
  math_Sincos : float -> float * float;
  (** the runes of [for _, char := range s], and [string(char)] *)
  runesOf : string -> list Z;
  stringOfRune : Z -> string
}.

(** ** Character sets (option.go) *)

Definition CharSet : Type := string.

Definition Lowercase : CharSet := "abcdefghijklmnopqrstuvwxyz"%string.
Definition Uppercase : CharSet := "ABCDEFGHIJKLMNOPQRSTUVWXYZ"%string.
Definition Alphabetic : CharSet := String.append Lowercase Uppercase.
Definition Numeric : CharSet := "0123456789"%string.
Definition Hex : CharSet := String.append Numeric "abcdef".
Definition LowerNumeric : CharSet := String.append Lowercase Numeric.
Definition UpperNumeric : CharSet := String.append Uppercase Numeric.
Definition AlphaNumeric : CharSet := String.append Alphabetic Numeric.
Definition AlphaNumericWithoutConfusion : CharSet :=
  "ABCDEFGHKLMNPQRSTUVWXYZabcdefghkmnpqsuvwxyz23456789"%string.

(** ** The [Captcha] type, its options and its constructor *)

Section Captcha.

Context {L : Library}.

Record Captcha : Type := mkCaptcha {
  width : Z;
  height : Z;
  charSet : CharSet;
  minLength : Z;
  maxLength : Z;
  fontPath : string;
  fontSize : float;
  foreground : color.Color;
  background : color.Color;
  minSpacing : float;
  maxSpacing : float;
  minRotation : float;
  maxRotation : float;
  minScale : float;
  maxScale : float;
  minDistortion : float;
  maxDistortion : float;
  minLines : Z;
  maxLines : Z;
  noiseLevel : float;
  (** [nil] until [New] sets it *)
  fontFace : option Face
}.

(** [type Option]: a function on a pointer to a [Captcha], given by what
    it does to the value pointed to. *)
Definition Option : Type := Captcha -> Captcha.

Definition WithSize (width' height' : Z) : Option := fun c =>
  mkCaptcha width' height' (charSet c) (minLength c) (maxLength c) (fontPath c)
    (fontSize c) (foreground c) (background c) (minSpacing c) (maxSpacing c)
    (minRotation c) (maxRotation c) (minScale c) (maxScale c) (minDistortion c)
    (maxDistortion c) (minLines c) (maxLines c) (noiseLevel c) (fontFace c).

Definition WithCharSet (charSet' : CharSet) : Option := fun c =>
  mkCaptcha (width c) (height c) charSet' (minLength c) (maxLength c) (fontPath c)
    (fontSize c) (foreground c) (background c) (minSpacing c) (maxSpacing c)
    (minRotation c) (maxRotation c) (minScale c) (maxScale c) (minDistortion c)
    (maxDistortion c) (minLines c) (maxLines c) (noiseLevel c) (fontFace c).

Definition WithLength (minLength' maxLength' : Z) : Option := fun c =>
  mkCaptcha (width c) (height c) (charSet c) minLength' maxLength' (fontPath c)
    (fontSize c) (foreground c) (background c) (minSpacing c) (maxSpacing c)
    (minRotation c) (maxRotation c) (minScale c) (maxScale c) (minDistortion c)
    (maxDistortion c) (minLines c) (maxLines c) (noiseLevel c) (fontFace c).

Definition WithFont (path : string) (size : float) : Option := fun c =>
  mkCaptcha (width c) (height c) (charSet c) (minLength c) (maxLength c) path
    size (foreground c) (background c) (minSpacing c) (maxSpacing c)
    (minRotation c) (maxRotation c) (minScale c) (maxScale c) (minDistortion c)
    (maxDistortion c) (minLines c) (maxLines c) (noiseLevel c) (fontFace c).

Definition WithBackground (background' : color.Color) : Option := fun c =>
  mkCaptcha (width c) (height c) (charSet c) (minLength c) (maxLength c) (fontPath c)
    (fontSize c) (foreground c) background' (minSpacing c) (maxSpacing c)
    (minRotation c) (maxRotation c) (minScale c) (maxScale c) (minDistortion c)
    (maxDistortion c) (minLines c) (maxLines c) (noiseLevel c) (fontFace c).

Definition WithForeground (foreground' : color.Color) : Option := fun c =>
  mkCaptcha (width c) (height c) (charSet c) (minLength c) (maxLength c) (fontPath c)
    (fontSize c) foreground' (background c) (minSpacing c) (maxSpacing c)
    (minRotation c) (maxRotation c) (minScale c) (maxScale c) (minDistortion c)
    (maxDistortion c) (minLines c) (maxLines c) (noiseLevel c) (fontFace c).

Definition WithSpacing (minSpacing' maxSpacing' : float) : Option := fun c =>
  mkCaptcha (width c) (height c) (charSet c) (minLength c) (maxLength c) (fontPath c)
    (fontSize c) (foreground c) (background c) minSpacing' maxSpacing'
    (minRotation c) (maxRotation c) (minScale c) (maxScale c) (minDistortion c)
    (maxDistortion c) (minLines c) (maxLines c) (noiseLevel c) (fontFace c).

Definition WithRotation (minRotation' maxRotation' : float) : Option := fun c =>
  mkCaptcha (width c) (height c) (charSet c) (minLength c) (maxLength c) (fontPath c)
    (fontSize c) (foreground c) (background c) (minSpacing c) (maxSpacing c)
    minRotation' maxRotation' (minScale c) (maxScale c) (minDistortion c)
    (maxDistortion c) (minLines c) (maxLines c) (noiseLevel c) (fontFace c).

Definition WithScale (minScale' maxScale' : float) : Option := fun c =>
  mkCaptcha (width c) (height c) (charSet c) (minLength c) (maxLength c) (fontPath c)
    (fontSize c) (foreground c) (background c) (minSpacing c) (maxSpacing c)
    (minRotation c) (maxRotation c) minScale' maxScale' (minDistortion c)
    (maxDistortion c) (minLines c) (maxLines c) (noiseLevel c) (fontFace c).

Definition WithDistortion (minDistortion' maxDistortion' : float) : Option := fun c =>
  mkCaptcha (width c) (height c) (charSet c) (minLength c) (maxLength c) (fontPath c)
    (fontSize c) (foreground c) (background c) (minSpacing c) (maxSpacing c)
    (minRotation c) (maxRotation c) (minScale c) (maxScale c) minDistortion'
    maxDistortion' (minLines c) (maxLines c) (noiseLevel c) (fontFace c).

Definition WithLines (minLines' maxLines' : Z) : Option := fun c =>
  mkCaptcha (width c) (height c) (charSet c) (minLength c) (maxLength c) (fontPath c)
    (fontSize c) (foreground c) (background c) (minSpacing c) (maxSpacing c)
    (minRotation c) (maxRotation c) (minScale c) (maxScale c) (minDistortion c)
    (maxDistortion c) minLines' maxLines' (noiseLevel c) (fontFace c).

Definition WithNoise (level : float) : Option := fun c =>
  mkCaptcha (width c) (height c) (charSet c) (minLength c) (maxLength c) (fontPath c)
    (fontSize c) (foreground c) (background c) (minSpacing c) (maxSpacing c)
    (minRotation c) (maxRotation c) (minScale c) (maxScale c) (minDistortion c)
    (maxDistortion c) (minLines c) (maxLines c) level (fontFace c).

(** [c.fontFace = face]. *)
Definition setFontFace (face : Face) (c : Captcha) : Captcha :=
  mkCaptcha (width c) (height c) (charSet c) (minLength c) (maxLength c) (fontPath c)
    (fontSize c) (foreground c) (background c) (minSpacing c) (maxSpacing c)
    (minRotation c) (maxRotation c) (minScale c) (maxScale c) (minDistortion c)
    (maxDistortion c) (minLines c) (maxLines c) (noiseLevel c) (Some face).

(** The value [New] starts from. *)
Definition defaults : Captcha :=
  mkCaptcha 120 50 AlphaNumericWithoutConfusion 4 4 EmptyString 36%float
    (color.ofRGBA (color.mkRGBA 0 0 0 255))
    (color.ofRGBA (color.mkRGBA 255 255 255 255))
    1%float 1%float 0%float 0%float 1%float 1%float 0%float 0%float 3 7
    0x1.999999999999ap-4%float None.

(** [s == ""] on strings. *)
Definition isEmpty (s : string) : bool :=
  match s with EmptyString => true | String _ _ => false end.

(** The [switch] of [New]: the error of the first case that holds. *)
Definition validate (c : Captcha) : option string :=
  if (width c <=? 0) || (height c <=? 0) then
    Some "width and height must be greater than 0"%string
  else if isEmpty (charSet c) then
    Some "char set is required"%string
  else if isEmpty (fontPath c) then
    Some "font path is required"%string
  else if PrimFloat.leb (fontSize c) 0 then
    Some "font size must be greater than 0"%string
  else if (minLength c <? 0) || (maxLength c <? 0) || (minLength c >? maxLength c) then
    Some "min length must be greater than 0 and max length must be greater than min length"%string
  else if PrimFloat.ltb (minSpacing c) 0 || PrimFloat.ltb (maxSpacing c) 0
          || PrimFloat.ltb (maxSpacing c) (minSpacing c) then
    Some "min spacing must be greater than 0 and max spacing must be greater than min spacing"%string
  else if PrimFloat.ltb (minRotation c) (-180) || PrimFloat.ltb 180 (maxRotation c)
          || PrimFloat.ltb (maxRotation c) (minRotation c) then
    Some "min rotation must be between -180 and 180 and max rotation must be greater than min rotation"%string
  else if PrimFloat.ltb (minScale c) 0 || PrimFloat.ltb (maxScale c) 0
          || PrimFloat.ltb (maxScale c) (minScale c) then
    Some "min scale must be greater than 0 and max scale must be greater than min scale"%string
  else if PrimFloat.ltb (minDistortion c) 0 || PrimFloat.ltb (maxDistortion c) 0
          || PrimFloat.ltb (maxDistortion c) (minDistortion c) then
    Some "min distortionmust be greater than 0 and max distortion must be greater than min distortion"%string
  else if (minLines c <? 0) || (maxLines c <? 0) || (minLines c >? maxLines c) then
    Some "min lines must be greater than 0 and max lines must be greater than min lines"%string
  else if PrimFloat.ltb (noiseLevel c) 0 || PrimFloat.ltb 1 (noiseLevel c) then
    Some "noise level must be between 0 and 1"%string
  else None.

(** Loading the font: read the file, parse it, create the face. *)
Definition loadFace (c : Captcha) : Result Face :=
  match os_ReadFile (fontPath c) with
  | Err e => Err e
  | Ok fontBytes =>
      match opentype_Parse fontBytes with
      | Err e => Err e
      | Ok _font =>
          opentype_NewFace _font (mkFaceOptions (fontSize c) 72%float HintingFull)
      end
  end.

(** [New(opts ...Option)]: the new [Captcha], or an error. *)
Definition New (opts : list Option) : Result Captcha :=
  let c := fold_left (fun c opt => opt c) opts defaults in
  match validate c with
  | Some err => Err err
  | None =>
      match loadFace c with
      | Err e => Err e
      | Ok face => Ok (setFontFace face c)
      end
  end.

(** ** The methods of [*Captcha] *)

(** What a method can read and write: the value its receiver points to
    and the random source. *)
Record World : Type := mkWorld { recv : Captcha; rnd : Rand }.

(** A call of a function that uses the random source only. *)
Definition liftRand {A : Type} (m : Prog Rand A) : Prog World A :=
  fun w => let (o, r') := m (rnd w) in (o, mkWorld (recv w) r').

(** Reading the receiver. *)
Definition this : Prog World Captcha := fun w => (Returned (recv w), w).

(** [c.noiseLevel = level]. *)
Definition assignNoiseLevel (level : float) : Prog World unit :=
  fun w => (Returned tt, mkWorld (WithNoise level (recv w)) (rnd w)).

(** [c.fontFace], whose methods panic on [nil]. *)
Definition face : Prog World Face :=
  c <- this ;;
  match fontFace c with
  | Some f => ret f
  | None => panic "invalid memory address or nil pointer dereference"
  end.

(** [rand.Float64()*(max-min) + min]. *)
Definition randomBetween (min max : float) : Prog World float :=
  f <- liftRand rand_Float64 ;; ret (f * (max - min) + min)%float.

(** The length of the code: the first statement of the method
    [randomString]. *)
Definition codeLength : Prog World Z :=
  c <- this ;;
  if minLength c =? maxLength c then ret (minLength c)
  else
    v <- liftRand (rand_IntN (GoInt.add (GoInt.sub (maxLength c) (minLength c)) 1)) ;;
    ret (GoInt.add v (minLength c)).

(** The method [randomString]:
    [[
	if c.minLength == c.maxLength {
		length = c.minLength
	} else {
		length = rand.IntN(c.maxLength-c.minLength+1) + c.minLength
	}
	return randomString(length, c.charSet)
    ]] *)
Definition Captcha_randomString : Prog World string :=
  length <- codeLength ;;
  c <- this ;;
  liftRand (randomString length (charSet c)).

(** The rest of [scaleChar], once the factors are known. *)
Definition scaleBy (scaleX scaleY : float) (src : image.RGBA) : Prog World image.RGBA :=
  let newW := int_of_float64 (float64_of_int (image.Dx (image.Bounds src)) * scaleX) in
  let newH := int_of_float64 (float64_of_int (image.Dy (image.Bounds src)) * scaleY) in
  dst <- liftOutcome (image.NewRGBA (image.Rect 0 0 newW newH)) ;;
  ret (CatmullRom_Scale dst (image.Bounds dst) src (image.Bounds src) Over).

(** [scaleChar]. *)
Definition scaleChar (src : image.RGBA) : Prog World image.RGBA :=
  c <- this ;;
  if PrimFloat.eqb (minScale c) (maxScale c) then
    if PrimFloat.eqb (minScale c) 1 then ret src
    else scaleBy (minScale c) (minScale c) src
  else
    scaleX <- randomBetween (minScale c) (maxScale c) ;;
    scaleY <- randomBetween (minScale c) (maxScale c) ;;
    scaleBy scaleX scaleY src.

(** The body of the inner loop of [distortChar], at destination pixel
    [(x, y)]. *)
Definition distortPixel (amplitude period : float) (w h : Z) (src : image.RGBA)
  (y : Z) (dst : image.RGBA) (x : Z) : image.RGBA :=
  let xOfs := (amplitude * math_Sin (two_Pi * float64_of_int y / period))%float in
  let yOfs := (amplitude * math_Cos (two_Pi * float64_of_int x / period))%float in
  let nx := GoInt.add x (int_of_float64 xOfs) in
  let ny := GoInt.add y (int_of_float64 yOfs) in
  if (nx >=? 0) && (nx <? w) && (ny >=? 0) && (ny <? h)
  then image.Set_ dst x y (image.At src nx ny)
  else dst.

(** The rest of [distortChar], once the amplitude is known. *)
Definition distortBy (amplitude : float) (src : image.RGBA) : Prog World image.RGBA :=
  let w := image.Dx (image.Bounds src) in
  let h := image.Dy (image.Bounds src) in
  dst <- liftOutcome (image.NewRGBA (image.Bounds src)) ;;
  let period := (float64_of_int h / 2)%float in
  ret (fold_left
         (fun dst y => fold_left (distortPixel amplitude period w h src y) (zrange 0 w) dst)
         (zrange 0 h) dst).

(** [distortChar]. *)
Definition distortChar (src : image.RGBA) : Prog World image.RGBA :=
  c <- this ;;
  if PrimFloat.eqb (minDistortion c) (maxDistortion c) then
    if PrimFloat.eqb (minDistortion c) 0 then ret src
    else distortBy (minDistortion c) src
  else
    amplitude <- randomBetween (minDistortion c) (maxDistortion c) ;;
    distortBy amplitude src.

(** The rest of [rotateChar], once the angle is known. *)
Definition rotateBy (rotation : float) (src : image.RGBA) : Prog World image.RGBA :=
  let srcBounds := image.Bounds src in
  let srcW := image.Dx srcBounds in
  let srcH := image.Dy srcBounds in
  let '(sin, cos) := math_Sincos (math_Pi * rotation / 180)%float in
  let dstW := int_of_float64
                (math_Abs (float64_of_int srcW * cos
                           + math_Abs (float64_of_int srcW * sin)))%float in
  let dstH := int_of_float64
                (math_Abs (float64_of_int srcH * cos
                           + math_Abs (float64_of_int srcH * sin)))%float in
  dst <- liftOutcome (image.NewRGBA (image.Rect 0 0 dstW dstH)) ;;
  let srcCx := (float64_of_int srcW / 2)%float in
  let srcCy := (float64_of_int dstH / 2)%float in
  let dstCx := (float64_of_int dstW / 2)%float in
  let dstCy := (float64_of_int dstH / 2)%float in
  let m := mkAff3 cos (- sin)%float (dstCx - srcCx * cos + srcCy * sin)%float
                  sin cos (dstCy - srcCx * sin - srcCy * cos)%float in
  ret (CatmullRom_Transform dst m src srcBounds Over).

(** [rotateChar]. *)
Definition rotateChar (src : image.RGBA) : Prog World image.RGBA :=
  c <- this ;;
  if PrimFloat.eqb (minRotation c) (maxRotation c) then
    if PrimFloat.eqb (minRotation c) 0 then ret src
    else rotateBy (minRotation c) src
  else
    rotation <- randomBetween (minRotation c) (maxRotation c) ;;
    rotateBy rotation src.

(** Cutting a canvas to its pixel bounds: the last statements of
    [drawChar] and of [drawString]. *)
Definition cut (canvas : image.RGBA) : Prog World image.RGBA :=
  let bounds := pixelBounds canvas in
  dst <- liftOutcome (image.NewRGBA (image.Rect 0 0 (image.Dx bounds) (image.Dy bounds))) ;;
  ret (draw_Draw dst (image.Bounds dst) (ofImage canvas) (image.Min bounds) Over).

(** [drawChar]. *)
Definition drawChar (char : Z) : Prog World image.RGBA :=
  c <- this ;;
  f <- face ;;
  let charWith := fixed.Ceil (font_MeasureString f (stringOfRune char)) in
  let metrics := font_Metrics f in
  let ascent := fixed.Ceil (Ascent metrics) in
  let descent := fixed.Ceil (Descent metrics) in
  let charHeight := GoInt.add ascent descent in
  let size := int_of_float64 (math_Max (float64_of_int charWith) (float64_of_int charHeight)) in
  canvas <- liftOutcome (image.NewRGBA (image.Rect 0 0 size size)) ;;
  let dot := fixed.mkPoint26_6
               (fixed.I (GoInt.sub (GoInt.quot size 2) (GoInt.quot charWith 2)))
               (fixed.I (GoInt.add (GoInt.quot size 2) descent)) in
  let canvas := Drawer_DrawString canvas (Uniform (foreground c)) f dot (stringOfRune char) in
  canvas <- scaleChar canvas ;;
  canvas <- distortChar canvas ;;
  canvas <- rotateChar canvas ;;
  cut canvas.

(** The body of the loop of [drawString]; the loop changes the canvas and
    the pen position [x]. *)
Definition drawString_char (y : Z) (st : image.RGBA * Z) (char : Z)
  : Prog World (image.RGBA * Z) :=
  let '(canvas, x) := st in
  charImg <- drawChar char ;;
  let charBounds := image.Bounds charImg in
  v <- liftRand (rand_IntN (GoInt.quot (image.Dy charBounds) 4)) ;;
  let yOfs := GoInt.sub v (GoInt.quot (image.Dy charBounds) 8) in
  let startRect := image.Rect x (GoInt.add y yOfs)
                     (image.Dx (image.Bounds canvas)) (image.Dy (image.Bounds canvas)) in
  let canvas := draw_Draw canvas startRect (ofImage charImg) (image.Pt 0 0) Over in
  c <- this ;;
  spacing <- (if PrimFloat.eqb (minSpacing c) (maxSpacing c) then ret (minSpacing c)
              else randomBetween (minSpacing c) (maxSpacing c)) ;;
  ret (canvas,
       GoInt.add x (int_of_float64 (float64_of_int (image.Dx charBounds) * spacing))).

(** [drawString]. *)
Definition drawString (code : string) : Prog World image.RGBA :=
  c <- this ;;
  f <- face ;;
  let width := GoInt.mul
                 (GoInt.mul (fixed.Ceil (font_MeasureString f code))
                            (int_of_float64 (maxSpacing c * maxScale c)))
                 2 in
  let height := GoInt.mul
                  (GoInt.mul (fixed.Ceil (Height (font_Metrics f)))
                             (int_of_float64 (maxScale c)))
                  2 in
  canvas <- liftOutcome (image.NewRGBA (image.Rect 0 0 width height)) ;;
  st <- forEach (runesOf code) (drawString_char (GoInt.quot height 3)) (canvas, 0) ;;
  cut (fst st).

(** The body of the loop of [drawNoise]. *)
Definition drawNoise_dot (src : image.RGBA) (dst : image.RGBA) (_ : nat)
  : Prog World image.RGBA :=
  x <- liftRand (rand_IntN (image.Dx (image.Bounds src))) ;;
  y <- liftRand (rand_IntN (image.Dy (image.Bounds src))) ;;
  c <- this ;;
  ret (image.Set_ dst x y (foreground c)).

(** [drawNoise]:
    [[
	if c.noiseLevel == 0 { return src }
	if c.noiseLevel > 1 { c.noiseLevel = 1 }
	noiseCnt := int(float64(src.Bounds().Dx()*src.Bounds().Dy()) * c.noiseLevel)
	dst := image.NewRGBA(src.Bounds())
	draw.Draw(dst, dst.Bounds(), src, image.Pt(0, 0), draw.Src)
	for range noiseCnt { ... }
	return dst
    ]] *)
Definition drawNoise (src : image.RGBA) : Prog World image.RGBA :=
  c <- this ;;
  if PrimFloat.eqb (noiseLevel c) 0 then ret src
  else
    (if PrimFloat.ltb 1 (noiseLevel c) then assignNoiseLevel 1 else ret tt) ;;;
    c <- this ;;
    let noiseCnt :=
      int_of_float64
        (float64_of_int (GoInt.mul (image.Dx (image.Bounds src)) (image.Dy (image.Bounds src)))
         * noiseLevel c) in
    dst <- liftOutcome (image.NewRGBA (image.Bounds src)) ;;
    let dst := draw_Draw dst (image.Bounds dst) (ofImage src) (image.Pt 0 0) Src in
    forEach (seq 0 (Z.to_nat noiseCnt)) (drawNoise_dot src) dst.

(** [drawStraightLine]. *)
Definition drawStraightLine (fuel : nat) (img : image.RGBA) : Prog World image.RGBA :=
  x1 <- liftRand (rand_IntN (image.Dx (image.Bounds img))) ;;
  y1 <- liftRand (rand_IntN (image.Dy (image.Bounds img))) ;;
  x2 <- liftRand (rand_IntN (image.Dx (image.Bounds img))) ;;
  y2 <- liftRand (rand_IntN (image.Dy (image.Bounds img))) ;;
  c <- this ;;
  lineColor <- liftRand (randomNearColor (foreground c)) ;;
  liftOutcome (straightLine fuel lineColor img x1 y1 x2 y2).

(** [drawCurveLine]. *)
Definition drawCurveLine (img : image.RGBA) : Prog World image.RGBA :=
  let w := image.Dx (image.Bounds img) in
  let h := image.Dy (image.Bounds img) in
  x1 <- liftRand (rand_IntN w) ;;
  y1 <- liftRand (rand_IntN h) ;;
  x2 <- liftRand (rand_IntN w) ;;
  y2 <- liftRand (rand_IntN h) ;;
  ctrlX <- liftRand (rand_IntN w) ;;
  ctrlY <- liftRand (rand_IntN h) ;;
  c <- this ;;
  lineColor <- liftRand (randomNearColor (foreground c)) ;;
  ret (curveLine lineColor img x1 y1 x2 y2 ctrlX ctrlY).

(** The number of lines of [drawLines], when it draws any:
    [[
	if c.minLines == c.maxLines {
		lineCnt = c.minLines
	} else {
		lineCnt = rand.IntN(c.maxLines-c.minLines) + c.minLines
	}
    ]] *)
Definition lineCount : Prog World Z :=
  c <- this ;;
  if minLines c =? maxLines c then ret (minLines c)
  else
    v <- liftRand (rand_IntN (GoInt.sub (maxLines c) (minLines c))) ;;
    ret (GoInt.add v (minLines c)).

(** The body of the loop of [drawLines]: one line, straight or curved. *)
Definition drawLines_line (fuel : nat) (dst : image.RGBA) (_ : nat)
  : Prog World image.RGBA :=
  f <- liftRand rand_Float64 ;;
  if PrimFloat.ltb f 0.5 then drawStraightLine fuel dst
  else drawCurveLine dst.

(** [drawLines]. *)
Definition drawLines (fuel : nat) (src : image.RGBA) : Prog World image.RGBA :=
  c <- this ;;
  if (minLines c =? maxLines c) && (minLines c =? 0) then ret src
  else
    lineCnt <- lineCount ;;
    dst <- liftOutcome (image.NewRGBA (image.Bounds src)) ;;
    let dst := draw_Draw dst (image.Bounds dst) (ofImage src) (image.Pt 0 0) Src in
    forEach (seq 0 (Z.to_nat lineCnt)) (drawLines_line fuel) dst.

(** [Generate]. *)
Definition Generate (fuel : nat) : Prog World (image.RGBA * string) :=
  code <- Captcha_randomString ;;
  c <- this ;;
  canvas <- liftOutcome (image.NewRGBA (image.Rect 0 0 (width c) (height c))) ;;
  let canvas := draw_Draw canvas (image.Bounds canvas) (Uniform (background c))
                  (image.Pt 0 0) Over in
  stringImg <- drawString code ;;
  let sx := GoInt.quot (GoInt.sub (width c) (image.Dx (image.Bounds stringImg))) 2 in
  let sy := GoInt.quot (GoInt.sub (height c) (image.Dy (image.Bounds stringImg))) 2 in
  let startRect := image.Rect sx sy (image.Dx (image.Bounds canvas))
                     (image.Dy (image.Bounds canvas)) in
  let canvas := draw_Draw canvas startRect (ofImage stringImg) (image.Pt 0 0) Over in
  canvas <- drawNoise canvas ;;
  canvas <- drawLines fuel canvas ;;
  ret (canvas, code).

End Captcha.

(** * Notions used in the statements *)

#[local] Set Warnings "-inexact-float".

(** Comparisons of [float64] values, as propositions. *)
Definition flt (a b : float) : Prop := PrimFloat.ltb a b = true.

Definition fle (a b : float) : Prop := PrimFloat.leb a b = true.

(** A range of integers that is negative or inverted. *)
Definition BadIntRange (min max : Z) : Prop := min < 0 \/ max < 0 \/ min > max.

(** A range of floats that is negative or inverted. *)
Definition BadRange (min max : float) : Prop := flt min 0 \/ flt max 0 \/ flt max min.

(** A rotation range that leaves [[-180,180]] or is inverted. *)
Definition BadRotation (min max : float) : Prop :=
  flt min (-180) \/ flt 180 max \/ flt max min.

(** The image after [img.Set(x, y, lineColor)] for each point of a list,
    in order. *)
Definition plot (lineColor : color.RGBA) (img : image.RGBA) (path : list (Z * Z))
  : image.RGBA :=
  fold_left (fun img p => image.Set_ img (fst p) (snd p) (color.ofRGBA lineColor))
            path img.

(** A point of the rectangle [[0,w) x [0,h)]. *)
Definition inCanvas (w h : Z) (p : Z * Z) : Prop :=
  0 <= fst p < w /\ 0 <= snd p < h.

(** The points that the loop of [drawStraightLine] passes to [img.Set], in
    order: the loop itself, without the image. *)
Fixpoint bresenhamPath (fuel : nat) (x2 y2 dx dy sx sy : Z) (x1 y1 err : Z)
  : option (list (Z * Z)) :=
  match fuel with
  | O => None
  | S fuel' =>
      if (x1 =? x2) && (y1 =? y2) then Some [(x1, y1)]
      else
        let err2 := GoInt.mul 2 err in
        let '(err', x1') :=
          if err2 >? GoInt.neg dy then (GoInt.sub err dy, GoInt.add x1 sx)
          else (err, x1) in
        let '(err'', y1') :=
          if err2 <? dx then (GoInt.add err' dx, GoInt.add y1 sy)
          else (err', y1) in
        match bresenhamPath fuel' x2 y2 dx dy sx sy x1' y1' err'' with
        | Some path => Some ((x1, y1) :: path)
        | None => None
        end
  end.

(** The points of the line from [(x1, y1)] to [(x2, y2)]. *)
Definition straightLinePath (fuel : nat) (x1 y1 x2 y2 : Z) : option (list (Z * Z)) :=
  let dx := abs (GoInt.sub x2 x1) in
  let dy := abs (GoInt.sub y2 y1) in
  let sx := if x1 <? x2 then 1 else -1 in
  let sy := if y1 <? y2 then 1 else -1 in
  bresenhamPath fuel x2 y2 dx dy sx sy x1 y1 (GoInt.sub dx dy).

(** Neighbours among the eight, and among the four, pixels around a pixel. *)
Definition Adjacent8 (p q : Z * Z) : Prop :=
  Z.abs (fst q - fst p) <= 1 /\ Z.abs (snd q - snd p) <= 1 /\ p <> q.

Definition Adjacent4 (p q : Z * Z) : Prop :=
  Z.abs (fst q - fst p) + Z.abs (snd q - snd p) = 1.

(** A sequence of pixels in which each is related to the next. *)
Fixpoint Chain (adjacent : Z * Z -> Z * Z -> Prop) (path : list (Z * Z)) : Prop :=
  match path with
  | p :: (q :: _) as rest => adjacent p q /\ Chain adjacent rest
  | _ => True
  end.

Definition EightConnected : list (Z * Z) -> Prop := Chain Adjacent8.

Definition FourConnected : list (Z * Z) -> Prop := Chain Adjacent4.

(** The pixel reached from [(x0, y0)] after [a] steps along x and [b] steps
    along y. *)
Definition lineAt (x0 y0 sx sy a b : Z) : Z * Z := (x0 + sx * a, y0 + sy * b).

(** The error term in the state reached after [a] steps along x and [b]
    steps along y. *)
Definition errAt (dx dy a b : Z) : Z := (b + 1) * dx - (a + 1) * dy.

(** What is established for the points drawn from the state [(a, b)] on. *)
Definition PathFrom (x0 y0 sx sy dx dy a b : Z) (path : list (Z * Z)) : Prop :=
  hd_error path = Some (lineAt x0 y0 sx sy a b)
  /\ last path (0, 0) = lineAt x0 y0 sx sy dx dy
  /\ NoDup path
  /\ EightConnected path
  /\ Forall (fun p => exists a' b',
                 a <= a' <= dx /\ b <= b' <= dy /\ p = lineAt x0 y0 sx sy a' b')
            path.

(** The test of [drawCurveLine] on a sample:
    [finalX >= 0 && finalX < w && finalY >= 0 && finalY < h]. *)
Definition inCanvasb (w h : Z) (p : Z * Z) : bool :=
  (fst p >=? 0) && (fst p <? w) && (snd p >=? 0) && (snd p <? h).

(** The parameter of the sample at [step]: [float64(step) / float64(steps)]
    with [steps = 120]. *)
Definition curveParameter (step : Z) : float :=
  (float64_of_int step / float64_of_int 120)%float.

(** Double linear interpolation on one axis, as the specification words
    it: a lerp from the first end point to the second and a lerp from the
    first end point to the control point, each cut to an integer, then a
    lerp between the two results, all at the same parameter. *)
Definition doubleLerp (p1 p2 ctrl : Z) (t : float) : Z :=
  let onFirstLeg := int_of_float64 (lerp (float64_of_int p1) (float64_of_int p2) t) in
  let onSecondLeg := int_of_float64 (lerp (float64_of_int p1) (float64_of_int ctrl) t) in
  int_of_float64 (lerp (float64_of_int onFirstLeg) (float64_of_int onSecondLeg) t).

(** The closed form of a quadratic Bezier curve on one axis:
    [(1-t)^2 p1 + 2 (1-t) t ctrl + t^2 p2]. *)
Definition bezierClosedForm (p1 p2 ctrl : Z) (t : float) : Z :=
  int_of_float64
    ((1 - t) * (1 - t) * float64_of_int p1
     + 2 * (1 - t) * t * float64_of_int ctrl
     + t * t * float64_of_int p2)%float.

(** The samples of [drawCurveLine], in the order of the loop. *)
Definition curveSamples (x1 y1 x2 y2 ctrlX ctrlY : Z) : list (Z * Z) :=
  map (curvePoint x1 y1 x2 y2 ctrlX ctrlY) (zrange 0 120).

(** The pixels [(x, y)] with [x] in [xs] and [y] in [ys], row by row:
    the order of [for y ... { for x ... { } }]. *)
Definition rowMajor (xs ys : list Z) : list (Z * Z) :=
  flat_map (fun y => map (fun x => (x, y)) xs) ys.

(** The image after a loop that, at each pixel of a list, either sets the
    pixel to a color that depends on the pixel or leaves the image. *)
Definition paint (colorAt : Z * Z -> option color.Color) (l : list (Z * Z))
  (img : image.RGBA) : image.RGBA :=
  fold_left (fun img p =>
               match colorAt p with
               | Some c => image.Set_ img (fst p) (snd p) c
               | None => img
               end) l img.

(** A pixel that [pixelBounds] counts: [src.RGBAAt(x, y).A > 0]. *)
Definition Opaque (src : image.RGBA) (x y : Z) : Prop :=
  color.A (image.RGBAAt src x y) > 0.

(** A rectangle whose corners are in order. *)
Definition WellFormed (r : image.Rectangle) : Prop :=
  image.X (image.Min r) <= image.X (image.Max r)
  /\ image.Y (image.Min r) <= image.Y (image.Max r).

(** The pixels that the loops of [pixelBounds] visit, in order. *)
Definition scanned (src : image.RGBA) : list (Z * Z) :=
  let bounds := image.Bounds src in
  rowMajor (zrange (image.X (image.Min bounds)) (image.X (image.Max bounds)))
           (zrange (image.Y (image.Min bounds)) (image.Y (image.Max bounds))).

Definition scanStep (src : image.RGBA) (st : Extremes) (p : Z * Z) : Extremes :=
  pixelBounds_pixel src (snd p) st (fst p).

(** The extremes enclose a pixel, corners included. *)
Definition Encloses (st : Extremes) (p : Z * Z) : Prop :=
  let '(minX, minY, maxX, maxY) := st in
  minX <= fst p <= maxX /\ minY <= snd p <= maxY.

(** The second extremes are at least as wide as the first. *)
Definition Wider (st st' : Extremes) : Prop :=
  let '(minX, minY, maxX, maxY) := st in
  let '(minX', minY', maxX', maxY') := st' in
  minX' <= minX /\ minY' <= minY /\ maxX <= maxX' /\ maxY <= maxY'.

(** Each extreme is the initial one or the coordinate of an opaque pixel. *)
Definition Attained (src : image.RGBA) (st0 st : Extremes) : Prop :=
  let '(minX0, minY0, maxX0, maxY0) := st0 in
  let '(minX, minY, maxX, maxY) := st in
  (minX = minX0 \/ exists y, Opaque src minX y)
  /\ (minY = minY0 \/ exists x, Opaque src x minY)
  /\ (maxX = maxX0 \/ exists y, Opaque src maxX y)
  /\ (maxY = maxY0 \/ exists x, Opaque src x maxY).

(** A 3x3 canvas that is transparent but for the pixel [(1,1)], and a
    3x3 canvas that is transparent. *)
Definition onePixelCanvas : image.RGBA :=
  image.mkRGBA (image.Rect 0 0 3 3)
    (fun x y => if (x =? 1) && (y =? 1) then color.mkRGBA 0 0 0 255
                else color.transparent).

Definition transparentCanvas : image.RGBA :=
  image.mkRGBA (image.Rect 0 0 3 3) (fun _ _ => color.transparent).

(** Rounding to the nearest integer, halves away from zero. *)
Definition roundToInt (f : float) : Z :=
  int_of_float64 (if PrimFloat.ltb f 0 then f - 0.5 else f + 0.5)%float.

(** A canvas one pixel wide and four high, each row of a color of its own. *)
Definition stripes : image.RGBA :=
  image.mkRGBA (image.Rect 0 0 1 4) (fun _ y => color.mkRGBA (60 * y) 0 0 255).

Section Notions.

Context {L : Library}.

(** The conditions under which the parameters are invalid, as the
    specification lists them. *)
Definition InvalidParameters (c : Captcha) : Prop :=
  (width c <= 0 \/ height c <= 0)
  \/ charSet c = EmptyString
  \/ fontPath c = EmptyString
  \/ fle (fontSize c) 0
  \/ BadIntRange (minLength c) (maxLength c)
  \/ BadRange (minSpacing c) (maxSpacing c)
  \/ BadRange (minScale c) (maxScale c)
  \/ BadRange (minDistortion c) (maxDistortion c)
  \/ BadIntRange (minLines c) (maxLines c)
  \/ BadRotation (minRotation c) (maxRotation c)
  \/ (flt (noiseLevel c) 0 \/ flt 1 (noiseLevel c)).

(** A configuration that passes the validation of [New]. *)
Definition Validated (c : Captcha) : Prop := validate c = None.

(** The [int] fields of a configuration hold values of [int]. *)
Definition WellTyped (c : Captcha) : Prop :=
  GoInt.in_range (width c) /\ GoInt.in_range (height c)
  /\ GoInt.in_range (minLength c) /\ GoInt.in_range (maxLength c)
  /\ GoInt.in_range (minLines c) /\ GoInt.in_range (maxLines c).

(** A program that leaves the receiver as it found it, whenever the
    receiver satisfies [P] at the start. *)
Definition keepsFrom {A : Type} (P : Captcha -> Prop) (m : Prog World A) : Prop :=
  forall w, P (recv w) -> recv (snd (m w)) = recv w.

(** A program that never changes the receiver. *)
Definition keeps {A : Type} (m : Prog World A) : Prop :=
  forall w, recv (snd (m w)) = recv w.

(** The only assignment to a field of the receiver is the one of
    [drawNoise], under the test [c.noiseLevel > 1]. *)
Definition noiseAtMostOne (c : Captcha) : Prop :=
  PrimFloat.ltb 1 (noiseLevel c) = false.

(** The source pixel that [distortChar] samples for the destination pixel
    [(x, y)]: [(x + int(xOfs), y + int(yOfs))]. *)
Definition distortSource (amplitude : float) (h : Z) (x y : Z) : Z * Z :=
  let period := (float64_of_int h / 2)%float in
  let xOfs := (amplitude * math_Sin (two_Pi * float64_of_int y / period))%float in
  let yOfs := (amplitude * math_Cos (two_Pi * float64_of_int x / period))%float in
  (GoInt.add x (int_of_float64 xOfs), GoInt.add y (int_of_float64 yOfs)).

(** What the inner loop of [distortChar] does at the destination pixel
    [p]. *)
Definition distortColor (amplitude : float) (w h : Z) (src : image.RGBA) (p : Z * Z)
  : option color.Color :=
  let '(nx, ny) := distortSource amplitude h (fst p) (snd p) in
  if inCanvasb w h (nx, ny) then Some (image.At src nx ny) else None.

(** The amplitude that [distortChar] uses when it distorts: the single
    value of the range, or a value between the bounds chosen by one draw
    of [rand.Float64]. *)
Definition distortAmplitude (c : Captcha) (r : Rand) : float * Rand :=
  if PrimFloat.eqb (minDistortion c) (maxDistortion c) then (minDistortion c, r)
  else
    let (u, r') := rand_Uint64 r in
    ((float64_of_int (u mod 2 ^ 53) / 0x1p+53) * (maxDistortion c - minDistortion c)
     + minDistortion c, r')%float.

(** The source pixel of the specification:
    [(x + round(xOfs), y + round(yOfs))]. *)
Definition roundedSource (amplitude : float) (h : Z) (x y : Z) : Z * Z :=
  let period := (float64_of_int h / 2)%float in
  let xOfs := (amplitude * math_Sin (two_Pi * float64_of_int y / period))%float in
  let yOfs := (amplitude * math_Cos (two_Pi * float64_of_int x / period))%float in
  (x + roundToInt xOfs, y + roundToInt yOfs).

(** A configuration with the single amplitude 1.75. *)
Definition warped (c : Captcha) : Captcha := WithDistortion 1.75 1.75 c.

End Notions.

(** ** A small instance of the library

    Enough of a font engine, of a compositor and of trigonometry to run
    the methods on concrete inputs.  The sine and the cosine are
    polynomial approximations; they are exact at 0, the one argument for
    which a statement below depends on their value. *)

Module Sample.

(** The argument less a whole number of turns. *)
Definition reduce (x : float) : float :=
  (x - float64_of_int (int_of_float64 (x / two_Pi)) * two_Pi)%float.

Definition sinSeries (x : float) : float :=
  let x2 := (x * x)%float in
  (x * (1 - x2 / 6 * (1 - x2 / 20 * (1 - x2 / 42 * (1 - x2 / 72
        * (1 - x2 / 110 * (1 - x2 / 156)))))))%float.

Definition cosSeries (x : float) : float :=
  let x2 := (x * x)%float in
  (1 - x2 / 2 * (1 - x2 / 12 * (1 - x2 / 30 * (1 - x2 / 56
       * (1 - x2 / 90 * (1 - x2 / 132))))))%float.

Definition Sin (x : float) : float := sinSeries (reduce x).
Definition Cos (x : float) : float := cosSeries (reduce x).

(** The color of a source at a point. *)
Definition sourceAt (src : Source) (x y : Z) : color.RGBA :=
  match src with
  | ofImage img => image.RGBAAt img x y
  | Uniform c => color.rgbaModel c
  end.

(** Putting a color on a color: the new one replaces the old one, except
    that under [Over] a transparent color leaves the old one. *)
Definition compose (op : Op) (new old : color.RGBA) : color.RGBA :=
  match op with
  | Src => new
  | Over => if color.A new =? 0 then old else new
  end.

Definition Draw (dst : image.RGBA) (r : image.Rectangle) (src : Source)
  (sp : image.Point) (op : Op) : image.RGBA :=
  image.mkRGBA (image.Bounds dst)
    (fun x y =>
       if image.In (image.Pt x y) r then
         compose op
           (sourceAt src (image.X sp + (x - image.X (image.Min r)))
                         (image.Y sp + (y - image.Y (image.Min r))))
           (image.Pix dst x y)
       else image.Pix dst x y).

(** Nearest-neighbour scaling. *)
Definition Scale (dst : image.RGBA) (dr : image.Rectangle) (src : image.RGBA)
  (sr : image.Rectangle) (op : Op) : image.RGBA :=
  image.mkRGBA (image.Bounds dst)
    (fun x y =>
       if image.In (image.Pt x y) dr then
         compose op
           (image.RGBAAt src
              (image.X (image.Min sr)
               + (x - image.X (image.Min dr)) * image.Dx sr / image.Dx dr)
              (image.Y (image.Min sr)
               + (y - image.Y (image.Min dr)) * image.Dy sr / image.Dy dr))
           (image.Pix dst x y)
       else image.Pix dst x y).

(** Nearest-neighbour sampling through the inverse of the matrix. *)
Definition Transform (dst : image.RGBA) (m : Aff3) (src : image.RGBA)
  (sr : image.Rectangle) (op : Op) : image.RGBA :=
  image.mkRGBA (image.Bounds dst)
    (fun x y =>
       let det := (m00 m * m11 m - m01 m * m10 m)%float in
       let fx := (float64_of_int x - m02 m)%float in
       let fy := (float64_of_int y - m12 m)%float in
       let sx := int_of_float64 ((m11 m * fx - m01 m * fy) / det)%float in
       let sy := int_of_float64 ((m00 m * fy - m10 m * fx) / det)%float in
       if image.In (image.Pt sx sy) sr
       then compose op (image.RGBAAt src sx sy) (image.Pix dst x y)
       else image.Pix dst x y).

(** A font whose glyphs are boxes: 8 pixels of advance, 12 of ascent and
    4 of descent. *)
Definition MeasureString (_ : unit) (s : string) : Z := fixed.I (8 * len s).

Definition theMetrics (_ : unit) : Metrics :=
  mkMetrics (fixed.I 16) (fixed.I 12) (fixed.I 4).

Definition DrawString (dst : image.RGBA) (src : Source) (_ : unit)
  (dot : fixed.Point26_6) (s : string) : image.RGBA :=
  let x0 := Z.shiftr (fixed.X dot) 6 in
  let y0 := Z.shiftr (fixed.Y dot) 6 in
  image.mkRGBA (image.Bounds dst)
    (fun x y =>
       if (x0 <=? x) && (x <? x0 + 8 * len s) && ((x - x0) mod 8 <? 6)
          && (y0 - 10 <=? y) && (y <? y0)
          && image.In (image.Pt x y) (image.Bounds dst)
       then sourceAt src x y
       else image.Pix dst x y).

(** A file system with a file at every path but the empty one, and a
    parser that accepts every file that is not empty. *)
Definition ReadFile (path : string) : Result (list ascii) :=
  match path with
  | EmptyString => Err "open : no such file or directory"
  | _ => Ok (list_ascii_of_string path)
  end.

Definition Parse (bytes : list ascii) : Result unit :=
  match bytes with
  | [] => Err "sfnt: invalid font"
  | _ => Ok tt
  end.

Definition NewFace (_ : unit) (_ : FaceOptions) : Result unit := Ok tt.

(** Strings of one-byte characters. *)
Definition runes (s : string) : list Z :=
  map (fun ch => Z.of_N (N_of_ascii ch)) (list_ascii_of_string s).

Definition ofRune (r : Z) : string := String (ascii_of_N (Z.to_N r)) EmptyString.

Definition library : Library := {|
  Face := unit;
  Font := unit;
  os_ReadFile := ReadFile;
  opentype_Parse := Parse;
  opentype_NewFace := NewFace;
  font_MeasureString := MeasureString;
  font_Metrics := theMetrics;
  Drawer_DrawString := DrawString;
  draw_Draw := Draw;
  CatmullRom_Scale := Scale;
  CatmullRom_Transform := Transform;
  math_Sin := Sin;
  math_Cos := Cos;
  math_Sincos := fun x => (Sin x, Cos x);
  runesOf := runes;
  stringOfRune := ofRune
|}.

(** The options of the example of the documentation, but for the paths. *)
Definition options : list (Option (L := library)) :=
  [WithFont "font.ttf" 40; WithSize 150 50; WithLength 4 6;
   WithScale 0.8 1.2; WithRotation (-30) 30; WithDistortion 1.2 2;
   WithSpacing 0.7 0.9; WithNoise 0.05; WithLines 4 6].

(** The default configuration with a font. *)
Definition plain : Captcha (L := library) := WithFont "font.ttf" 36 defaults.

(** A random source whose draws are 0, 1, 2, ... *)
Definition counting : Rand := mkRand (fun k => Z.of_nat k) 0.

(** The [Captcha] that [New] makes of the options of the example. *)
Definition made : Captcha (L := library) :=
  setFontFace (L := library) tt (fold_left (fun c opt => opt c) options defaults).

End Sample.

(** ** Notions of the further properties *)

(** The pixels that the loop of [drawNoise] sets in [n] rounds from the
    state [r] of the random source on: each round draws a column, then a
    row. *)
Definition noisePoints (r : Rand) (n : nat) (w h : Z) : list (Z * Z) :=
  map (fun k => (nthIntN r (2 * k) w, nthIntN r (2 * k + 1) h)) (seq 0 n).

(** A program that ends whatever the fuel: it returns or it panics. *)
Definition endsWithoutFuel {S A : Type} (m : Prog S A) : Prop :=
  forall s, fst (m s) <> OutOfFuel.

Section Laws.

Context {L : Library}.

(** [draw.Draw] writes the pixels of its destination: the bounds of the
    destination stay. *)
Definition DrawKeepsBounds : Prop :=
  forall dst r src sp op, image.Bounds (draw_Draw dst r src sp op) = image.Bounds dst.


End Laws.

(** A channel of the result of [randomNearColor], against the channel of
    the base and the offset drawn for it: the sum when it is a byte, the
    sum wrapped around by 256 when it is not. *)
Definition NearOrWrapped (base result offset : Z) : Prop :=
  0 <= result <= 255
  /\ (0 <= base + offset <= 255 -> result = base + offset)
  /\ (base + offset < 0 -> result = base + offset + 256)
  /\ (255 < base + offset -> result = base + offset - 256)
  /\ (Z.abs (result - base) <= 25 \/ 231 <= Z.abs (result - base))
  /\ (25 <= base <= 231 -> Z.abs (result - base) <= 25).

(** * Properties *)

(** ** Machine integers and ranges *)

Lemma wrap_id (z : Z) : GoInt.in_range z -> GoInt.wrap z = z.
Proof.
  unfold GoInt.in_range, GoInt.wrap, GoInt.min_int, GoInt.max_int. intros H.
  rewrite Z.mod_small; lia.
Qed.

Lemma wrap_in_range (z : Z) : GoInt.in_range (GoInt.wrap z).
Proof.
  unfold GoInt.in_range, GoInt.wrap, GoInt.min_int, GoInt.max_int.
  pose proof (Z.mod_pos_bound (z + 2 ^ 63) (2 ^ 64)). lia.
Qed.

Lemma in_range_bounds (z : Z) :
  GoInt.in_range z <-> - 2 ^ 63 <= z <= 2 ^ 63 - 1.
Proof. unfold GoInt.in_range, GoInt.min_int, GoInt.max_int. tauto. Qed.

(** Removing the reductions that the bounds at hand make superfluous,
    innermost first. *)
Ltac int_bounds :=
  try unfold GoInt.in_range, GoInt.min_int, GoInt.max_int in *.

Ltac unwrap :=
  int_bounds;
  repeat match goal with
         | |- context [GoInt.wrap ?z] =>
             rewrite (wrap_id z) by (apply in_range_bounds; lia)
         end.


Lemma in_zrange (lo hi v : Z) : In v (zrange lo hi) <-> lo <= v < hi.
Proof.
  unfold zrange. rewrite in_map_iff. split.
  - intros [k [<- Hk]]. apply in_seq in Hk. lia.
  - intros H. exists (Z.to_nat (v - lo)). split; [lia |].
    apply in_seq. lia.
Qed.

Lemma zrange_empty (lo hi : Z) : hi <= lo -> zrange lo hi = [].
Proof.
  intros H. unfold zrange. replace (Z.to_nat (hi - lo)) with 0%nat by lia.
  reflexivity.
Qed.

Lemma zrange_cons (lo hi : Z) : lo < hi -> zrange lo hi = lo :: zrange (lo + 1) hi.
Proof.
  intros H. unfold zrange.
  replace (Z.to_nat (hi - lo)) with (S (Z.to_nat (hi - (lo + 1)))) by lia.
  simpl. f_equal; [lia |].
  rewrite <- seq_shift, map_map. apply map_ext. intros k. lia.
Qed.

Lemma zrange_snoc (lo hi : Z) : lo <= hi -> zrange lo (hi + 1) = zrange lo hi ++ [hi].
Proof.
  intros H. unfold zrange.
  replace (Z.to_nat (hi + 1 - lo)) with (Z.to_nat (hi - lo) + 1)%nat by lia.
  rewrite seq_app, map_app. simpl. do 2 f_equal. lia.
Qed.

(** ** Programs *)

Lemma bind_returned {S A B : Type} (m : Prog S A) (k : A -> Prog S B)
  (s s' : S) (a : A) :
  m s = (Returned a, s') -> bind m k s = k a s'.
Proof. intros H. unfold bind. rewrite H. reflexivity. Qed.

Lemma bind_panicked {S A B : Type} (m : Prog S A) (k : A -> Prog S B)
  (s s' : S) (msg : string) :
  m s = (Panicked msg, s') -> bind m k s = (Panicked msg, s').
Proof. intros H. unfold bind. rewrite H. reflexivity. Qed.

(** ** The random source *)

Lemma rand_IntN_run (n : Z) (r : Rand) :
  0 < n ->
  rand_IntN n r = (Returned (nthIntN r 0 n), mkRand (tape r) (S (cursor r))).
Proof.
  intros H. unfold rand_IntN, nthIntN, rand_Uint64.
  destruct (Z.leb_spec n 0); [lia |]. rewrite Nat.add_0_r. reflexivity.
Qed.

Lemma rand_IntN_panics (n : Z) (r : Rand) :
  n <= 0 -> rand_IntN n r = (Panicked "invalid argument to IntN", r).
Proof.
  intros H. unfold rand_IntN. destruct (Z.leb_spec n 0); [reflexivity | lia].
Qed.

Lemma nthIntN_range (r : Rand) (k : nat) (n : Z) : 0 < n -> 0 <= nthIntN r k n < n.
Proof. intros H. unfold nthIntN. apply Z.mod_pos_bound. exact H. Qed.

Lemma nthIntN_shift (r : Rand) (k j : nat) (n : Z) :
  nthIntN (mkRand (tape r) (cursor r + j)) k n = nthIntN r (j + k) n.
Proof. unfold nthIntN. simpl. rewrite Nat.add_assoc. reflexivity. Qed.

(** Every value of [[0,n)] is the result of [rand.IntN(n)] for some draw. *)
Lemma nthIntN_onto (n v : Z) (k : nat) (c : nat) :
  0 <= v < n -> n <= 2 ^ 64 -> nthIntN (mkRand (fun _ => v) c) k n = v.
Proof.
  intros Hv Hn. unfold nthIntN. cbn [tape cursor].
  rewrite (Z.mod_small v (2 ^ 64)) by lia. apply Z.mod_small. lia.
Qed.

(** ** Strings and slices *)

Lemma setIndex_length {A : Type} (b : list A) (i : nat) (v : A) :
  List.length (setIndex b i v) = List.length b.
Proof.
  revert i. induction b as [| h t IH]; intros [| j]; simpl; auto.
Qed.

Lemma nth_error_setIndex_eq {A : Type} (b : list A) (i : nat) (v : A) :
  (i < List.length b)%nat -> nth_error (setIndex b i v) i = Some v.
Proof.
  revert i. induction b as [| h t IH]; intros [| j] H; simpl in *; try lia; auto.
  apply IH. lia.
Qed.

Lemma nth_error_setIndex_neq {A : Type} (b : list A) (i j : nat) (v : A) :
  i <> j -> nth_error (setIndex b i v) j = nth_error b j.
Proof.
  revert i j.
  induction b as [| h t IH]; intros [| i] [| j] H; simpl; auto; congruence.
Qed.

Lemma get_string_of_list (l : list ascii) (i : nat) :
  String.get i (string_of_list_ascii l) = nth_error l i.
Proof.
  revert i. induction l as [| h t IH]; intros [| i]; simpl; auto.
Qed.

Lemma length_string_of_list (l : list ascii) :
  String.length (string_of_list_ascii l) = List.length l.
Proof. induction l as [| h t IH]; simpl; auto. Qed.

Lemma get_in_range (s : string) (i : nat) :
  (i < String.length s)%nat -> exists ch, String.get i s = Some ch.
Proof.
  revert i. induction s as [| h t IH]; intros i H; simpl in *; [lia |].
  destruct i as [| i]; [eauto |]. apply IH. lia.
Qed.


Lemma byteAt_run {S : Type} (s : string) (i : Z) (st : S) :
  0 <= i < len s ->
  exists ch, byteAt s i st = (Returned ch, st) /\ String.get (Z.to_nat i) s = Some ch.
Proof.
  intros H. unfold byteAt, len in *.
  destruct (Z.ltb_spec i 0); [lia |].
  destruct (get_in_range s (Z.to_nat i)) as [ch Hch]; [lia |].
  exists ch. rewrite Hch. split; reflexivity.
Qed.

(** The loop of [randomString] over the indices [k, ..., k+m-1]: it makes
    [m] draws, leaves the bytes before [k] alone and sets byte [k+i] to
    the byte of the set that the [i]-th draw selects. *)
Lemma randomString_loop (set : string) :
  0 < len set ->
  forall (m k : nat) (b : list ascii) (r : Rand),
    List.length b = (k + m)%nat ->
    exists b',
      forEach (seq k m) (randomString_body set) b r
      = (Returned b', mkRand (tape r) (cursor r + m))
      /\ List.length b' = List.length b
      /\ (forall i, (i < k)%nat -> nth_error b' i = nth_error b i)
      /\ (forall i, (i < m)%nat ->
            nth_error b' (k + i)
            = String.get (Z.to_nat (nthIntN r i (len set))) set).
Proof.
  intros Hset m. induction m as [| m IH]; intros k b r Hlen.
  - exists b. simpl. unfold ret. rewrite Nat.add_0_r. destruct r; simpl.
    repeat split; auto. intros i Hi. lia.
  - simpl. unfold bind at 1. unfold randomString_body at 1.
    unfold bind at 1. rewrite rand_IntN_run by exact Hset.
    destruct (byteAt_run (S := Rand) set (nthIntN r 0 (len set))
                (mkRand (tape r) (S (cursor r)))) as [ch [Hrun Hget]].
    { apply nthIntN_range. exact Hset. }
    unfold bind at 1. rewrite Hrun. unfold ret at 1.
    destruct (IH (S k) (setIndex b k ch) (mkRand (tape r) (S (cursor r))))
      as [b' [Hloop [Hlen' [Hold Hnew]]]].
    { rewrite setIndex_length. lia. }
    exists b'. simpl in Hloop. rewrite Hloop.
    split; [f_equal; f_equal; lia |].
    split; [rewrite Hlen', setIndex_length; reflexivity |].
    split.
    + intros i Hi. rewrite Hold by lia. apply nth_error_setIndex_neq. lia.
    + intros [| i] Hi.
      * rewrite Nat.add_0_r, Hold by lia.
        rewrite nth_error_setIndex_eq by lia. symmetry. exact Hget.
      * replace (k + S i)%nat with (S k + i)%nat by lia.
        rewrite Hnew by lia.
        change (mkRand (tape r) (S (cursor r)))
          with (mkRand (tape r) (1 + cursor r)).
        rewrite (Nat.add_comm 1 (cursor r)), nthIntN_shift. reflexivity.
Qed.

(** [randomString(length, set)] for a non-empty set and a length that is
    not negative. *)
Lemma randomString_run (length : Z) (set : string) (r : Rand) :
  0 <= length -> 0 < len set ->
  exists code,
    randomString length set r
    = (Returned code, mkRand (tape r) (cursor r + Z.to_nat length))
    /\ len code = length
    /\ (forall i, (i < Z.to_nat length)%nat ->
          String.get i code = String.get (Z.to_nat (nthIntN r i (len set))) set).
Proof.
  intros Hlen Hset. unfold randomString.
  destruct (Z.ltb_spec length 0); [lia |].
  destruct (randomString_loop set Hset (Z.to_nat length) 0
              (repeat Ascii.zero (Z.to_nat length)) r) as [b [Hloop [Hl [_ Hnew]]]].
  { rewrite repeat_length. reflexivity. }
  exists (string_of_list_ascii b).
  cbv zeta. rewrite repeat_length. rewrite (bind_returned _ _ _ _ _ Hloop).
  unfold ret. split; [reflexivity |]. split.
  - unfold len. rewrite length_string_of_list, Hl, repeat_length. lia.
  - intros i Hi. rewrite get_string_of_list. apply (Hnew i Hi).
Qed.

(** The set is indexed byte by byte: of a character of two bytes (here the
    bytes 195 and 169) a code can hold the first byte alone. *)
Lemma randomString_draws_bytes :
  fst (randomString 1 (String (ascii_of_nat 195) (String (ascii_of_nat 169) EmptyString))
         (mkRand (fun _ => 0) 0))
  = Returned (String (ascii_of_nat 195) EmptyString).
Proof. vm_compute. reflexivity. Qed.

(** ** Validation of the parameters *)

Lemma isEmpty_true (s : string) : isEmpty s = true <-> s = EmptyString.
Proof. destruct s; simpl; split; congruence. Qed.

Lemma isEmpty_false (s : string) : isEmpty s = false <-> 0 < len s.
Proof. destruct s; unfold len; simpl; split; intros; try congruence; lia. Qed.

Ltac split_ifs :=
  repeat match goal with
         | |- context [if ?b then _ else _] =>
             let E := fresh "E" in destruct b eqn:E
         end.

Ltac bool_to_prop :=
  repeat match goal with
         | H : _ || _ = true |- _ => apply orb_true_iff in H; destruct H
         | H : _ || _ = false |- _ => apply orb_false_iff in H; destruct H
         | H : isEmpty _ = true |- _ => apply isEmpty_true in H
         | H : isEmpty _ = false |- _ => apply isEmpty_false in H
         | H : (_ <=? _) = true |- _ => apply Z.leb_le in H
         | H : (_ <=? _) = false |- _ => apply Z.leb_gt in H
         | H : (_ <? _) = true |- _ => apply Z.ltb_lt in H
         | H : (_ <? _) = false |- _ => apply Z.ltb_ge in H
         | H : (_ >? _) = true |- _ => rewrite Z.gtb_ltb in H
         | H : (_ >? _) = false |- _ => rewrite Z.gtb_ltb in H
         end.

Section CaptchaProperties.

Context {L : Library}.

Lemma validate_fails_iff (c : Captcha) : validate c <> None <-> InvalidParameters c.
Proof.
  unfold validate, InvalidParameters, BadIntRange, BadRange, BadRotation, flt, fle.
  split_ifs; bool_to_prop;
    (split; [intros Hv; try congruence | intros Hinv; try discriminate]).
  all: try (intuition (try lia; try congruence); fail).
  all: exfalso;
    repeat match goal with
           | H : _ \/ _ |- _ => destruct H
           | H : _ = EmptyString |- _ => rewrite H in *
           end;
    unfold len in *; simpl in *; try lia; try congruence.
Qed.

Lemma validated_iff (c : Captcha) : Validated c <-> ~ InvalidParameters c.
Proof.
  unfold Validated. rewrite <- validate_fails_iff.
  destruct (validate c); split; intros H.
  - discriminate.
  - exfalso. apply H. discriminate.
  - intros H'. apply H'. reflexivity.
  - reflexivity.
Qed.

End CaptchaProperties.

Section NewProperties.

Context {L : Library}.



End NewProperties.

Section NotANumber.

Context {L : Library}.

(** The comparisons of [float64] are all false on a value that is not a
    number: such a noise level passes the validation. *)
Lemma validate_accepts_nan_noise (c : Captcha) :
  Validated c -> Validated (WithNoise nan c).
Proof.
  unfold Validated, validate. cbn [WithNoise width height charSet fontPath fontSize
    minLength maxLength minSpacing maxSpacing minRotation maxRotation minScale
    maxScale minDistortion maxDistortion minLines maxLines noiseLevel].
  change (PrimFloat.ltb nan 0 || PrimFloat.ltb 1 nan) with false.
  split_ifs; congruence.
Qed.

End NotANumber.

(** ** What a method does to its receiver *)

Section Frame.

Context {L : Library}.

Lemma keeps_keepsFrom {A : Type} (P : Captcha -> Prop) (m : Prog World A) :
  keeps m -> keepsFrom P m.
Proof. intros H w _. apply H. Qed.

Lemma keeps_ret {A : Type} (a : A) : keeps (ret a).
Proof. intros w. reflexivity. Qed.

Lemma keeps_panic {A : Type} (msg : string) : keeps (panic (A := A) msg).
Proof. intros w. reflexivity. Qed.

Lemma keeps_this : keeps this.
Proof. intros w. reflexivity. Qed.

Lemma keeps_liftOutcome {A : Type} (o : Outcome A) : keeps (liftOutcome o).
Proof. intros w. reflexivity. Qed.

Lemma keeps_liftRand {A : Type} (m : Prog Rand A) : keeps (liftRand m).
Proof. intros w. unfold liftRand. destruct (m (rnd w)). reflexivity. Qed.

Lemma keeps_bind {A B : Type} (m : Prog World A) (k : A -> Prog World B) :
  keeps m -> (forall a, keeps (k a)) -> keeps (bind m k).
Proof.
  intros Hm Hk w. unfold bind. specialize (Hm w).
  destruct (m w) as [[a | msg |] w']; simpl in *; try exact Hm.
  rewrite Hk. exact Hm.
Qed.

Lemma keepsFrom_bind {A B : Type} (P : Captcha -> Prop) (m : Prog World A)
  (k : A -> Prog World B) :
  keepsFrom P m -> (forall a, keepsFrom P (k a)) -> keepsFrom P (bind m k).
Proof.
  intros Hm Hk w Hw. unfold bind. specialize (Hm w Hw).
  destruct (m w) as [[a | msg |] w']; simpl in *; try exact Hm.
  rewrite Hk; [exact Hm |]. rewrite Hm. exact Hw.
Qed.

Lemma keeps_forEach {A B : Type} (l : list B) (body : A -> B -> Prog World A) :
  (forall acc v, keeps (body acc v)) -> forall acc, keeps (forEach l body acc).
Proof.
  intros Hbody. induction l as [| v rest IH]; intros acc; simpl.
  - apply keeps_ret.
  - apply keeps_bind; [apply Hbody | exact IH].
Qed.

Create HintDb frame discriminated.

#[local] Hint Resolve keeps_ret keeps_panic keeps_this keeps_liftOutcome
  keeps_liftRand : frame.

(** Going through a program statement by statement. *)
Ltac frame :=
  repeat first
    [ solve [auto with frame]
    | apply keeps_bind; [| intros ?]
    | apply keeps_forEach; intros ? ?
    | match goal with
      | |- keeps (if ?b then _ else _) => destruct b
      | |- keeps (match ?x with _ => _ end) => destruct x
      | |- keeps (let '(_, _) := ?x in _) => destruct x
      end ].

Lemma keeps_face : keeps face.
Proof. unfold face. frame. Qed.

Lemma keeps_randomBetween (min max : float) : keeps (randomBetween min max).
Proof. unfold randomBetween. frame. Qed.

Lemma keeps_codeLength : keeps codeLength.
Proof. unfold codeLength. frame. Qed.

Lemma keeps_Captcha_randomString : keeps Captcha_randomString.
Proof. unfold Captcha_randomString. pose proof keeps_codeLength. frame. Qed.

#[local] Hint Resolve keeps_face keeps_randomBetween keeps_Captcha_randomString : frame.

Lemma keeps_scaleChar (src : image.RGBA) : keeps (scaleChar src).
Proof. unfold scaleChar, scaleBy. frame. Qed.

Lemma keeps_distortChar (src : image.RGBA) : keeps (distortChar src).
Proof. unfold distortChar, distortBy. frame. Qed.

Lemma keeps_rotateChar (src : image.RGBA) : keeps (rotateChar src).
Proof. unfold rotateChar, rotateBy. frame. Qed.

Lemma keeps_cut (canvas : image.RGBA) : keeps (cut canvas).
Proof. unfold cut. frame. Qed.

#[local] Hint Resolve keeps_scaleChar keeps_distortChar keeps_rotateChar keeps_cut : frame.

Lemma keeps_drawChar (char : Z) : keeps (drawChar char).
Proof. unfold drawChar. frame. Qed.

#[local] Hint Resolve keeps_drawChar : frame.

Lemma keeps_drawString (code : string) : keeps (drawString code).
Proof. unfold drawString, drawString_char. frame. Qed.

Lemma keeps_drawStraightLine (fuel : nat) (img : image.RGBA) :
  keeps (drawStraightLine fuel img).
Proof. unfold drawStraightLine. frame. Qed.

Lemma keeps_drawCurveLine (img : image.RGBA) : keeps (drawCurveLine img).
Proof. unfold drawCurveLine. frame. Qed.

Lemma keeps_lineCount : keeps lineCount.
Proof. unfold lineCount. frame. Qed.

#[local] Hint Resolve keeps_drawString keeps_drawStraightLine keeps_drawCurveLine
  keeps_lineCount : frame.

Lemma keeps_drawLines (fuel : nat) (src : image.RGBA) : keeps (drawLines fuel src).
Proof. unfold drawLines, drawLines_line. frame. Qed.

#[local] Hint Resolve keeps_drawLines : frame.

Lemma keepsFrom_drawNoise (src : image.RGBA) :
  keepsFrom noiseAtMostOne (drawNoise src).
Proof.
  intros w Hw. unfold drawNoise.
  unfold bind at 1. unfold this at 1.
  destruct (PrimFloat.eqb (noiseLevel (recv w)) 0); [reflexivity |].
  unfold noiseAtMostOne in Hw. rewrite Hw.
  (* the test fails: what remains assigns nothing *)
  assert (H : keeps (ret tt ;;;
                     c <- this ;;
                     dst <- liftOutcome (image.NewRGBA (image.Bounds src)) ;;
                     forEach
                       (seq 0 (Z.to_nat
                          (int_of_float64
                             (float64_of_int
                                (GoInt.mul (image.Dx (image.Bounds src))
                                           (image.Dy (image.Bounds src)))
                              * noiseLevel c))))
                       (drawNoise_dot src)
                       (draw_Draw dst (image.Bounds dst) (ofImage src) (image.Pt 0 0) Src))).
  { unfold drawNoise_dot. frame. }
  apply H.
Qed.

Lemma keepsFrom_Generate (fuel : nat) : keepsFrom noiseAtMostOne (Generate fuel).
Proof.
  unfold Generate.
  repeat match goal with
         | |- keepsFrom _ (bind _ _) =>
             apply keepsFrom_bind;
             [first [ apply keepsFrom_drawNoise
                    | apply keeps_keepsFrom; solve [auto with frame] ]
             | intros ? ]
         end.
  apply keeps_keepsFrom. apply keeps_ret.
Qed.

End Frame.

(** ** The code string *)

Section CodeString.

Context {L : Library}.

Lemma liftRand_run {A : Type} (m : Prog Rand A) (w : World) (o : Outcome A) (r' : Rand) :
  m (rnd w) = (o, r') -> liftRand m w = (o, mkWorld (recv w) r').
Proof. intros H. unfold liftRand. rewrite H. reflexivity. Qed.

Lemma validated_facts (c : Captcha) :
  Validated c ->
  0 < width c /\ 0 < height c /\ 0 < len (charSet c)
  /\ 0 <= minLength c <= maxLength c
  /\ 0 <= minLines c <= maxLines c
  /\ PrimFloat.ltb 1 (noiseLevel c) = false.
Proof.
  intros H. apply validated_iff in H.
  unfold InvalidParameters, BadIntRange, flt in H.
  assert (Hset : charSet c <> EmptyString) by tauto.
  repeat split; try lia.
  - destruct (charSet c); [congruence | unfold len; simpl; lia].
  - destruct (PrimFloat.ltb 1 (noiseLevel c)); [tauto | reflexivity].
Qed.









End CodeString.

(** ** The number of lines *)

Section Lines.

Context {L : Library}.

Lemma lineCount_fixed (c : Captcha) (r : Rand) :
  minLines c = maxLines c ->
  lineCount (mkWorld c r) = (Returned (minLines c), mkWorld c r).
Proof.
  intros H. unfold lineCount.
  rewrite (bind_returned this _ (mkWorld c r) (mkWorld c r) c eq_refl).
  rewrite H, Z.eqb_refl. reflexivity.
Qed.

(** With [minLines < maxLines] the count is [minLines] plus one draw of
    [rand.IntN(maxLines-minLines)]: a value of [[minLines, maxLines-1]]. *)
Lemma lineCount_drawn (c : Captcha) (r : Rand) :
  WellTyped c -> 0 <= minLines c < maxLines c ->
  lineCount (mkWorld c r)
  = (Returned (minLines c + nthIntN r 0 (maxLines c - minLines c)),
     mkWorld c (mkRand (tape r) (S (cursor r))))
  /\ minLines c <= minLines c + nthIntN r 0 (maxLines c - minLines c) <= maxLines c - 1.
Proof.
  intros (_ & _ & _ & _ & Hmin & Hmax) H. int_bounds.
  pose proof (nthIntN_range r 0 (maxLines c - minLines c) ltac:(lia)) as Hv.
  split; [| lia].
  unfold lineCount.
  rewrite (bind_returned this _ (mkWorld c r) (mkWorld c r) c eq_refl).
  destruct (Z.eqb_spec (minLines c) (maxLines c)); [lia |].
  unfold GoInt.add, GoInt.sub. unwrap.
  rewrite (bind_returned _ _ _ _ _
             (liftRand_run _ (mkWorld c r) _ _
                (rand_IntN_run (maxLines c - minLines c) r ltac:(lia)))).
  unfold ret. cbn [recv]. f_equal. f_equal. unwrap. lia.
Qed.

(** With [minLines = maxLines = 0] the image is returned as it is and the
    random source is not used. *)
Lemma drawLines_none (fuel : nat) (c : Captcha) (r : Rand) (src : image.RGBA) :
  minLines c = 0 -> maxLines c = 0 ->
  drawLines fuel src (mkWorld c r) = (Returned src, mkWorld c r).
Proof.
  intros Hmin Hmax. unfold drawLines.
  rewrite (bind_returned this _ (mkWorld c r) (mkWorld c r) c eq_refl).
  rewrite Hmin, Hmax. reflexivity.
Qed.

(** The loop of [drawLines] runs [lineCnt] times, drawing one line each
    time. *)
Lemma drawLines_some (fuel : nat) (c : Captcha) (r r1 : Rand) (src : image.RGBA)
  (lineCnt : Z) :
  ~ (minLines c = maxLines c /\ minLines c = 0) ->
  lineCount (mkWorld c r) = (Returned lineCnt, mkWorld c r1) ->
  drawLines fuel src (mkWorld c r)
  = (dst <- liftOutcome (image.NewRGBA (image.Bounds src)) ;;
     forEach (seq 0 (Z.to_nat lineCnt)) (drawLines_line fuel)
       (draw_Draw dst (image.Bounds dst) (ofImage src) (image.Pt 0 0) Src))
      (mkWorld c r1).
Proof.
  intros Hsome Hcnt. unfold drawLines.
  rewrite (bind_returned this _ (mkWorld c r) (mkWorld c r) c eq_refl).
  destruct (Z.eqb_spec (minLines c) (maxLines c)) as [E1 | E1];
    destruct (Z.eqb_spec (minLines c) 0) as [E2 | E2]; simpl;
    try (exfalso; apply Hsome; split; assumption);
    rewrite (bind_returned _ _ _ _ _ Hcnt); reflexivity.
Qed.

(** C2, on the code.  With the default range [[3,7]] the number of lines
    is 3 plus a draw of [rand.IntN(4)]: one of 3, 4, 5, 6, and never
    [maxLines = 7]. *)
Theorem lineCount_excludes_maxLines (r : Rand) :
  minLines defaults = 3 /\ maxLines defaults = 7
  /\ lineCount (mkWorld defaults r)
     = (Returned (3 + nthIntN r 0 4), mkWorld defaults (mkRand (tape r) (S (cursor r))))
  /\ 3 <= 3 + nthIntN r 0 4 <= 6.
Proof.
  split; [reflexivity |]. split; [reflexivity |].
  assert (Hty : WellTyped defaults).
  { unfold WellTyped. simpl. int_bounds. lia. }
  destruct (lineCount_drawn defaults r Hty) as [Hrun Hrange].
  { simpl. lia. }
  simpl in Hrun, Hrange. split; [exact Hrun | exact Hrange].
Qed.

End Lines.

(** ** The glyph transforms on neutral ranges *)

Section Transforms.

Context {L : Library}.

Lemma this_run (c : Captcha) (r : Rand) {B : Type} (k : Captcha -> Prog World B) :
  bind this k (mkWorld c r) = k c (mkWorld c r).
Proof. reflexivity. Qed.

(** C8.  When the scale range is the single value 1, the distortion range
    the single value 0 and the rotation range the single value 0, each of
    [scaleChar], [distortChar] and [rotateChar] returns the image it is
    given; the random source is not used and no function of the
    resampling or drawing packages is called. *)
Theorem neutral_transforms_return_their_input
  (c : Captcha) (r : Rand) (src : image.RGBA) :
  PrimFloat.eqb (minScale c) (maxScale c) = true ->
  PrimFloat.eqb (minScale c) 1 = true ->
  PrimFloat.eqb (minDistortion c) (maxDistortion c) = true ->
  PrimFloat.eqb (minDistortion c) 0 = true ->
  PrimFloat.eqb (minRotation c) (maxRotation c) = true ->
  PrimFloat.eqb (minRotation c) 0 = true ->
  scaleChar src (mkWorld c r) = (Returned src, mkWorld c r)
  /\ distortChar src (mkWorld c r) = (Returned src, mkWorld c r)
  /\ rotateChar src (mkWorld c r) = (Returned src, mkWorld c r).
Proof.
  intros Hs Hs1 Hd Hd0 Hr Hr0.
  unfold scaleChar, distortChar, rotateChar.
  rewrite !this_run, Hs, Hs1, Hd, Hd0, Hr, Hr0.
  repeat split.
Qed.

End Transforms.

(** ** The configuration across a call of [Generate] *)

Section Configuration.

Context {L : Library}.

Lemma validate_setFontFace (face : Face) (c : Captcha) :
  validate (setFontFace face c) = validate c.
Proof. reflexivity. Qed.

(** C10.  A [Captcha] made by [New] is the same after a call of
    [Generate] as before, whatever the outcome of the call; so is it
    after a call of [drawNoise] alone, and after a second call of
    [Generate]. *)
Theorem Generate_leaves_configuration_unchanged (opts : list Option) (c : Captcha) :
  New opts = Ok c ->
  forall (fuel fuel' : nat) (r : Rand) (src : image.RGBA),
    recv (snd (Generate fuel (mkWorld c r))) = c
    /\ recv (snd (drawNoise src (mkWorld c r))) = c
    /\ recv (snd (Generate fuel' (snd (Generate fuel (mkWorld c r))))) = c.
Proof.
  intros Hnew fuel fuel' r src.
  assert (Hnoise : noiseAtMostOne c).
  { unfold New in Hnew.
    destruct (validate (fold_left (fun c opt => opt c) opts defaults)) eqn:Hval;
      [discriminate |].
    destruct (loadFace _) as [face |]; [| discriminate].
    injection Hnew as <-.
    apply (validated_facts _ Hval). }
  pose proof (keepsFrom_Generate fuel (mkWorld c r) Hnoise) as H1.
  split; [exact H1 |]. split.
  - apply (keepsFrom_drawNoise src (mkWorld c r) Hnoise).
  - rewrite (keepsFrom_Generate fuel' (snd (Generate fuel (mkWorld c r)))).
    + exact H1.
    + rewrite H1. exact Hnoise.
Qed.

End Configuration.

(** ** Pixels written by a sequence of [Set] calls *)

Lemma In_Rect_canvas (w h x y : Z) :
  0 <= w -> 0 <= h ->
  image.In (image.Pt x y) (image.Rect 0 0 w h) = true <-> inCanvas w h (x, y).
Proof.
  intros Hw Hh. unfold image.Rect, image.In, inCanvas.
  destruct (Z.gtb_spec 0 w); [lia |]. destruct (Z.gtb_spec 0 h); [lia |].
  simpl. rewrite !andb_true_iff, !Z.leb_le, !Z.ltb_lt. tauto.
Qed.

Lemma Bounds_Set (img : image.RGBA) (x y : Z) (c : color.Color) :
  image.Bounds (image.Set_ img x y c) = image.Bounds img.
Proof. unfold image.Set_. destruct (image.In _ _); reflexivity. Qed.

Lemma RGBAAt_Set_same (img : image.RGBA) (x y : Z) (c : color.Color) :
  image.In (image.Pt x y) (image.Bounds img) = true ->
  image.RGBAAt (image.Set_ img x y c) x y = color.rgbaModel c.
Proof.
  intros H. unfold image.RGBAAt, image.Set_. rewrite H. simpl. rewrite H.
  rewrite !Z.eqb_refl. reflexivity.
Qed.

Lemma RGBAAt_Set_other (img : image.RGBA) (x y x' y' : Z) (c : color.Color) :
  (x', y') <> (x, y) ->
  image.RGBAAt (image.Set_ img x y c) x' y' = image.RGBAAt img x' y'.
Proof.
  intros H. unfold image.RGBAAt, image.Set_.
  destruct (image.In (image.Pt x y) (image.Bounds img)); [| reflexivity].
  simpl. destruct (image.In (image.Pt x' y') (image.Bounds img)); [| reflexivity].
  destruct (Z.eqb_spec x' x); destruct (Z.eqb_spec y' y); simpl; congruence.
Qed.

Lemma plot_cons (lineColor : color.RGBA) (img : image.RGBA) (p : Z * Z)
  (rest : list (Z * Z)) :
  plot lineColor img (p :: rest)
  = plot lineColor (image.Set_ img (fst p) (snd p) (color.ofRGBA lineColor)) rest.
Proof. reflexivity. Qed.

Lemma Bounds_plot (lineColor : color.RGBA) (path : list (Z * Z)) (img : image.RGBA) :
  image.Bounds (plot lineColor img path) = image.Bounds img.
Proof.
  revert img. induction path as [| p rest IH]; intros img; [reflexivity |].
  rewrite plot_cons, IH. apply Bounds_Set.
Qed.

(** A pixel that no call addresses keeps its color. *)
Lemma plot_elsewhere (lineColor : color.RGBA) (path : list (Z * Z)) (img : image.RGBA)
  (x y : Z) :
  ~ In (x, y) path ->
  image.RGBAAt (plot lineColor img path) x y = image.RGBAAt img x y.
Proof.
  revert img. induction path as [| p rest IH]; intros img Hnot; [reflexivity |].
  rewrite plot_cons, IH.
  - apply RGBAAt_Set_other. intros E. apply Hnot. left.
    destruct p. simpl in E. congruence.
  - intros Hin. apply Hnot. right. exact Hin.
Qed.

(** A pixel of the image that a call addresses has the line color. *)
Lemma plot_on_path (lineColor : color.RGBA) (path : list (Z * Z)) (img : image.RGBA)
  (x y : Z) :
  image.In (image.Pt x y) (image.Bounds img) = true ->
  In (x, y) path \/ image.RGBAAt img x y = lineColor ->
  image.RGBAAt (plot lineColor img path) x y = lineColor.
Proof.
  revert img. induction path as [| p rest IH]; intros img Hin H.
  - destruct H as [[] | H]. exact H.
  - rewrite plot_cons. apply IH.
    + rewrite Bounds_Set. exact Hin.
    + destruct p as [px py]. simpl.
      destruct (Z.eq_dec px x) as [-> | Hx].
      * destruct (Z.eq_dec py y) as [-> | Hy].
        -- right. rewrite RGBAAt_Set_same by exact Hin. reflexivity.
        -- destruct H as [[E | H] | H]; [congruence | left; exact H |].
           right. rewrite RGBAAt_Set_other by congruence. exact H.
      * destruct H as [[E | H] | H]; [congruence | left; exact H |].
        right. rewrite RGBAAt_Set_other by congruence. exact H.
Qed.

(** ** The straight line *)

Lemma bresenham_plot (lineColor : color.RGBA) (x2 y2 dx dy sx sy : Z) (fuel : nat) :
  forall (img : image.RGBA) (x1 y1 err : Z),
    bresenham fuel lineColor x2 y2 dx dy sx sy img x1 y1 err
    = match bresenhamPath fuel x2 y2 dx dy sx sy x1 y1 err with
      | Some path => Returned (plot lineColor img path)
      | None => OutOfFuel
      end.
Proof.
  induction fuel as [| fuel IH]; intros img x1 y1 err; [reflexivity |].
  cbn [bresenham bresenhamPath].
  destruct ((x1 =? x2) && (y1 =? y2)); [reflexivity |].
  destruct (GoInt.mul 2 err >? GoInt.neg dy);
    destruct (GoInt.mul 2 err <? dx); rewrite IH;
    match goal with
    | |- context [bresenhamPath ?f ?a ?b ?c ?d ?e ?g ?h ?i ?j] =>
        destruct (bresenhamPath f a b c d e g h i j); reflexivity
    end.
Qed.

Lemma straightLine_plot (fuel : nat) (lineColor : color.RGBA) (img : image.RGBA)
  (x1 y1 x2 y2 : Z) :
  straightLine fuel lineColor img x1 y1 x2 y2
  = match straightLinePath fuel x1 y1 x2 y2 with
    | Some path => Returned (plot lineColor img path)
    | None => OutOfFuel
    end.
Proof. unfold straightLine, straightLinePath. apply bresenham_plot. Qed.

Lemma errAt_x (dx dy a b : Z) : errAt dx dy (a + 1) b = errAt dx dy a b - dy.
Proof. unfold errAt. ring. Qed.

Lemma errAt_y (dx dy a b : Z) : errAt dx dy a (b + 1) = errAt dx dy a b + dx.
Proof. unfold errAt. ring. Qed.

(** Before the end point is reached the loop moves, and it moves along an
    axis only while the end point is not reached on that axis. *)
Lemma bresenham_progress (dx dy a b : Z) :
  0 <= a <= dx -> 0 <= b <= dy -> a < dx \/ b < dy ->
  (2 * errAt dx dy a b > - dy -> a < dx)
  /\ (2 * errAt dx dy a b < dx -> b < dy)
  /\ (2 * errAt dx dy a b > - dy \/ 2 * errAt dx dy a b < dx).
Proof.
  intros Ha Hb Hnot. unfold errAt. repeat split.
  - intros H. destruct (Z.eq_dec a dx) as [-> | Hne]; [| lia].
    exfalso. assert (b + 1 <= dy) by lia. nia.
  - intros H. destruct (Z.eq_dec b dy) as [-> | Hne]; [| lia].
    exfalso. assert (a + 1 <= dx) by lia. nia.
  - destruct (Z_gt_le_dec (2 * ((b + 1) * dx - (a + 1) * dy)) (- dy)) as [H | H];
      [left; exact H |].
    right. destruct (Z_lt_le_dec (2 * ((b + 1) * dx - (a + 1) * dy)) dx) as [H' | H'];
      [exact H' |].
    exfalso. lia.
Qed.

Lemma PathFrom_end (x0 y0 sx sy dx dy : Z) :
  0 <= dx -> 0 <= dy ->
  PathFrom x0 y0 sx sy dx dy dx dy [lineAt x0 y0 sx sy dx dy].
Proof.
  intros Hdx Hdy. unfold PathFrom. repeat split.
  - constructor; [intros [] | constructor].
  - constructor; [| constructor]. exists dx, dy. repeat split; lia.
Qed.

Lemma PathFrom_cons (x0 y0 sx sy dx dy a b a1 b1 : Z) (path : list (Z * Z)) :
  (sx = 1 \/ sx = -1) -> (sy = 1 \/ sy = -1) ->
  0 <= a <= dx -> 0 <= b <= dy ->
  a <= a1 <= a + 1 -> b <= b1 <= b + 1 -> a + b < a1 + b1 ->
  PathFrom x0 y0 sx sy dx dy a1 b1 path ->
  PathFrom x0 y0 sx sy dx dy a b (lineAt x0 y0 sx sy a b :: path).
Proof.
  intros Hsx Hsy Ha Hb Ha1 Hb1 Hmove (Hhd & Hlast & Hnodup & Hchain & Hall).
  destruct path as [| q rest]; [discriminate |].
  injection Hhd as ->.
  unfold PathFrom. repeat split.
  - exact Hlast.
  - constructor; [| exact Hnodup].
    intros Hin. rewrite Forall_forall in Hall.
    destruct (Hall _ Hin) as (a' & b' & Ha' & Hb' & E).
    unfold lineAt in E. injection E as Ex Ey.
    destruct Hsx as [-> | ->], Hsy as [-> | ->]; lia.
  - unfold lineAt. simpl. destruct Hsx as [-> | ->]; lia.
  - unfold lineAt. simpl. destruct Hsy as [-> | ->]; lia.
  - unfold lineAt. intros E. injection E as Ex Ey.
    destruct Hsx as [-> | ->], Hsy as [-> | ->]; lia.
  - exact Hchain.
  - constructor.
    + exists a, b. repeat split; lia.
    + eapply Forall_impl; [| exact Hall].
      intros p (a' & b' & Ha' & Hb' & E). exists a', b'. repeat split; try lia.
      exact E.
Qed.

(** The loop from the state [(a, b)]: with fuel for the steps that remain
    it ends, and the points drawn run from the pixel of the state to the
    end point. *)
Lemma bresenhamPath_from (x0 y0 sx sy dx dy : Z) :
  (sx = 1 \/ sx = -1) -> (sy = 1 \/ sy = -1) ->
  0 <= dx <= 2 ^ 61 -> 0 <= dy <= 2 ^ 61 ->
  - 2 ^ 61 <= x0 <= 2 ^ 61 -> - 2 ^ 61 <= y0 <= 2 ^ 61 ->
  forall (fuel : nat) (a b : Z),
    0 <= a <= dx -> 0 <= b <= dy ->
    - 3 * dy <= 2 * errAt dx dy a b <= 3 * dx ->
    (Z.to_nat (dx - a + (dy - b)) < fuel)%nat ->
    exists path,
      bresenhamPath fuel (x0 + sx * dx) (y0 + sy * dy) dx dy sx sy
                    (x0 + sx * a) (y0 + sy * b) (errAt dx dy a b)
      = Some path
      /\ PathFrom x0 y0 sx sy dx dy a b path.
Proof.
  intros Hsx Hsy Hdx Hdy Hx0 Hy0 fuel.
  induction fuel as [| fuel IH]; intros a b Ha Hb Herr Hfuel; [lia |].
  cbn [bresenhamPath].
  assert (Hend : (a = dx /\ b = dy) \/ (a < dx \/ b < dy)) by lia.
  destruct Hend as [[-> ->] | Hnot].
  { rewrite !Z.eqb_refl. simpl.
    eexists. split; [reflexivity |]. apply PathFrom_end; lia. }
  assert (Hcont : ((x0 + sx * a =? x0 + sx * dx) && (y0 + sy * b =? y0 + sy * dy))
                  = false).
  { apply andb_false_iff.
    destruct Hnot as [Hlt | Hlt]; [left | right]; apply Z.eqb_neq.
    - destruct Hsx as [-> | ->]; lia.
    - destruct Hsy as [-> | ->]; lia. }
  rewrite Hcont. clear Hcont.
  destruct (bresenham_progress dx dy a b Ha Hb Hnot) as (Px & Py & Pxy).
  assert (Hxa : - 2 ^ 61 <= sx * a <= 2 ^ 61 /\ -1 <= sx <= 1)
    by (destruct Hsx as [-> | ->]; lia).
  assert (Hyb : - 2 ^ 61 <= sy * b <= 2 ^ 61 /\ -1 <= sy <= 1)
    by (destruct Hsy as [-> | ->]; lia).
  remember (errAt dx dy a b) as E eqn:HE.
  assert (Ex : errAt dx dy (a + 1) b = E - dy) by (rewrite HE; apply errAt_x).
  assert (Ey : errAt dx dy a (b + 1) = E + dx) by (rewrite HE; apply errAt_y).
  assert (Exy : errAt dx dy (a + 1) (b + 1) = E - dy + dx)
    by (rewrite HE, errAt_y, errAt_x; reflexivity).
  unfold GoInt.mul, GoInt.neg, GoInt.sub, GoInt.add.
  rewrite (wrap_id (2 * E)), (wrap_id (- dy))
    by (apply in_range_bounds; lia).
  destruct (Z.gtb_spec (2 * E) (- dy)) as [Gx | Gx];
    destruct (Z.ltb_spec (2 * E) dx) as [Gy | Gy];
    cbv beta iota zeta; unwrap.
  - (* a step along both axes *)
    replace (x0 + sx * a + sx) with (x0 + sx * (a + 1)) by ring.
    replace (y0 + sy * b + sy) with (y0 + sy * (b + 1)) by ring.
    rewrite <- Exy.
    destruct (IH (a + 1) (b + 1)) as [path [Hrun Hpath]];
      [lia | lia | rewrite Exy; lia | lia |].
    rewrite Hrun. eexists. split; [reflexivity |].
    apply (PathFrom_cons x0 y0 sx sy dx dy a b (a + 1) (b + 1)); auto; lia.
  - (* a step along x *)
    replace (x0 + sx * a + sx) with (x0 + sx * (a + 1)) by ring.
    rewrite <- Ex.
    destruct (IH (a + 1) b) as [path [Hrun Hpath]];
      [lia | lia | rewrite Ex; lia | lia |].
    rewrite Hrun. eexists. split; [reflexivity |].
    apply (PathFrom_cons x0 y0 sx sy dx dy a b (a + 1) b); auto; lia.
  - (* a step along y *)
    replace (y0 + sy * b + sy) with (y0 + sy * (b + 1)) by ring.
    rewrite <- Ey.
    destruct (IH a (b + 1)) as [path [Hrun Hpath]];
      [lia | lia | rewrite Ey; lia | lia |].
    rewrite Hrun. eexists. split; [reflexivity |].
    apply (PathFrom_cons x0 y0 sx sy dx dy a b a (b + 1)); auto; lia.
  - (* no step: excluded *)
    exfalso. lia.
Qed.

Lemma abs_in_range (z : Z) : - 2 ^ 62 <= z <= 2 ^ 62 -> abs z = Z.abs z.
Proof.
  intros H. unfold abs, GoInt.neg.
  destruct (Z.ltb_spec z 0); [unwrap |]; lia.
Qed.

(** A canvas that [image.NewRGBA] accepts and that has a pixel is at most
    [2^61] wide and high. *)
Lemma canvas_sides (w h : Z) :
  4 * w * h <= GoInt.max_int -> 0 < w -> 0 < h -> w <= 2 ^ 61 /\ h <= 2 ^ 61.
Proof. unfold GoInt.max_int. intros H Hw Hh. split; nia. Qed.

(** C5, as the code has it.  For two end points within a canvas the loop
    of [drawStraightLine] ends; the pixels it sets form a path from the
    first end point to the second in which consecutive pixels differ by at
    most one in each axis (possibly in both: the path is 8-connected), no
    pixel is set twice, every pixel lies in the canvas, and the image is
    changed at the pixels of the path and nowhere else. *)
Theorem straightLine_draws_eight_connected_path
  (fuel : nat) (lineColor : color.RGBA) (img : image.RGBA) (w h x1 y1 x2 y2 : Z) :
  image.Bounds img = image.Rect 0 0 w h ->
  4 * w * h <= GoInt.max_int ->
  inCanvas w h (x1, y1) -> inCanvas w h (x2, y2) ->
  (Z.to_nat (Z.abs (x2 - x1) + Z.abs (y2 - y1)) < fuel)%nat ->
  exists path,
    straightLinePath fuel x1 y1 x2 y2 = Some path
    /\ straightLine fuel lineColor img x1 y1 x2 y2 = Returned (plot lineColor img path)
    /\ hd_error path = Some (x1, y1)
    /\ last path (0, 0) = (x2, y2)
    /\ NoDup path
    /\ EightConnected path
    /\ Forall (inCanvas w h) path
    /\ (forall x y, In (x, y) path ->
                    image.RGBAAt (plot lineColor img path) x y = lineColor)
    /\ (forall x y, ~ In (x, y) path ->
                    image.RGBAAt (plot lineColor img path) x y = image.RGBAAt img x y).
Proof.
  intros Hbounds Hsize [Hx1 Hy1] [Hx2 Hy2] Hfuel. simpl in Hx1, Hy1, Hx2, Hy2.
  destruct (canvas_sides w h Hsize ltac:(lia) ltac:(lia)) as [Hw Hh].
  set (sx := if x1 <? x2 then 1 else -1).
  set (sy := if y1 <? y2 then 1 else -1).
  assert (Hsx : sx = 1 \/ sx = -1) by (unfold sx; destruct (x1 <? x2); auto).
  assert (Hsy : sy = 1 \/ sy = -1) by (unfold sy; destruct (y1 <? y2); auto).
  assert (Ex : x2 = x1 + sx * Z.abs (x2 - x1))
    by (unfold sx; destruct (Z.ltb_spec x1 x2); lia).
  assert (Ey : y2 = y1 + sy * Z.abs (y2 - y1))
    by (unfold sy; destruct (Z.ltb_spec y1 y2); lia).
  destruct (bresenhamPath_from x1 y1 sx sy (Z.abs (x2 - x1)) (Z.abs (y2 - y1))
              Hsx Hsy ltac:(lia) ltac:(lia) ltac:(lia) ltac:(lia)
              fuel 0 0 ltac:(lia) ltac:(lia))
    as [path [Hrun (Hhd & Hlast & Hnodup & Hchain & Hall)]].
  { unfold errAt. lia. }
  { rewrite !Z.sub_0_r. exact Hfuel. }
  unfold lineAt in Hhd, Hlast. rewrite <- Ex, <- Ey in Hrun, Hlast.
  rewrite !Z.mul_0_r, !Z.add_0_r in Hrun, Hhd.
  assert (Hpath : straightLinePath fuel x1 y1 x2 y2 = Some path).
  { unfold straightLinePath, GoInt.sub. unwrap.
    rewrite !abs_in_range by lia. unwrap.
    fold sx sy. unfold errAt in Hrun.
    replace ((0 + 1) * Z.abs (x2 - x1) - (0 + 1) * Z.abs (y2 - y1))
      with (Z.abs (x2 - x1) - Z.abs (y2 - y1)) in Hrun by ring.
    exact Hrun. }
  assert (Hin : Forall (inCanvas w h) path).
  { eapply Forall_impl; [| exact Hall].
    intros p (a' & b' & Ha' & Hb' & ->). unfold lineAt, inCanvas. simpl.
    unfold sx, sy. destruct (Z.ltb_spec x1 x2); destruct (Z.ltb_spec y1 y2); lia. }
  exists path. split; [exact Hpath |]. split.
  { rewrite straightLine_plot, Hpath. reflexivity. }
  repeat split; try assumption.
  - intros x y Hxy. apply plot_on_path; [| left; exact Hxy].
    rewrite Hbounds. apply In_Rect_canvas; [lia | lia |].
    rewrite Forall_forall in Hin. apply (Hin _ Hxy).
  - intros x y Hxy. apply plot_elsewhere. exact Hxy.
Qed.

(** The line from [(0,0)] to [(1,1)] is two pixels that differ in both
    axes: the path is not 4-connected. *)
Lemma straightLine_diagonal_not_four_connected :
  straightLinePath 3 0 0 1 1 = Some [(0, 0); (1, 1)]
  /\ ~ FourConnected [(0, 0); (1, 1)].
Proof.
  split; [vm_compute; reflexivity |].
  intros [H _]. unfold Adjacent4 in H. simpl in H. discriminate.
Qed.

(** ** The curved line *)




(** A loop that sets a pixel for the elements that pass a test sets the
    pixels of the elements that pass it. *)
Lemma fold_left_plot {A : Type} (lineColor : color.RGBA) (point : A -> Z * Z)
  (test : Z * Z -> bool) (l : list A) :
  forall img,
    fold_left (fun img s =>
                 if test (point s)
                 then image.Set_ img (fst (point s)) (snd (point s)) (color.ofRGBA lineColor)
                 else img) l img
    = plot lineColor img (filter test (map point l)).
Proof.
  induction l as [| s rest IH]; intros img; [reflexivity |].
  cbn [fold_left map filter]. rewrite IH.
  destruct (test (point s)); reflexivity.
Qed.

Lemma fold_left_pointwise {A B : Type} (f g : A -> B -> A) (l : list B) :
  (forall a b, f a b = g a b) -> forall a, fold_left f l a = fold_left g l a.
Proof.
  intros H. induction l as [| b rest IH]; intros a; [reflexivity |].
  simpl. rewrite H. apply IH.
Qed.

Lemma curveLine_plot (lineColor : color.RGBA) (img : image.RGBA)
  (x1 y1 x2 y2 ctrlX ctrlY : Z) :
  curveLine lineColor img x1 y1 x2 y2 ctrlX ctrlY
  = plot lineColor img
      (filter (inCanvasb (image.Dx (image.Bounds img)) (image.Dy (image.Bounds img)))
              (curveSamples x1 y1 x2 y2 ctrlX ctrlY)).
Proof.
  unfold curveLine, curveSamples.
  rewrite <- (fold_left_plot lineColor (curvePoint x1 y1 x2 y2 ctrlX ctrlY)).
  apply fold_left_pointwise. intros img' step. unfold curveStep, inCanvasb.
  destruct (curvePoint x1 y1 x2 y2 ctrlX ctrlY step) as [finalX finalY].
  reflexivity.
Qed.

Lemma Dx_Rect_canvas (w h : Z) :
  0 <= w <= GoInt.max_int -> 0 <= h <= GoInt.max_int ->
  image.Dx (image.Rect 0 0 w h) = w /\ image.Dy (image.Rect 0 0 w h) = h.
Proof.
  intros Hw Hh. unfold image.Rect, image.Dx, image.Dy, GoInt.sub.
  destruct (Z.gtb_spec 0 w); [lia |]. destruct (Z.gtb_spec 0 h); [lia |].
  simpl. unwrap. lia.
Qed.


(** The double interpolation is not the closed form: from [0] to [0] with
    the control point at [100], the sample at [t = 1/2] is at [25], where
    the quadratic Bezier curve is at [50]. *)
Lemma doubleLerp_is_not_the_closed_form :
  curveParameter 60 = 0.5%float
  /\ doubleLerp 0 0 100 (curveParameter 60) = 25
  /\ bezierClosedForm 0 0 100 (curveParameter 60) = 50.
Proof. vm_compute. repeat split. Qed.

(** ** Loops over the pixels of a canvas *)

Lemma in_rowMajor (xs ys : list Z) (x y : Z) :
  In (x, y) (rowMajor xs ys) <-> In x xs /\ In y ys.
Proof.
  unfold rowMajor. rewrite in_flat_map. split.
  - intros [y' [Hy Hin]]. apply in_map_iff in Hin.
    destruct Hin as [x' [E Hx]]. injection E as -> ->. tauto.
  - intros [Hx Hy]. exists y. split; [exact Hy |].
    apply in_map_iff. exists x. tauto.
Qed.

(** Two nested loops are one loop over the pixels in row-major order. *)
Lemma fold_left_rows {A : Type} (body : Z -> A -> Z -> A) (xs ys : list Z) :
  forall acc,
    fold_left (fun acc y => fold_left (body y) xs acc) ys acc
    = fold_left (fun acc p => body (snd p) acc (fst p)) (rowMajor xs ys) acc.
Proof.
  induction ys as [| y rest IH]; intros acc; [reflexivity |].
  unfold rowMajor in *. cbn [fold_left flat_map].
  rewrite fold_left_app, <- IH. f_equal.
  clear. revert acc. induction xs as [| x xs IH]; intros acc; [reflexivity |].
  simpl. apply IH.
Qed.

Lemma paint_cons (colorAt : Z * Z -> option color.Color) (p : Z * Z)
  (rest : list (Z * Z)) (img : image.RGBA) :
  paint colorAt (p :: rest) img
  = paint colorAt rest
      match colorAt p with
      | Some c => image.Set_ img (fst p) (snd p) c
      | None => img
      end.
Proof. reflexivity. Qed.

Lemma Bounds_paint (colorAt : Z * Z -> option color.Color) (l : list (Z * Z)) :
  forall img, image.Bounds (paint colorAt l img) = image.Bounds img.
Proof.
  induction l as [| p rest IH]; intros img; [reflexivity |].
  rewrite paint_cons, IH. destruct (colorAt p); [apply Bounds_Set | reflexivity].
Qed.

Lemma paint_elsewhere (colorAt : Z * Z -> option color.Color) (l : list (Z * Z))
  (x y : Z) :
  ~ In (x, y) l ->
  forall img, image.RGBAAt (paint colorAt l img) x y = image.RGBAAt img x y.
Proof.
  induction l as [| p rest IH]; intros Hnot img; [reflexivity |].
  rewrite paint_cons, IH by (intros H; apply Hnot; right; exact H).
  destruct (colorAt p); [| reflexivity].
  apply RGBAAt_Set_other. intros E. apply Hnot. left.
  destruct p. simpl in E. congruence.
Qed.

Lemma point_eq_dec (p q : Z * Z) : {p = q} + {p <> q}.
Proof. decide equality; apply Z.eq_dec. Qed.

(** A pixel of the list, inside the image: it has the color chosen for
    it, or the color it had when none is chosen. *)
Lemma paint_at (colorAt : Z * Z -> option color.Color) (l : list (Z * Z)) (x y : Z) :
  In (x, y) l ->
  forall img,
    image.In (image.Pt x y) (image.Bounds img) = true ->
    image.RGBAAt (paint colorAt l img) x y
    = match colorAt (x, y) with
      | Some c => color.rgbaModel c
      | None => image.RGBAAt img x y
      end.
Proof.
  induction l as [| p rest IH]; intros Hin img Hbounds; [destruct Hin |].
  rewrite paint_cons.
  destruct (in_dec point_eq_dec (x, y) rest) as [Hrest | Hrest].
  - rewrite (IH Hrest).
    + destruct (colorAt (x, y)) as [c |] eqn:Hc; [reflexivity |].
      destruct (point_eq_dec p (x, y)) as [-> | Hne].
      * rewrite Hc. reflexivity.
      * destruct (colorAt p); [| reflexivity].
        apply RGBAAt_Set_other. intros E. apply Hne. destruct p. simpl in E. congruence.
    + destruct (colorAt p); [rewrite Bounds_Set |]; exact Hbounds.
  - rewrite (paint_elsewhere colorAt rest x y Hrest).
    destruct Hin as [-> | Hin]; [| contradiction].
    simpl. destruct (colorAt (x, y)) as [c |]; [| reflexivity].
    apply RGBAAt_Set_same. exact Hbounds.
Qed.

(** ** The distortion *)

Section Distortion.

Context {L : Library}.

Lemma distortPixel_paint (amplitude : float) (w h : Z) (src dst : image.RGBA) (x y : Z) :
  distortPixel amplitude (float64_of_int h / 2)%float w h src y dst x
  = match distortColor amplitude w h src (x, y) with
    | Some c => image.Set_ dst x y c
    | None => dst
    end.
Proof.
  unfold distortPixel, distortColor, distortSource, inCanvasb. simpl.
  match goal with |- context [if ?b then _ else _] => destruct b end; reflexivity.
Qed.

Lemma NewRGBA_canvas (w h : Z) :
  0 <= w <= GoInt.max_int -> 0 <= h <= GoInt.max_int ->
  4 * w * h <= GoInt.max_int ->
  image.NewRGBA (image.Rect 0 0 w h)
  = Returned (image.mkRGBA (image.Rect 0 0 w h) (fun _ _ => color.transparent)).
Proof.
  intros Hw Hh Hsize. unfold image.NewRGBA.
  destruct (Dx_Rect_canvas w h Hw Hh) as [-> ->].
  destruct (Z.leb_spec 0 w); [| lia]. destruct (Z.leb_spec 0 h); [| lia].
  destruct (Z.leb_spec (4 * w * h) GoInt.max_int); [| lia]. reflexivity.
Qed.

(** The image that [distortChar] returns for a given amplitude. *)
Lemma distortBy_run (amplitude : float) (src : image.RGBA) (w h : Z) (st : World) :
  image.Bounds src = image.Rect 0 0 w h ->
  0 <= w <= GoInt.max_int -> 0 <= h <= GoInt.max_int ->
  4 * w * h <= GoInt.max_int ->
  distortBy amplitude src st
  = (Returned
       (paint (distortColor amplitude w h src) (rowMajor (zrange 0 w) (zrange 0 h))
              (image.mkRGBA (image.Rect 0 0 w h) (fun _ _ => color.transparent))),
     st).
Proof.
  intros Hbounds Hw Hh Hsize. unfold distortBy.
  rewrite Hbounds.
  destruct (Dx_Rect_canvas w h Hw Hh) as [-> ->].
  rewrite (NewRGBA_canvas w h Hw Hh Hsize).
  unfold bind, liftOutcome, ret. f_equal. f_equal.
  rewrite fold_left_rows. unfold paint.
  apply fold_left_pointwise. intros dst p.
  rewrite distortPixel_paint. destruct p. reflexivity.
Qed.

(** The pixels of the image that [distortChar] returns when it distorts. *)
Lemma distortChar_pixels
  (c : Captcha) (r : Rand) (src : image.RGBA) (w h : Z) :
  image.Bounds src = image.Rect 0 0 w h ->
  0 <= w <= GoInt.max_int -> 0 <= h <= GoInt.max_int ->
  4 * w * h <= GoInt.max_int ->
  (PrimFloat.eqb (minDistortion c) (maxDistortion c)
   && PrimFloat.eqb (minDistortion c) 0) = false ->
  let amplitude := fst (distortAmplitude c r) in
  exists dst,
    distortChar src (mkWorld c r) = (Returned dst, mkWorld c (snd (distortAmplitude c r)))
    /\ image.Bounds dst = image.Bounds src
    /\ forall x y, 0 <= x < w -> 0 <= y < h ->
         let period := (float64_of_int h / 2)%float in
         let xOfs := (amplitude * math_Sin (two_Pi * float64_of_int y / period))%float in
         let yOfs := (amplitude * math_Cos (two_Pi * float64_of_int x / period))%float in
         let nx := GoInt.add x (int_of_float64 xOfs) in
         let ny := GoInt.add y (int_of_float64 yOfs) in
         image.RGBAAt dst x y
         = if (0 <=? nx) && (nx <? w) && (0 <=? ny) && (ny <? h)
           then image.RGBAAt src nx ny
           else color.transparent.
Proof.
  intros Hbounds Hw Hh Hsize Hdistorts amplitude.
  set (blank := image.mkRGBA (image.Rect 0 0 w h) (fun _ _ => color.transparent)).
  exists (paint (distortColor amplitude w h src) (rowMajor (zrange 0 w) (zrange 0 h)) blank).
  split; [| split].
  - unfold distortChar. rewrite this_run.
    unfold amplitude, distortAmplitude.
    destruct (PrimFloat.eqb (minDistortion c) (maxDistortion c)) eqn:Heq.
    + simpl in Hdistorts. rewrite Hdistorts. simpl.
      apply (distortBy_run _ src w h); assumption.
    + unfold randomBetween.
      assert (Hdraw : liftRand rand_Float64 (mkWorld c r)
                      = (Returned (float64_of_int (fst (rand_Uint64 r) mod 2 ^ 53) / 0x1p+53)%float,
                         mkWorld c (snd (rand_Uint64 r)))).
      { unfold liftRand, rand_Float64. simpl. reflexivity. }
      unfold bind at 1. unfold bind at 1. rewrite Hdraw. unfold ret at 1.
      simpl. apply (distortBy_run _ src w h); assumption.
  - rewrite Bounds_paint, Hbounds. reflexivity.
  - intros x y Hx Hy period xOfs yOfs nx ny.
    rewrite paint_at.
    + unfold distortColor, distortSource. simpl. fold period xOfs yOfs nx ny.
      replace (inCanvasb w h (nx, ny))
        with ((0 <=? nx) && (nx <? w) && (0 <=? ny) && (ny <? h)).
      * destruct ((0 <=? nx) && (nx <? w) && (0 <=? ny) && (ny <? h)) eqn:Hin.
        -- reflexivity.
        -- unfold image.RGBAAt, blank. simpl.
           match goal with |- (if ?b then _ else _) = _ => destruct b end; reflexivity.
      * unfold inCanvasb. simpl. rewrite !Z.geb_leb. reflexivity.
    + apply in_rowMajor. rewrite !in_zrange. lia.
    + apply In_Rect_canvas; [lia | lia | split; simpl; lia].
Qed.

(** C6, as the code has it.  When [distortChar] distorts, the image it
    returns has the rectangle of the source and, for each destination
    pixel [(x, y)] of the canvas, the color of the source pixel
    [(x + int(xOfs), y + int(yOfs))] if that pixel is in the canvas and no
    color (the pixel is transparent) otherwise, where [xOfs] and [yOfs] are
    the offsets of the specification and [int] discards the fraction
    (rounds toward zero). *)
Theorem distortChar_samples_by_truncation
  (c : Captcha) (r : Rand) (src : image.RGBA) (w h : Z) :
  image.Bounds src = image.Rect 0 0 w h ->
  0 <= w <= GoInt.max_int -> 0 <= h <= GoInt.max_int ->
  4 * w * h <= GoInt.max_int ->
  (PrimFloat.eqb (minDistortion c) (maxDistortion c)
   && PrimFloat.eqb (minDistortion c) 0) = false ->
  let amplitude := fst (distortAmplitude c r) in
  exists dst,
    distortChar src (mkWorld c r) = (Returned dst, mkWorld c (snd (distortAmplitude c r)))
    /\ image.Bounds dst = image.Bounds src
    /\ forall x y, 0 <= x < w -> 0 <= y < h ->
         let period := (float64_of_int h / 2)%float in
         let xOfs := (amplitude * math_Sin (two_Pi * float64_of_int y / period))%float in
         let yOfs := (amplitude * math_Cos (two_Pi * float64_of_int x / period))%float in
         let nx := GoInt.add x (int_of_float64 xOfs) in
         let ny := GoInt.add y (int_of_float64 yOfs) in
         image.RGBAAt dst x y
         = if (0 <=? nx) && (nx <? w) && (0 <=? ny) && (ny <? h)
           then image.RGBAAt src nx ny
           else color.transparent.
Proof.
  intros Hbounds Hw Hh Hsize Hdistorts.
  exact (distortChar_pixels c r src w h Hbounds Hw Hh Hsize Hdistorts).
Qed.

End Distortion.

(** ** The color of a line *)

Lemma uint8_range (z : Z) : 0 <= uint8 z <= 255.
Proof. unfold uint8. pose proof (Z.mod_pos_bound z 256). lia. Qed.

(** On an 8-bit value [clamp(v, 0, 255)] changes nothing. *)
Lemma clamp_uint8 (v : Z) : 0 <= v <= 255 -> clamp v 0 255 = v.
Proof.
  intros H. unfold clamp.
  destruct (Z.ltb_spec v 0); [lia |]. destruct (Z.gtb_spec v 255); [lia | reflexivity].
Qed.

Lemma clamp_idempotent (v lo hi : Z) :
  lo <= hi -> clamp (clamp v lo hi) lo hi = clamp v lo hi.
Proof.
  intros H. unfold clamp.
  destruct (Z.ltb_spec v lo).
  - rewrite Z.ltb_irrefl. destruct (Z.gtb_spec lo hi); [lia | reflexivity].
  - destruct (Z.gtb_spec v hi).
    + destruct (Z.ltb_spec hi lo); [lia |]. rewrite Z.gtb_ltb, Z.ltb_irrefl. reflexivity.
    + destruct (Z.ltb_spec v lo); [lia |].
      destruct (Z.gtb_spec v hi); [lia | reflexivity].
Qed.

(** A channel of the result is the sum of the base channel and the offset
    modulo 256: the sum has wrapped around before [clamp] sees it. *)
Lemma nearChannel_wraps (r offset : Z) :
  nearChannel r offset = (uint8 (Z.shiftr r 8) + offset) mod 256.
Proof.
  unfold nearChannel. rewrite clamp_uint8 by apply uint8_range.
  unfold uint8. rewrite <- Z.add_mod by lia.
  rewrite Z.add_mod_idemp_l by lia. reflexivity.
Qed.

Lemma randomOffset_run (r : Rand) :
  randomOffset r = (Returned (nthIntN r 0 50 - 25), mkRand (tape r) (S (cursor r)))
  /\ -25 <= nthIntN r 0 50 - 25 <= 24.
Proof.
  pose proof (nthIntN_range r 0 50 ltac:(lia)) as H.
  split; [| lia].
  unfold randomOffset.
  rewrite (bind_returned _ _ _ _ _ (rand_IntN_run 50 r ltac:(lia))).
  unfold ret, GoInt.sub. unwrap. reflexivity.
Qed.

(** [randomNearColor] on any base color and any state of the random
    source. *)
Lemma randomNearColor_run (base : color.Color) (r : Rand) :
  let '(r0, g0, b0, a0) := color.Color_RGBA base in
  let rOffset := nthIntN r 0 50 - 25 in
  let gOffset := nthIntN r 1 50 - 25 in
  let bOffset := nthIntN r 2 50 - 25 in
  randomNearColor base r
  = (Returned (color.mkRGBA ((uint8 (Z.shiftr r0 8) + rOffset) mod 256)
                            ((uint8 (Z.shiftr g0 8) + gOffset) mod 256)
                            ((uint8 (Z.shiftr b0 8) + bOffset) mod 256)
                            (uint8 (Z.shiftr a0 8))),
     mkRand (tape r) (cursor r + 3))
  /\ -25 <= rOffset <= 24 /\ -25 <= gOffset <= 24 /\ -25 <= bOffset <= 24.
Proof.
  unfold randomNearColor.
  destruct (color.Color_RGBA base) as [[[r0 g0] b0] a0].
  destruct (randomOffset_run r) as [H0 R0].
  set (r1 := mkRand (tape r) (S (cursor r))) in *.
  destruct (randomOffset_run r1) as [H1 R1].
  set (r2 := mkRand (tape r1) (S (cursor r1))) in *.
  destruct (randomOffset_run r2) as [H2 R2].
  assert (E1 : nthIntN r1 0 50 = nthIntN r 1 50).
  { unfold nthIntN, r1. simpl. rewrite Nat.add_0_r, Nat.add_1_r. reflexivity. }
  assert (E2 : nthIntN r2 0 50 = nthIntN r 2 50).
  { unfold nthIntN, r2, r1. simpl.
    rewrite Nat.add_0_r. replace (cursor r + 2)%nat with (S (S (cursor r))) by lia.
    reflexivity. }
  rewrite E1 in H1, R1. rewrite E2 in H2, R2.
  split; [| repeat split; lia].
  rewrite (bind_returned _ _ _ _ _ H0), (bind_returned _ _ _ _ _ H1),
    (bind_returned _ _ _ _ _ H2).
  unfold ret. rewrite !nearChannel_wraps.
  unfold r2, r1. simpl. do 2 f_equal. lia.
Qed.

(** The alpha channel of a [color.RGBA] base is kept. *)
Lemma alpha_kept (c : color.RGBA) :
  0 <= color.A c <= 255 ->
  let '(_, _, _, a0) := color.Color_RGBA (color.ofRGBA c) in
  uint8 (Z.shiftr a0 8) = color.A c.
Proof.
  intros H. cbn [color.Color_RGBA]. unfold uint8.
  rewrite Z.shiftr_lor, Z.shiftr_shiftl_l by lia.
  replace (8 - 8) with 0 by lia. rewrite Z.shiftl_0_r.
  rewrite (Z.shiftr_div_pow2 (color.A c) 8) by lia.
  rewrite (Z.div_small (color.A c) (2 ^ 8)) by lia.
  rewrite Z.lor_0_l. apply Z.mod_small. lia.
Qed.

(** C4, on the code.  Each of R, G, B is the base channel plus an offset
    of [[-25, 24]] reduced modulo 256, and the alpha channel is the one of
    the base.  On black, with a draw that gives the offset -25 for each
    channel, the result is (231, 231, 231) where clamping gives (0, 0, 0). *)
Theorem randomNearColor_wraps_around :
  (forall (base : color.Color) (r : Rand),
      let '(r0, g0, b0, a0) := color.Color_RGBA base in
      exists result r',
        randomNearColor base r = (Returned result, r')
        /\ color.R result = (uint8 (Z.shiftr r0 8) + (nthIntN r 0 50 - 25)) mod 256
        /\ color.G result = (uint8 (Z.shiftr g0 8) + (nthIntN r 1 50 - 25)) mod 256
        /\ color.B result = (uint8 (Z.shiftr b0 8) + (nthIntN r 2 50 - 25)) mod 256
        /\ color.A result = uint8 (Z.shiftr a0 8)
        /\ -25 <= nthIntN r 0 50 - 25 <= 24)
  /\ fst (randomNearColor (color.ofRGBA (color.mkRGBA 0 0 0 255))
                          (mkRand (fun _ => 0) 0))
     = Returned (color.mkRGBA 231 231 231 255).
Proof.
  split.
  - intros base r. pose proof (randomNearColor_run base r) as H.
    destruct (color.Color_RGBA base) as [[[r0 g0] b0] a0].
    destruct H as (Hrun & Hr & _).
    eexists. eexists. split; [exact Hrun |]. simpl. repeat split; lia.
  - vm_compute. reflexivity.
Qed.

(** ** The pixel bounds *)

Lemma pixelBounds_scan_fold (src : image.RGBA) :
  pixelBounds_scan src
  = fold_left (scanStep src) (scanned src)
      (image.X (image.Max (image.Bounds src)), image.Y (image.Max (image.Bounds src)),
       image.X (image.Min (image.Bounds src)), image.Y (image.Min (image.Bounds src))).
Proof.
  unfold pixelBounds_scan, scanned, scanStep.
  rewrite <- (fold_left_rows (fun y st x => pixelBounds_pixel src y st x)).
  reflexivity.
Qed.

Lemma in_scanned (src : image.RGBA) (x y : Z) :
  In (x, y) (scanned src) <-> image.In (image.Pt x y) (image.Bounds src) = true.
Proof.
  unfold scanned, image.In. rewrite in_rowMajor, !in_zrange. simpl.
  rewrite !andb_true_iff, !Z.leb_le, !Z.ltb_lt. tauto.
Qed.

Lemma Opaque_in_bounds (src : image.RGBA) (x y : Z) :
  Opaque src x y -> image.In (image.Pt x y) (image.Bounds src) = true.
Proof.
  unfold Opaque, image.RGBAAt.
  destruct (image.In (image.Pt x y) (image.Bounds src)); [reflexivity |].
  simpl. lia.
Qed.

Lemma scanStep_cases (src : image.RGBA) (minX minY maxX maxY x y : Z) :
  (Opaque src x y
   /\ scanStep src (minX, minY, maxX, maxY) (x, y)
      = (Z.min x minX, Z.min y minY, Z.max x maxX, Z.max y maxY))
  \/ (~ Opaque src x y
      /\ scanStep src (minX, minY, maxX, maxY) (x, y) = (minX, minY, maxX, maxY)).
Proof.
  unfold scanStep, pixelBounds_pixel, Opaque. simpl.
  destruct (Z.gtb_spec (color.A (image.RGBAAt src x y)) 0); [left | right];
    (split; [lia |]); [| reflexivity].
  destruct (Z.ltb_spec x minX); destruct (Z.gtb_spec x maxX);
    destruct (Z.ltb_spec y minY); destruct (Z.gtb_spec y maxY);
    repeat f_equal; lia.
Qed.

Lemma scanStep_wider (src : image.RGBA) (st : Extremes) (p : Z * Z) :
  Wider st (scanStep src st p).
Proof.
  destruct st as [[[minX minY] maxX] maxY], p as [x y].
  destruct (scanStep_cases src minX minY maxX maxY x y) as [[_ ->] | [_ ->]];
    unfold Wider; lia.
Qed.

Lemma Wider_trans (st1 st2 st3 : Extremes) :
  Wider st1 st2 -> Wider st2 st3 -> Wider st1 st3.
Proof.
  destruct st1 as [[[a1 b1] c1] d1], st2 as [[[a2 b2] c2] d2],
    st3 as [[[a3 b3] c3] d3]. unfold Wider. lia.
Qed.

Lemma fold_wider (src : image.RGBA) (l : list (Z * Z)) :
  forall st, Wider st (fold_left (scanStep src) l st).
Proof.
  induction l as [| p rest IH]; intros st.
  - destruct st as [[[a b] c] d]. unfold Wider. simpl. lia.
  - simpl. eapply Wider_trans; [apply scanStep_wider | apply IH].
Qed.

Lemma Encloses_wider (st st' : Extremes) (p : Z * Z) :
  Encloses st p -> Wider st st' -> Encloses st' p.
Proof.
  destruct st as [[[a b] c] d], st' as [[[a' b'] c'] d']. unfold Encloses, Wider. lia.
Qed.

(** Every opaque pixel visited lies between the extremes, inclusive. *)
Lemma fold_encloses (src : image.RGBA) (l : list (Z * Z)) (x y : Z) :
  In (x, y) l -> Opaque src x y ->
  forall st, Encloses (fold_left (scanStep src) l st) (x, y).
Proof.
  induction l as [| p rest IH]; intros Hin Hop st; [destruct Hin |].
  simpl. destruct Hin as [-> | Hin]; [| apply IH; assumption].
  apply (Encloses_wider (scanStep src st (x, y))); [| apply fold_wider].
  destruct st as [[[minX minY] maxX] maxY].
  destruct (scanStep_cases src minX minY maxX maxY x y) as [[_ ->] | [Hno _]];
    [| contradiction].
  unfold Encloses. simpl. lia.
Qed.

Lemma scanStep_attained (src : image.RGBA) (st0 st : Extremes) (p : Z * Z) :
  Attained src st0 st -> Attained src st0 (scanStep src st p).
Proof.
  destruct st0 as [[[minX0 minY0] maxX0] maxY0], st as [[[minX minY] maxX] maxY],
    p as [x y].
  intros (H1 & H2 & H3 & H4).
  destruct (scanStep_cases src minX minY maxX maxY x y) as [[Hop ->] | [_ ->]];
    [| unfold Attained; tauto].
  unfold Attained. repeat split.
  - destruct (Z.min_spec x minX) as [[_ ->] | [_ ->]]; [right; eauto | exact H1].
  - destruct (Z.min_spec y minY) as [[_ ->] | [_ ->]]; [right; eauto | exact H2].
  - destruct (Z.max_spec x maxX) as [[_ ->] | [_ ->]]; [exact H3 | right; eauto].
  - destruct (Z.max_spec y maxY) as [[_ ->] | [_ ->]]; [exact H4 | right; eauto].
Qed.

Lemma fold_attained (src : image.RGBA) (st0 : Extremes) (l : list (Z * Z)) :
  forall st, Attained src st0 st -> Attained src st0 (fold_left (scanStep src) l st).
Proof.
  induction l as [| p rest IH]; intros st H; [exact H |].
  simpl. apply IH, scanStep_attained, H.
Qed.

(** Without an opaque pixel the extremes stay as they start. *)
Lemma fold_transparent (src : image.RGBA) (l : list (Z * Z)) :
  (forall x y, In (x, y) l -> ~ Opaque src x y) ->
  forall st, fold_left (scanStep src) l st = st.
Proof.
  induction l as [| p rest IH]; intros Hno st; [reflexivity |].
  simpl. destruct st as [[[minX minY] maxX] maxY], p as [x y].
  destruct (scanStep_cases src minX minY maxX maxY x y) as [[Hop _] | [_ ->]].
  - exfalso. apply (Hno x y); [left; reflexivity | exact Hop].
  - apply IH. intros x' y' Hin. apply Hno. right. exact Hin.
Qed.

(** [pixelBounds] on a canvas without an opaque pixel: the rectangle of
    the canvas itself, because [image.Rect] puts the corners in order. *)
Lemma pixelBounds_transparent (src : image.RGBA) :
  WellFormed (image.Bounds src) ->
  (forall x y, ~ Opaque src x y) ->
  pixelBounds src = image.Bounds src.
Proof.
  intros [Hx Hy] Hno. unfold pixelBounds.
  rewrite pixelBounds_scan_fold, fold_transparent by (intros x y _; apply Hno).
  unfold image.Rect.
  destruct (image.Bounds src) as [[x0 y0] [x1 y1]]. simpl in *.
  destruct (Z.gtb_spec x1 x0); destruct (Z.gtb_spec y1 y0);
    repeat f_equal; lia.
Qed.

(** [pixelBounds] on a canvas with an opaque pixel: [Min] is the least
    and [Max] the greatest coordinates of opaque pixels, so that the
    rectangle, which does not contain its [Max] column and row, misses the
    opaque pixels of the last column and of the last row. *)
Lemma pixelBounds_opaque (src : image.RGBA) (x0 y0 : Z) :
  Opaque src x0 y0 ->
  exists minX minY maxX maxY,
    pixelBounds src = image.mkRectangle (image.Pt minX minY) (image.Pt maxX maxY)
    /\ (forall x y, Opaque src x y -> minX <= x <= maxX /\ minY <= y <= maxY)
    /\ (exists y, Opaque src minX y) /\ (exists x, Opaque src x minY)
    /\ (exists y, Opaque src maxX y /\ image.In (image.Pt maxX y) (pixelBounds src) = false)
    /\ (exists x, Opaque src x maxY /\ image.In (image.Pt x maxY) (pixelBounds src) = false).
Proof.
  intros Hop0. unfold pixelBounds. rewrite pixelBounds_scan_fold.
  set (st0 := (image.X (image.Max (image.Bounds src)),
               image.Y (image.Max (image.Bounds src)),
               image.X (image.Min (image.Bounds src)),
               image.Y (image.Min (image.Bounds src)))).
  assert (Henc : forall x y, Opaque src x y ->
                   Encloses (fold_left (scanStep src) (scanned src) st0) (x, y)).
  { intros x y Hop. apply fold_encloses; [| exact Hop].
    apply in_scanned, Opaque_in_bounds, Hop. }
  assert (Hatt : Attained src st0 (fold_left (scanStep src) (scanned src) st0)).
  { apply fold_attained. unfold Attained, st0. tauto. }
  pose proof (Opaque_in_bounds src x0 y0 Hop0) as Hin0.
  unfold image.In in Hin0. simpl in Hin0.
  rewrite !andb_true_iff, !Z.leb_le, !Z.ltb_lt in Hin0.
  destruct (fold_left (scanStep src) (scanned src) st0) as [[[minX minY] maxX] maxY].
  unfold Attained, st0 in Hatt. destruct Hatt as (A1 & A2 & A3 & A4).
  pose proof (Henc x0 y0 Hop0) as E0. unfold Encloses in E0. simpl in E0.
  assert (Hrect : image.Rect minX minY maxX maxY
                  = image.mkRectangle (image.Pt minX minY) (image.Pt maxX maxY)).
  { unfold image.Rect.
    destruct (Z.gtb_spec minX maxX); [lia |]. destruct (Z.gtb_spec minY maxY); [lia |].
    reflexivity. }
  exists minX, minY, maxX, maxY. rewrite Hrect.
  split; [reflexivity |]. split; [exact Henc |].
  assert (B3 : exists y, Opaque src maxX y).
  { destruct A3 as [E | H]; [| exact H]. exists y0.
    replace maxX with x0 by lia. exact Hop0. }
  assert (B4 : exists x, Opaque src x maxY).
  { destruct A4 as [E | H]; [| exact H]. exists x0.
    replace maxY with y0 by lia. exact Hop0. }
  repeat split.
  - destruct A1 as [E | H]; [lia | exact H].
  - destruct A2 as [E | H]; [lia | exact H].
  - destruct B3 as [y Hy]. exists y. split; [exact Hy |].
    unfold image.In. simpl. rewrite Z.ltb_irrefl.
    rewrite andb_false_r. reflexivity.
  - destruct B4 as [x Hx]. exists x. split; [exact Hx |].
    unfold image.In. simpl. rewrite Z.ltb_irrefl.
    rewrite andb_false_r. reflexivity.
Qed.

(** C3, on the code.  For the canvas with the single opaque pixel
    [(1,1)], [pixelBounds] returns the rectangle from [(1,1)] to [(1,1)]:
    it is empty and does not contain the pixel.  For the transparent
    canvas it returns the whole canvas, of area 9. *)
Theorem pixelBounds_misses_last_row_and_column :
  pixelBounds onePixelCanvas = image.mkRectangle (image.Pt 1 1) (image.Pt 1 1)
  /\ image.In (image.Pt 1 1) (pixelBounds onePixelCanvas) = false
  /\ image.Empty (pixelBounds onePixelCanvas) = true
  /\ pixelBounds transparentCanvas = image.mkRectangle (image.Pt 0 0) (image.Pt 3 3)
  /\ image.Dx (pixelBounds transparentCanvas) * image.Dy (pixelBounds transparentCanvas) = 9.
Proof. vm_compute. repeat split. Qed.

(** ** The two line methods *)

Section LineMethods.

Context {L : Library}.

(** [drawStraightLine] on a canvas with pixels: the end points are four
    draws within the canvas, the color is drawn next, and with fuel for
    [w + h] steps the loop ends. *)
Lemma drawStraightLine_run (fuel : nat) (c : Captcha) (r : Rand) (img : image.RGBA)
  (w h : Z) :
  image.Bounds img = image.Rect 0 0 w h ->
  0 < w -> 0 < h -> 4 * w * h <= GoInt.max_int ->
  (Z.to_nat (w + h) <= fuel)%nat ->
  let x1 := nthIntN r 0 w in
  let y1 := nthIntN r 1 h in
  let x2 := nthIntN r 2 w in
  let y2 := nthIntN r 3 h in
  exists lineColor path,
    drawStraightLine fuel img (mkWorld c r)
    = (Returned (plot lineColor img path), mkWorld c (mkRand (tape r) (cursor r + 7)))
    /\ straightLinePath fuel x1 y1 x2 y2 = Some path
    /\ inCanvas w h (x1, y1) /\ inCanvas w h (x2, y2).
Proof.
  intros Hbounds Hw Hh Hsize Hfuel x1 y1 x2 y2.
  destruct (canvas_sides w h Hsize Hw Hh) as [Hw' Hh'].
  destruct (Dx_Rect_canvas w h) as [HDx HDy]; [unfold GoInt.max_int; lia .. |].
  pose proof (nthIntN_range r 0 w Hw) as R0.
  pose proof (nthIntN_range r 1 h Hh) as R1.
  pose proof (nthIntN_range r 2 w Hw) as R2.
  pose proof (nthIntN_range r 3 h Hh) as R3.
  fold x1 in R0. fold y1 in R1. fold x2 in R2. fold y2 in R3.
  set (r4 := mkRand (tape r) (cursor r + 4)).
  pose proof (randomNearColor_run (foreground c) r4) as Hcolor.
  destruct (color.Color_RGBA (foreground c)) as [[[r0 g0] b0] a0].
  destruct Hcolor as [Hcolor _].
  match type of Hcolor with _ = (Returned ?col, _) => set (lineColor := col) in * end.
  assert (Hpath : exists path, straightLinePath fuel x1 y1 x2 y2 = Some path).
  { destruct (bresenhamPath_from x1 y1
                (if x1 <? x2 then 1 else -1) (if y1 <? y2 then 1 else -1)
                (Z.abs (x2 - x1)) (Z.abs (y2 - y1))) with (fuel := fuel) (a := 0) (b := 0)
      as [path [Hrun _]];
      try (destruct (x1 <? x2); auto; fail);
      try (destruct (y1 <? y2); auto; fail);
      try lia.
    - unfold errAt. lia.
    - exists path. unfold straightLinePath, GoInt.sub. unwrap.
      rewrite !abs_in_range by lia. unwrap.
      unfold errAt in Hrun.
      replace ((0 + 1) * Z.abs (x2 - x1) - (0 + 1) * Z.abs (y2 - y1))
        with (Z.abs (x2 - x1) - Z.abs (y2 - y1)) in Hrun by ring.
      rewrite !Z.mul_0_r, !Z.add_0_r in Hrun.
      replace (x1 + (if x1 <? x2 then 1 else -1) * Z.abs (x2 - x1)) with x2 in Hrun
        by (destruct (Z.ltb_spec x1 x2); lia).
      replace (y1 + (if y1 <? y2 then 1 else -1) * Z.abs (y2 - y1)) with y2 in Hrun
        by (destruct (Z.ltb_spec y1 y2); lia).
      exact Hrun. }
  destruct Hpath as [path Hpath].
  exists lineColor, path.
  split; [| split; [exact Hpath | split; split; simpl; lia]].
  unfold drawStraightLine. rewrite Hbounds, HDx, HDy.
  assert (Hdraw : forall k n, 0 < n ->
            liftRand (rand_IntN n) (mkWorld c (mkRand (tape r) (cursor r + k)))
            = (Returned (nthIntN r k n), mkWorld c (mkRand (tape r) (cursor r + S k)))).
  { intros k n Hn. apply (liftRand_run _ (mkWorld c (mkRand (tape r) (cursor r + k)))).
    rewrite rand_IntN_run by exact Hn. cbn [tape cursor rnd].
    rewrite (nthIntN_shift r 0 k n), Nat.add_0_r.
    do 3 f_equal. lia. }
  replace (mkWorld c r) with (mkWorld c (mkRand (tape r) (cursor r + 0)))
    by (rewrite Nat.add_0_r; destruct r; reflexivity).
  rewrite (bind_returned _ _ _ _ _ (Hdraw 0%nat w Hw)).
  rewrite (bind_returned _ _ _ _ _ (Hdraw 1%nat h Hh)).
  rewrite (bind_returned _ _ _ _ _ (Hdraw 2%nat w Hw)).
  rewrite (bind_returned _ _ _ _ _ (Hdraw 3%nat h Hh)).
  fold x1 y1 x2 y2 r4.
  rewrite (this_run c r4).
  rewrite (bind_returned _ _ _ _ _ (liftRand_run _ (mkWorld c r4) _ _ Hcolor)).
  unfold liftOutcome. rewrite straightLine_plot, Hpath.
  unfold r4. cbn [tape cursor recv]. do 3 f_equal. lia.
Qed.

(** [drawCurveLine] on a canvas with pixels: six draws for the end points
    and the control point, then the color. *)
Lemma drawCurveLine_run (c : Captcha) (r : Rand) (img : image.RGBA) (w h : Z) :
  image.Bounds img = image.Rect 0 0 w h ->
  0 < w <= GoInt.max_int -> 0 < h <= GoInt.max_int ->
  exists lineColor,
    drawCurveLine img (mkWorld c r)
    = (Returned (curveLine lineColor img
                   (nthIntN r 0 w) (nthIntN r 1 h) (nthIntN r 2 w) (nthIntN r 3 h)
                   (nthIntN r 4 w) (nthIntN r 5 h)),
       mkWorld c (mkRand (tape r) (cursor r + 9))).
Proof.
  intros Hbounds Hw Hh.
  destruct (Dx_Rect_canvas w h) as [HDx HDy]; [lia .. |].
  set (r6 := mkRand (tape r) (cursor r + 6)).
  pose proof (randomNearColor_run (foreground c) r6) as Hcolor.
  destruct (color.Color_RGBA (foreground c)) as [[[r0 g0] b0] a0].
  destruct Hcolor as [Hcolor _].
  match type of Hcolor with _ = (Returned ?col, _) => exists col end.
  unfold drawCurveLine. rewrite Hbounds, HDx, HDy.
  assert (Hdraw : forall k n, 0 < n ->
            liftRand (rand_IntN n) (mkWorld c (mkRand (tape r) (cursor r + k)))
            = (Returned (nthIntN r k n), mkWorld c (mkRand (tape r) (cursor r + S k)))).
  { intros k n Hn. apply (liftRand_run _ (mkWorld c (mkRand (tape r) (cursor r + k)))).
    rewrite rand_IntN_run by exact Hn. cbn [tape cursor rnd].
    rewrite (nthIntN_shift r 0 k n), Nat.add_0_r.
    do 3 f_equal. lia. }
  replace (mkWorld c r) with (mkWorld c (mkRand (tape r) (cursor r + 0)))
    by (rewrite Nat.add_0_r; destruct r; reflexivity).
  cbv zeta.
  rewrite (bind_returned _ _ _ _ _ (Hdraw 0%nat w ltac:(lia))).
  rewrite (bind_returned _ _ _ _ _ (Hdraw 1%nat h ltac:(lia))).
  rewrite (bind_returned _ _ _ _ _ (Hdraw 2%nat w ltac:(lia))).
  rewrite (bind_returned _ _ _ _ _ (Hdraw 3%nat h ltac:(lia))).
  rewrite (bind_returned _ _ _ _ _ (Hdraw 4%nat w ltac:(lia))).
  rewrite (bind_returned _ _ _ _ _ (Hdraw 5%nat h ltac:(lia))).
  fold r6. rewrite (this_run c r6).
  rewrite (bind_returned _ _ _ _ _ (liftRand_run _ (mkWorld c r6) _ _ Hcolor)).
  unfold ret, r6. cbn [tape cursor recv]. do 3 f_equal. lia.
Qed.

End LineMethods.

(** ** The claim about the distortion, as it is worded *)

Section RoundedDistortion.

Context {L : Library}.

(** Whatever the sine and the cosine are elsewhere, if they are 0 and 1
    at 0 then the destination pixel [(0,0)] of the stripes is the source
    pixel [(0,1)], where the specification has the source pixel [(0,2)]. *)
Lemma distortChar_at_origin (c : Captcha) (r : Rand) :
  math_Sin 0 = 0%float -> math_Cos 0 = 1%float ->
  exists dst,
    distortChar stripes (mkWorld (warped c) r) = (Returned dst, mkWorld (warped c) r)
    /\ image.RGBAAt dst 0 0 = image.RGBAAt stripes 0 1
    /\ roundedSource 1.75 4 0 0 = (0, 2).
Proof.
  intros Hsin Hcos.
  destruct (distortChar_pixels (warped c) r stripes 1 4)
    as [dst [Hrun [_ Hpix]]];
    try reflexivity; try (unfold GoInt.max_int; lia).
  exists dst. split; [exact Hrun |]. split.
  - rewrite (Hpix 0 0) by lia.
    change (fst (distortAmplitude (warped c) r)) with 1.75%float.
    change (two_Pi * float64_of_int 0 / (float64_of_int 4 / 2))%float with 0%float.
    rewrite Hsin, Hcos. reflexivity.
  - unfold roundedSource.
    change (two_Pi * float64_of_int 0 / (float64_of_int 4 / 2))%float with 0%float.
    rewrite Hsin, Hcos. reflexivity.
Qed.

End RoundedDistortion.

(** [int] discards the fraction of a [float64], toward zero, where
    rounding goes to the nearest integer. *)
Lemma int_of_float64_discards_the_fraction :
  int_of_float64 1.75 = 1 /\ int_of_float64 (-1.75) = -1
  /\ roundToInt 1.75 = 2 /\ roundToInt (-1.75) = -2.
Proof. vm_compute. repeat split. Qed.

(** * Further properties *)

(** ** The small helpers *)

(** X1.  With [min <= max], [clamp(v, min, max)] lies between [min] and
    [max], is [v] itself when [v] does, is [min] below and [max] above, and
    clamping twice is clamping once. *)
Theorem clamp_stays_within (v lo hi : Z) :
  lo <= hi ->
  lo <= clamp v lo hi <= hi
  /\ (lo <= v <= hi -> clamp v lo hi = v)
  /\ (v < lo -> clamp v lo hi = lo)
  /\ (hi < v -> clamp v lo hi = hi)
  /\ clamp (clamp v lo hi) lo hi = clamp v lo hi.
Proof.
  intros H. unfold clamp.
  destruct (Z.ltb_spec v lo) as [Hlo | Hlo].
  - rewrite Z.ltb_irrefl. destruct (Z.gtb_spec lo hi); [lia |].
    repeat split; try lia.
  - destruct (Z.gtb_spec v hi) as [Hhi | Hhi].
    + destruct (Z.ltb_spec hi lo); [lia |].
      rewrite Z.gtb_ltb, Z.ltb_irrefl. repeat split; try lia.
    + destruct (Z.ltb_spec v lo); [lia |]. destruct (Z.gtb_spec v hi); [lia |].
      repeat split; try lia.
Qed.

(** X2.  On an [int], [abs(x)] is the absolute value of [x], except on
    the least [int], whose opposite is no [int]: there [abs] returns the
    least [int] itself, a negative value. *)
Theorem abs_of_an_int (x : Z) :
  GoInt.in_range x ->
  GoInt.in_range (abs x)
  /\ (x <> GoInt.min_int -> abs x = Z.abs x /\ 0 <= abs x)
  /\ (x = GoInt.min_int -> abs x = GoInt.min_int /\ abs x < 0).
Proof.
  intros H. unfold abs, GoInt.neg. int_bounds.
  destruct (Z.ltb_spec x 0) as [Hneg | Hpos].
  - split; [apply wrap_in_range |]. split.
    + intros Hx. unwrap. lia.
    + intros ->. vm_compute. split; reflexivity.
  - split; [unfold GoInt.in_range, GoInt.min_int, GoInt.max_int; lia |]. split; lia.
Qed.

(** X3.  [randomString(length, set)] at its edges: a negative length
    panics in [make]; the length 0 gives the empty string without a draw,
    also from the empty set; a positive length with the empty set panics in
    [rand.IntN], before any draw; otherwise the result has [length] bytes
    and exactly [length] draws are made. *)
Theorem randomString_edge_cases (length : Z) (set : string) (r : Rand) :
  (length < 0 ->
   randomString length set r = (Panicked "makeslice: len out of range", r))
  /\ (length = 0 -> randomString length set r = (Returned EmptyString, r))
  /\ (0 < length -> len set = 0 ->
      randomString length set r = (Panicked "invalid argument to IntN", r))
  /\ (0 <= length -> 0 < len set ->
      exists code,
        randomString length set r
        = (Returned code, mkRand (tape r) (cursor r + Z.to_nat length))
        /\ len code = length).
Proof.
  repeat split.
  - intros H. unfold randomString. destruct (Z.ltb_spec length 0); [reflexivity | lia].
  - intros ->. reflexivity.
  - intros Hlen Hset. unfold randomString.
    destruct (Z.ltb_spec length 0); [lia |].
    rewrite repeat_length.
    destruct (Z.to_nat length) as [| n] eqn:Hn; [lia |].
    cbn [repeat seq forEach].
    apply bind_panicked. apply bind_panicked.
    unfold randomString_body. apply bind_panicked.
    rewrite Hset. apply rand_IntN_panics. lia.
  - intros Hlen Hset.
    destruct (randomString_run length set r Hlen Hset) as [code [Hrun [Hl _]]].
    exists code. split; assumption.
Qed.

(** ** The pixel bounds, in general *)

(** The extremes that the scan ends with lie within the bounds of the
    image, corners included. *)
Lemma pixelBounds_scan_within (src : image.RGBA) (minX minY maxX maxY : Z) :
  WellFormed (image.Bounds src) ->
  pixelBounds_scan src = (minX, minY, maxX, maxY) ->
  let b := image.Bounds src in
  image.X (image.Min b) <= minX <= image.X (image.Max b)
  /\ image.Y (image.Min b) <= minY <= image.Y (image.Max b)
  /\ image.X (image.Min b) <= maxX <= image.X (image.Max b)
  /\ image.Y (image.Min b) <= maxY <= image.Y (image.Max b).
Proof.
  intros [Hx Hy] Hscan b. rewrite pixelBounds_scan_fold in Hscan.
  match type of Hscan with fold_left _ _ ?st = _ => set (st0 := st) in * end.
  assert (Hatt : Attained src st0 (fold_left (scanStep src) (scanned src) st0)).
  { apply fold_attained. unfold Attained, st0. tauto. }
  rewrite Hscan in Hatt. unfold Attained, st0 in Hatt.
  assert (Hin : forall x y, Opaque src x y ->
            image.X (image.Min b) <= x < image.X (image.Max b)
            /\ image.Y (image.Min b) <= y < image.Y (image.Max b)).
  { intros x y Hop. apply Opaque_in_bounds in Hop. unfold image.In in Hop.
    simpl in Hop. rewrite !andb_true_iff, !Z.leb_le, !Z.ltb_lt in Hop.
    unfold b. lia. }
  destruct Hatt as (A1 & A2 & A3 & A4). unfold b in *.
  repeat split;
    try (destruct A1 as [-> | [v Hop]]; [lia | apply Hin in Hop; lia]);
    try (destruct A2 as [-> | [v Hop]]; [lia | apply Hin in Hop; lia]);
    try (destruct A3 as [-> | [v Hop]]; [lia | apply Hin in Hop; lia]);
    try (destruct A4 as [-> | [v Hop]]; [lia | apply Hin in Hop; lia]).
Qed.

(** The rectangle of [pixelBounds] is well formed and lies within the
    bounds of the image. *)
Lemma pixelBounds_within (src : image.RGBA) :
  WellFormed (image.Bounds src) ->
  let b := image.Bounds src in
  let p := pixelBounds src in
  WellFormed p
  /\ image.X (image.Min b) <= image.X (image.Min p)
  /\ image.X (image.Max p) <= image.X (image.Max b)
  /\ image.Y (image.Min b) <= image.Y (image.Min p)
  /\ image.Y (image.Max p) <= image.Y (image.Max b).
Proof.
  intros Hwf b p. unfold p, pixelBounds.
  destruct (pixelBounds_scan src) as [[[minX minY] maxX] maxY] eqn:Hscan.
  destruct (pixelBounds_scan_within src minX minY maxX maxY Hwf Hscan)
    as (H1 & H2 & H3 & H4).
  fold b in H1, H2, H3, H4.
  unfold image.Rect, WellFormed.
  destruct (Z.gtb_spec minX maxX); destruct (Z.gtb_spec minY maxY); simpl; lia.
Qed.

(** X4.  For an image whose bounds are in order, [pixelBounds] returns a
    rectangle with its corners in order that lies within the bounds.  It
    is the bounds themselves when no pixel has a non-zero alpha.
    Otherwise [Min] holds the least and [Max] the greatest coordinates of
    such pixels, each attained by one of them. *)
Theorem pixelBounds_lies_within_the_image (src : image.RGBA) :
  WellFormed (image.Bounds src) ->
  let b := image.Bounds src in
  let p := pixelBounds src in
  WellFormed p
  /\ image.X (image.Min b) <= image.X (image.Min p)
  /\ image.X (image.Max p) <= image.X (image.Max b)
  /\ image.Y (image.Min b) <= image.Y (image.Min p)
  /\ image.Y (image.Max p) <= image.Y (image.Max b)
  /\ ((forall x y, ~ Opaque src x y) -> p = b)
  /\ (forall x0 y0, Opaque src x0 y0 ->
      (forall x y, Opaque src x y ->
         image.X (image.Min p) <= x <= image.X (image.Max p)
         /\ image.Y (image.Min p) <= y <= image.Y (image.Max p))
      /\ (exists y, Opaque src (image.X (image.Min p)) y)
      /\ (exists x, Opaque src x (image.Y (image.Min p)))
      /\ (exists y, Opaque src (image.X (image.Max p)) y)
      /\ (exists x, Opaque src x (image.Y (image.Max p)))).
Proof.
  intros Hwf b p.
  destruct (pixelBounds_within src Hwf) as (W & H1 & H2 & H3 & H4).
  fold b p in W, H1, H2, H3, H4.
  repeat (split; [assumption |]). split.
  - intros Hno. apply pixelBounds_transparent; assumption.
  - intros x0 y0 Hop.
    destruct (pixelBounds_opaque src x0 y0 Hop)
      as (minX & minY & maxX & maxY & E & Henc & Hl & Ht & [yr [Hr _]] & [xb [Hb _]]).
    unfold p. rewrite E. simpl.
    split; [exact Henc |]. repeat split; eauto.
Qed.

(** ** Cutting a canvas to its pixel bounds *)

Lemma Rect_canvas (w h : Z) :
  0 <= w -> 0 <= h ->
  image.Rect 0 0 w h = image.mkRectangle (image.Pt 0 0) (image.Pt w h).
Proof.
  intros Hw Hh. unfold image.Rect.
  destruct (Z.gtb_spec 0 w); [lia |]. destruct (Z.gtb_spec 0 h); [lia |].
  reflexivity.
Qed.

Section Cutting.

Context {L : Library}.

(** [cut] on a canvas that [image.NewRGBA] made: the new image has the
    differences of the corners of the pixel bounds as its sides, and the
    canvas is drawn on it from the [Min] corner on. *)
Lemma cut_run (canvas : image.RGBA) (w h : Z) (st : World) :
  image.Bounds canvas = image.Rect 0 0 w h ->
  0 <= w <= GoInt.max_int -> 0 <= h <= GoInt.max_int ->
  4 * w * h <= GoInt.max_int ->
  let b := pixelBounds canvas in
  let w' := image.X (image.Max b) - image.X (image.Min b) in
  let h' := image.Y (image.Max b) - image.Y (image.Min b) in
  let blank := image.mkRGBA (image.Rect 0 0 w' h') (fun _ _ => color.transparent) in
  0 <= image.X (image.Min b) /\ image.X (image.Max b) <= w
  /\ 0 <= image.Y (image.Min b) /\ image.Y (image.Max b) <= h
  /\ 0 <= w' /\ 0 <= h'
  /\ cut canvas st
     = (Returned (draw_Draw blank (image.Rect 0 0 w' h') (ofImage canvas)
                            (image.Min b) Over), st).
Proof.
  intros Hbounds Hw Hh Hsize b w' h' blank.
  assert (Hwf : WellFormed (image.Bounds canvas)).
  { rewrite Hbounds, Rect_canvas by lia. unfold WellFormed. simpl. lia. }
  destruct (pixelBounds_within canvas Hwf) as ([Wx Wy] & H1 & H2 & H3 & H4).
  rewrite Hbounds, Rect_canvas in H1, H2, H3, H4 by lia. simpl in H1, H2, H3, H4.
  fold b in Wx, Wy, H1, H2, H3, H4.
  assert (Hw' : 0 <= w' <= w) by (unfold w'; lia).
  assert (Hh' : 0 <= h' <= h) by (unfold h'; lia).
  repeat (split; [lia |]).
  unfold cut. fold b.
  assert (HDx : image.Dx b = w').
  { unfold image.Dx, GoInt.sub, w'. apply wrap_id. int_bounds. lia. }
  assert (HDy : image.Dy b = h').
  { unfold image.Dy, GoInt.sub, h'. apply wrap_id. int_bounds. lia. }
  rewrite HDx, HDy.
  rewrite (NewRGBA_canvas w' h') by (unfold GoInt.max_int in *; nia).
  reflexivity.
Qed.

(** X5.  Cutting a canvas that [image.NewRGBA] made (the last statements
    of [drawChar] and of [drawString]) does not panic.  The new image is no
    larger than the canvas.  On a canvas without an opaque pixel nothing is
    cut: the new image has the size of the canvas.  Otherwise its width
    and its height are the greatest distances between opaque pixels along
    each axis: one column and one row less than the opaque pixels take. *)
Theorem cut_keeps_one_column_and_row_less (canvas : image.RGBA) (w h : Z) (st : World) :
  image.Bounds canvas = image.Rect 0 0 w h ->
  0 <= w <= GoInt.max_int -> 0 <= h <= GoInt.max_int ->
  4 * w * h <= GoInt.max_int ->
  exists w' h' blank,
    image.NewRGBA (image.Rect 0 0 w' h') = Returned blank
    /\ cut canvas st
       = (Returned (draw_Draw blank (image.Bounds blank) (ofImage canvas)
                              (image.Min (pixelBounds canvas)) Over), st)
    /\ 0 <= w' <= w /\ 0 <= h' <= h
    /\ ((forall x y, ~ Opaque canvas x y) -> w' = w /\ h' = h)
    /\ (forall x y x' y', Opaque canvas x y -> Opaque canvas x' y' ->
        x' - x <= w' /\ y' - y <= h')
    /\ (forall x0 y0, Opaque canvas x0 y0 ->
        (exists x y x' y', Opaque canvas x y /\ Opaque canvas x' y' /\ x' - x = w')
        /\ (exists x y x' y', Opaque canvas x y /\ Opaque canvas x' y' /\ y' - y = h')).
Proof.
  intros Hbounds Hw Hh Hsize.
  destruct (cut_run canvas w h st Hbounds Hw Hh Hsize)
    as (H1 & H2 & H3 & H4 & Hw' & Hh' & Hrun).
  set (b := pixelBounds canvas) in *.
  set (w' := image.X (image.Max b) - image.X (image.Min b)) in *.
  set (h' := image.Y (image.Max b) - image.Y (image.Min b)) in *.
  exists w', h', (image.mkRGBA (image.Rect 0 0 w' h') (fun _ _ => color.transparent)).
  split; [apply NewRGBA_canvas; unfold GoInt.max_int in *; nia |].
  split; [exact Hrun |].
  split; [lia |]. split; [lia |].
  assert (Hwf : WellFormed (image.Bounds canvas)).
  { rewrite Hbounds, Rect_canvas by lia. unfold WellFormed. simpl. lia. }
  split; [| split].
  - intros Hno. unfold w', h', b.
    rewrite (pixelBounds_transparent canvas Hwf Hno), Hbounds, Rect_canvas by lia.
    simpl. lia.
  - intros x y x' y' Hop Hop'.
    destruct (pixelBounds_opaque canvas x y Hop)
      as (minX & minY & maxX & maxY & E & Henc & _).
    unfold w', h', b. rewrite E. simpl.
    pose proof (Henc x y Hop). pose proof (Henc x' y' Hop'). lia.
  - intros x0 y0 Hop.
    destruct (pixelBounds_opaque canvas x0 y0 Hop)
      as (minX & minY & maxX & maxY & E & _ & [yl Hl] & [xt Ht] & [yr [Hr _]] & [xb [Hb _]]).
    unfold w', h', b. rewrite E. simpl. split.
    + exists minX, yl, maxX, yr. auto.
    + exists xt, minY, xb, maxY. auto.
Qed.

End Cutting.

(** ** The number of pixels of a straight line *)

(** While the line is at least as wide as high the loop steps along x in
    every round: from the state [(a, b)] it sets [dx - a + 1] pixels. *)
Lemma bresenhamPath_wide (x0 y0 sx sy dx dy : Z) :
  (sx = 1 \/ sx = -1) -> (sy = 1 \/ sy = -1) ->
  0 <= dx <= 2 ^ 61 -> 0 <= dy <= dx ->
  - 2 ^ 61 <= x0 <= 2 ^ 61 -> - 2 ^ 61 <= y0 <= 2 ^ 61 ->
  forall (fuel : nat) (a b : Z),
    0 <= a <= dx -> 0 <= b <= dy ->
    (a = dx /\ b = dy) \/ - dy < 2 * errAt dx dy a b < 3 * dx - 2 * dy ->
    (Z.to_nat (dx - a) < fuel)%nat ->
    exists path,
      bresenhamPath fuel (x0 + sx * dx) (y0 + sy * dy) dx dy sx sy
                    (x0 + sx * a) (y0 + sy * b) (errAt dx dy a b)
      = Some path
      /\ List.length path = S (Z.to_nat (dx - a)).
Proof.
  intros Hsx Hsy Hdx Hdy Hx0 Hy0 fuel.
  induction fuel as [| fuel IH]; intros a b Ha Hb Herr Hfuel; [lia |].
  cbn [bresenhamPath].
  assert (Hend : (a = dx /\ b = dy) \/ (a < dx \/ b < dy)) by lia.
  destruct Hend as [[-> ->] | Hnot].
  { rewrite !Z.eqb_refl. simpl.
    eexists. split; [reflexivity |]. rewrite Z.sub_diag. reflexivity. }
  destruct Herr as [Hend | Herr]; [lia |].
  assert (Hcont : ((x0 + sx * a =? x0 + sx * dx) && (y0 + sy * b =? y0 + sy * dy))
                  = false).
  { apply andb_false_iff.
    destruct Hnot as [Hlt | Hlt]; [left | right]; apply Z.eqb_neq.
    - destruct Hsx as [-> | ->]; lia.
    - destruct Hsy as [-> | ->]; lia. }
  rewrite Hcont. clear Hcont.
  destruct (bresenham_progress dx dy a b Ha Hb Hnot) as (Px & Py & Pxy).
  assert (Hxa : - 2 ^ 61 <= sx * a <= 2 ^ 61 /\ -1 <= sx <= 1)
    by (destruct Hsx as [-> | ->]; lia).
  assert (Hyb : - 2 ^ 61 <= sy * b <= 2 ^ 61 /\ -1 <= sy <= 1)
    by (destruct Hsy as [-> | ->]; lia).
  remember (errAt dx dy a b) as E eqn:HE.
  assert (Ex : errAt dx dy (a + 1) b = E - dy) by (rewrite HE; apply errAt_x).
  assert (Exy : errAt dx dy (a + 1) (b + 1) = E - dy + dx)
    by (rewrite HE, errAt_y, errAt_x; reflexivity).
  unfold GoInt.mul, GoInt.neg, GoInt.sub, GoInt.add.
  rewrite (wrap_id (2 * E)), (wrap_id (- dy))
    by (apply in_range_bounds; lia).
  destruct (Z.gtb_spec (2 * E) (- dy)) as [Gx | Gx]; [| lia].
  destruct (Z.ltb_spec (2 * E) dx) as [Gy | Gy];
    cbv beta iota zeta; unwrap.
  - replace (x0 + sx * a + sx) with (x0 + sx * (a + 1)) by ring.
    replace (y0 + sy * b + sy) with (y0 + sy * (b + 1)) by ring.
    rewrite <- Exy.
    destruct (IH (a + 1) (b + 1)) as [path [Hrun Hlen]];
      [lia | lia | right; rewrite Exy; lia | lia |].
    rewrite Hrun. eexists. split; [reflexivity |].
    cbn [List.length]. rewrite Hlen. f_equal. lia.
  - replace (x0 + sx * a + sx) with (x0 + sx * (a + 1)) by ring.
    rewrite <- Ex.
    destruct (IH (a + 1) b) as [path [Hrun Hlen]];
      [lia | lia | right; rewrite Ex; lia | lia |].
    rewrite Hrun. eexists. split; [reflexivity |].
    cbn [List.length]. rewrite Hlen. f_equal. lia.
Qed.

(** While the line is at least as high as wide the loop steps along y in
    every round: from the state [(a, b)] it sets [dy - b + 1] pixels. *)
Lemma bresenhamPath_high (x0 y0 sx sy dx dy : Z) :
  (sx = 1 \/ sx = -1) -> (sy = 1 \/ sy = -1) ->
  0 <= dx <= dy -> 0 <= dy <= 2 ^ 61 ->
  - 2 ^ 61 <= x0 <= 2 ^ 61 -> - 2 ^ 61 <= y0 <= 2 ^ 61 ->
  forall (fuel : nat) (a b : Z),
    0 <= a <= dx -> 0 <= b <= dy ->
    (a = dx /\ b = dy) \/ 2 * dx - 3 * dy < 2 * errAt dx dy a b < dx ->
    (Z.to_nat (dy - b) < fuel)%nat ->
    exists path,
      bresenhamPath fuel (x0 + sx * dx) (y0 + sy * dy) dx dy sx sy
                    (x0 + sx * a) (y0 + sy * b) (errAt dx dy a b)
      = Some path
      /\ List.length path = S (Z.to_nat (dy - b)).
Proof.
  intros Hsx Hsy Hdx Hdy Hx0 Hy0 fuel.
  induction fuel as [| fuel IH]; intros a b Ha Hb Herr Hfuel; [lia |].
  cbn [bresenhamPath].
  assert (Hend : (a = dx /\ b = dy) \/ (a < dx \/ b < dy)) by lia.
  destruct Hend as [[-> ->] | Hnot].
  { rewrite !Z.eqb_refl. simpl.
    eexists. split; [reflexivity |]. rewrite Z.sub_diag. reflexivity. }
  destruct Herr as [Hend | Herr]; [lia |].
  assert (Hcont : ((x0 + sx * a =? x0 + sx * dx) && (y0 + sy * b =? y0 + sy * dy))
                  = false).
  { apply andb_false_iff.
    destruct Hnot as [Hlt | Hlt]; [left | right]; apply Z.eqb_neq.
    - destruct Hsx as [-> | ->]; lia.
    - destruct Hsy as [-> | ->]; lia. }
  rewrite Hcont. clear Hcont.
  destruct (bresenham_progress dx dy a b Ha Hb Hnot) as (Px & Py & Pxy).
  assert (Hxa : - 2 ^ 61 <= sx * a <= 2 ^ 61 /\ -1 <= sx <= 1)
    by (destruct Hsx as [-> | ->]; lia).
  assert (Hyb : - 2 ^ 61 <= sy * b <= 2 ^ 61 /\ -1 <= sy <= 1)
    by (destruct Hsy as [-> | ->]; lia).
  remember (errAt dx dy a b) as E eqn:HE.
  assert (Ey : errAt dx dy a (b + 1) = E + dx) by (rewrite HE; apply errAt_y).
  assert (Exy : errAt dx dy (a + 1) (b + 1) = E - dy + dx)
    by (rewrite HE, errAt_y, errAt_x; reflexivity).
  unfold GoInt.mul, GoInt.neg, GoInt.sub, GoInt.add.
  rewrite (wrap_id (2 * E)), (wrap_id (- dy))
    by (apply in_range_bounds; lia).
  destruct (Z.ltb_spec (2 * E) dx) as [Gy | Gy]; [| lia].
  destruct (Z.gtb_spec (2 * E) (- dy)) as [Gx | Gx];
    cbv beta iota zeta; unwrap.
  - replace (x0 + sx * a + sx) with (x0 + sx * (a + 1)) by ring.
    replace (y0 + sy * b + sy) with (y0 + sy * (b + 1)) by ring.
    rewrite <- Exy.
    destruct (IH (a + 1) (b + 1)) as [path [Hrun Hlen]];
      [lia | lia | right; rewrite Exy; lia | lia |].
    rewrite Hrun. eexists. split; [reflexivity |].
    cbn [List.length]. rewrite Hlen. f_equal. lia.
  - replace (y0 + sy * b + sy) with (y0 + sy * (b + 1)) by ring.
    rewrite <- Ey.
    destruct (IH a (b + 1)) as [path [Hrun Hlen]];
      [lia | lia | right; rewrite Ey; lia | lia |].
    rewrite Hrun. eexists. split; [reflexivity |].
    cbn [List.length]. rewrite Hlen. f_equal. lia.
Qed.

(** X10.  For two end points within a canvas that [image.NewRGBA]
    accepts, the loop of [drawStraightLine] ends within
    [max(|x2-x1|, |y2-y1|) + 1] rounds and sets that number of pixels: one
    for each step along the axis on which the end points are farther
    apart. *)
Theorem straightLine_sets_one_pixel_per_major_step
  (fuel : nat) (lineColor : color.RGBA) (img : image.RGBA) (w h x1 y1 x2 y2 : Z) :
  4 * w * h <= GoInt.max_int ->
  inCanvas w h (x1, y1) -> inCanvas w h (x2, y2) ->
  (Z.to_nat (Z.max (Z.abs (x2 - x1)) (Z.abs (y2 - y1))) < fuel)%nat ->
  exists path,
    straightLinePath fuel x1 y1 x2 y2 = Some path
    /\ straightLine fuel lineColor img x1 y1 x2 y2 = Returned (plot lineColor img path)
    /\ List.length path = S (Z.to_nat (Z.max (Z.abs (x2 - x1)) (Z.abs (y2 - y1)))).
Proof.
  intros Hsize [Hx1 Hy1] [Hx2 Hy2] Hfuel. simpl in Hx1, Hy1, Hx2, Hy2.
  destruct (canvas_sides w h Hsize ltac:(lia) ltac:(lia)) as [Hw Hh].
  set (sx := if x1 <? x2 then 1 else -1).
  set (sy := if y1 <? y2 then 1 else -1).
  assert (Hsx : sx = 1 \/ sx = -1) by (unfold sx; destruct (x1 <? x2); auto).
  assert (Hsy : sy = 1 \/ sy = -1) by (unfold sy; destruct (y1 <? y2); auto).
  assert (Ex : x2 = x1 + sx * Z.abs (x2 - x1))
    by (unfold sx; destruct (Z.ltb_spec x1 x2); lia).
  assert (Ey : y2 = y1 + sy * Z.abs (y2 - y1))
    by (unfold sy; destruct (Z.ltb_spec y1 y2); lia).
  set (dx := Z.abs (x2 - x1)) in *. set (dy := Z.abs (y2 - y1)) in *.
  assert (Hdx : 0 <= dx <= 2 ^ 61) by (unfold dx; lia).
  assert (Hdy : 0 <= dy <= 2 ^ 61) by (unfold dy; lia).
  assert (Hrun : exists path,
             bresenhamPath fuel (x1 + sx * dx) (y1 + sy * dy) dx dy sx sy
                           (x1 + sx * 0) (y1 + sy * 0) (errAt dx dy 0 0)
             = Some path
             /\ List.length path = S (Z.to_nat (Z.max dx dy))).
  { destruct (Z_le_gt_dec dy dx) as [Hwide | Hhigh].
    - destruct (bresenhamPath_wide x1 y1 sx sy dx dy Hsx Hsy Hdx ltac:(lia)
                  ltac:(lia) ltac:(lia) fuel 0 0 ltac:(lia) ltac:(lia))
        as [path [Hrun Hlen]].
      + unfold errAt. lia.
      + lia.
      + exists path. split; [exact Hrun |]. rewrite Hlen. f_equal. lia.
    - destruct (bresenhamPath_high x1 y1 sx sy dx dy Hsx Hsy ltac:(lia) Hdy
                  ltac:(lia) ltac:(lia) fuel 0 0 ltac:(lia) ltac:(lia))
        as [path [Hrun Hlen]].
      + unfold errAt. lia.
      + lia.
      + exists path. split; [exact Hrun |]. rewrite Hlen. f_equal. lia. }
  destruct Hrun as [path [Hrun Hlen]].
  rewrite <- Ex, <- Ey, !Z.mul_0_r, !Z.add_0_r in Hrun.
  assert (Hpath : straightLinePath fuel x1 y1 x2 y2 = Some path).
  { unfold straightLinePath, GoInt.sub. unwrap.
    rewrite !abs_in_range by lia. unwrap.
    fold sx sy dx dy. unfold errAt in Hrun.
    replace ((0 + 1) * dx - (0 + 1) * dy) with (dx - dy) in Hrun by ring.
    exact Hrun. }
  exists path. split; [exact Hpath |]. split; [| exact Hlen].
  rewrite straightLine_plot, Hpath. reflexivity.
Qed.

(** ** How near the color of a line is *)

(** The 16-bit channel that [RGBA()] returns for an 8-bit channel gives
    the channel back. *)
Lemma channel_kept (v : Z) :
  0 <= v <= 255 -> uint8 (Z.shiftr (Z.lor v (Z.shiftl v 8)) 8) = v.
Proof.
  intros H. unfold uint8.
  rewrite Z.shiftr_lor, Z.shiftr_shiftl_l by lia.
  replace (8 - 8) with 0 by lia. rewrite Z.shiftl_0_r.
  rewrite (Z.shiftr_div_pow2 v 8) by lia.
  rewrite (Z.div_small v (2 ^ 8)) by lia.
  rewrite Z.lor_0_l. apply Z.mod_small. lia.
Qed.

(** A sum with an offset of [[-25, 24]], reduced modulo 256. *)
Lemma wrapped_channel (v offset : Z) :
  0 <= v <= 255 -> -25 <= offset <= 24 ->
  NearOrWrapped v ((v + offset) mod 256) offset.
Proof.
  intros Hv Ho. set (v' := (v + offset) mod 256).
  assert (H : v' = v + offset \/ v' = v + offset + 256 \/ v' = v + offset - 256).
  { unfold v'.
    destruct (Z_lt_le_dec (v + offset) 0); [right; left |].
    - symmetry. apply (Z.mod_unique_pos _ _ (-1)); lia.
    - destruct (Z_lt_le_dec 255 (v + offset)); [right; right | left].
      + symmetry. apply (Z.mod_unique_pos _ _ 1); lia.
      + apply Z.mod_small. lia. }
  pose proof (Z.mod_pos_bound (v + offset) 256 ltac:(lia)) as Hb. fold v' in Hb.
  clearbody v'. unfold NearOrWrapped. repeat split; intros; lia.
Qed.

(** X14.  [randomNearColor] on a [color.RGBA] base with channels of 8
    bits returns, after three draws, a color with the alpha of the base
    whose other channels are each the base channel plus an offset of
    [[-25, 24]] when the sum is a byte, and 256 more or less than that when
    it is not: a channel of the result is within 25 of the base channel or
    at least 231 away from it, and it is always within 25 when the base
    channel lies in [[25, 231]]. *)
Theorem randomNearColor_is_near_or_wraps (c : color.RGBA) (r : Rand) :
  0 <= color.R c <= 255 -> 0 <= color.G c <= 255 ->
  0 <= color.B c <= 255 -> 0 <= color.A c <= 255 ->
  exists result,
    randomNearColor (color.ofRGBA c) r
    = (Returned result, mkRand (tape r) (cursor r + 3))
    /\ color.A result = color.A c
    /\ NearOrWrapped (color.R c) (color.R result) (nthIntN r 0 50 - 25)
    /\ NearOrWrapped (color.G c) (color.G result) (nthIntN r 1 50 - 25)
    /\ NearOrWrapped (color.B c) (color.B result) (nthIntN r 2 50 - 25).
Proof.
  intros HR HG HB HA.
  pose proof (randomNearColor_run (color.ofRGBA c) r) as Hrun.
  cbn [color.Color_RGBA] in Hrun. cbv zeta in Hrun.
  destruct Hrun as (Hrun & Hr & Hg & Hb).
  rewrite !channel_kept in Hrun by assumption.
  eexists. split; [exact Hrun |]. cbn [color.R color.G color.B color.A].
  split; [reflexivity |].
  split; [apply wrapped_channel; assumption |].
  split; apply wrapped_channel; assumption.
Qed.

(** ** Conversions of small [float64] values *)







(** A product with a factor that is not a number is not a number, and
    [int] of it is the least [int]. *)
Lemma int_of_float64_times_nan (x : float) :
  int_of_float64 (x * nan) = GoInt.min_int.
Proof.
  unfold int_of_float64, truncate. rewrite mul_spec.
  change (Prim2SF nan) with S754_nan.
  destruct (Prim2SF x); reflexivity.
Qed.

(** ** Programs that use no fuel *)

Lemma ends_ret {S A : Type} (a : A) : endsWithoutFuel (ret (S := S) a).
Proof. intros s. discriminate. Qed.

Lemma ends_panic {S A : Type} (msg : string) : endsWithoutFuel (panic (S := S) (A := A) msg).
Proof. intros s. discriminate. Qed.

Lemma ends_liftOutcome {S A : Type} (o : Outcome A) :
  o <> OutOfFuel -> endsWithoutFuel (liftOutcome (S := S) o).
Proof. intros H s. exact H. Qed.

Lemma ends_bind {S A B : Type} (m : Prog S A) (k : A -> Prog S B) :
  endsWithoutFuel m -> (forall a, endsWithoutFuel (k a)) -> endsWithoutFuel (bind m k).
Proof.
  intros Hm Hk s. unfold bind. specialize (Hm s).
  destruct (m s) as [[a | msg |] s']; simpl in *; [apply Hk | discriminate | congruence].
Qed.

Lemma ends_forEach {S A B : Type} (l : list B) (body : A -> B -> Prog S A) :
  (forall acc v, endsWithoutFuel (body acc v)) ->
  forall acc, endsWithoutFuel (forEach l body acc).
Proof.
  intros Hbody. induction l as [| v rest IH]; intros acc; simpl.
  - apply ends_ret.
  - apply ends_bind; [apply Hbody | exact IH].
Qed.

Lemma ends_rand_IntN (n : Z) : endsWithoutFuel (rand_IntN n).
Proof. intros r. unfold rand_IntN. destruct (n <=? 0); discriminate. Qed.

Lemma ends_rand_Float64 : endsWithoutFuel rand_Float64.
Proof. intros r. discriminate. Qed.

Lemma NewRGBA_ends (r : image.Rectangle) : image.NewRGBA r <> OutOfFuel.
Proof. unfold image.NewRGBA. destruct (_ && _); discriminate. Qed.

Lemma ends_byteAt {S : Type} (s : string) (i : Z) : endsWithoutFuel (byteAt (S := S) s i).
Proof.
  unfold byteAt. destruct (i <? 0); [apply ends_panic |].
  destruct (String.get (Z.to_nat i) s); [apply ends_ret | apply ends_panic].
Qed.

Create HintDb ends discriminated.

#[local] Hint Resolve ends_ret ends_panic ends_rand_IntN ends_rand_Float64
  ends_byteAt NewRGBA_ends ends_liftOutcome : ends.

(** Going through a program statement by statement. *)
Ltac ends :=
  repeat first
    [ solve [auto with ends]
    | apply ends_bind; [| intros ?]
    | apply ends_forEach; intros ? ?
    | match goal with
      | |- endsWithoutFuel (if ?b then _ else _) => destruct b
      | |- endsWithoutFuel (match ?x with _ => _ end) => destruct x
      | |- endsWithoutFuel (let '(_, _) := ?x in _) => destruct x
      end ].

Lemma ends_randomString (length : Z) (set : string) :
  endsWithoutFuel (randomString length set).
Proof. unfold randomString, randomString_body. ends. Qed.

Lemma ends_randomNearColor (base : color.Color) : endsWithoutFuel (randomNearColor base).
Proof.
  unfold randomNearColor, randomOffset.
  destruct (color.Color_RGBA base) as [[[r g] b] a]. ends.
Qed.

#[local] Hint Resolve ends_randomString ends_randomNearColor : ends.

Section NoFuel.

Context {L : Library}.

Lemma ends_this : endsWithoutFuel this.
Proof. intros w. discriminate. Qed.

Lemma ends_liftRand {A : Type} (m : Prog Rand A) :
  endsWithoutFuel m -> endsWithoutFuel (liftRand m).
Proof.
  intros H w. unfold liftRand. specialize (H (rnd w)).
  destruct (m (rnd w)). exact H.
Qed.

#[local] Hint Resolve ends_this ends_liftRand : ends.

Lemma ends_face : endsWithoutFuel face.
Proof. unfold face. ends. Qed.

Lemma ends_randomBetween (min max : float) : endsWithoutFuel (randomBetween min max).
Proof. unfold randomBetween. ends. Qed.

Lemma ends_Captcha_randomString : endsWithoutFuel Captcha_randomString.
Proof. unfold Captcha_randomString, codeLength. ends. Qed.

#[local] Hint Resolve ends_face ends_randomBetween ends_Captcha_randomString : ends.

Lemma ends_scaleChar (src : image.RGBA) : endsWithoutFuel (scaleChar src).
Proof. unfold scaleChar, scaleBy. ends. Qed.

Lemma ends_distortChar (src : image.RGBA) : endsWithoutFuel (distortChar src).
Proof. unfold distortChar, distortBy. ends. Qed.

Lemma ends_rotateChar (src : image.RGBA) : endsWithoutFuel (rotateChar src).
Proof. unfold rotateChar, rotateBy. ends. Qed.

Lemma ends_cut (canvas : image.RGBA) : endsWithoutFuel (cut canvas).
Proof. unfold cut. ends. Qed.

#[local] Hint Resolve ends_scaleChar ends_distortChar ends_rotateChar ends_cut : ends.

Lemma ends_drawChar (char : Z) : endsWithoutFuel (drawChar char).
Proof. unfold drawChar. ends. Qed.

#[local] Hint Resolve ends_drawChar : ends.

Lemma ends_drawString (code : string) : endsWithoutFuel (drawString code).
Proof. unfold drawString, drawString_char. ends. Qed.

End NoFuel.

(** ** The lines on a canvas *)

Section LinesOnACanvas.

Context {L : Library}.

(** A loop whose body returns, from every state that an invariant
    admits, and keeps the invariant: the loop returns. *)
Lemma forEach_returns {A B : Type} (c : Captcha) (Inv : nat -> A -> Rand -> Prop)
  (body : A -> B -> Prog World A) :
  (forall k acc v r, Inv k acc r ->
     exists acc' r', body acc v (mkWorld c r) = (Returned acc', mkWorld c r')
                     /\ Inv (S k) acc' r') ->
  forall l k acc r, Inv k acc r ->
    exists acc' r', forEach l body acc (mkWorld c r) = (Returned acc', mkWorld c r')
                    /\ Inv (k + List.length l)%nat acc' r'.
Proof.
  intros Hbody. induction l as [| v rest IH]; intros k acc r Hinv.
  - exists acc, r. split; [reflexivity |]. rewrite Nat.add_0_r. exact Hinv.
  - destruct (Hbody k acc v r Hinv) as (acc1 & r1 & Hrun & Hinv1).
    destruct (IH (S k) acc1 r1 Hinv1) as (acc' & r' & Hrest & Hinv').
    exists acc', r'. split.
    + cbn [forEach]. rewrite (bind_returned _ _ _ _ _ Hrun). exact Hrest.
    + cbn [List.length]. replace (k + S (List.length rest))%nat
        with (S k + List.length rest)%nat by lia. exact Hinv'.
Qed.

Lemma rand_Float64_run (c : Captcha) (r : Rand) :
  exists f, liftRand rand_Float64 (mkWorld c r)
            = (Returned f, mkWorld c (mkRand (tape r) (S (cursor r)))).
Proof.
  eexists. unfold liftRand, rand_Float64, rand_Uint64. cbn [rnd recv]. reflexivity.
Qed.

(** One round of the loop of [drawLines] on a canvas with pixels: a draw
    chooses the kind of line, the line takes 7 or 9 draws more, and the
    bounds of the canvas stay. *)
Lemma drawLines_line_run (fuel : nat) (c : Captcha) (r : Rand) (img : image.RGBA)
  (w h : Z) (k : nat) :
  image.Bounds img = image.Rect 0 0 w h ->
  0 < w -> 0 < h -> 4 * w * h <= GoInt.max_int ->
  (Z.to_nat (w + h) <= fuel)%nat ->
  exists img' r',
    drawLines_line fuel img k (mkWorld c r) = (Returned img', mkWorld c r')
    /\ image.Bounds img' = image.Rect 0 0 w h
    /\ tape r' = tape r
    /\ (cursor r + 8 <= cursor r' <= cursor r + 10)%nat.
Proof.
  intros Hbounds Hw Hh Hsize Hfuel.
  destruct (rand_Float64_run c r) as [f Hf].
  unfold drawLines_line. rewrite (bind_returned _ _ _ _ _ Hf).
  set (r1 := mkRand (tape r) (S (cursor r))).
  destruct (PrimFloat.ltb f 0.5).
  - destruct (drawStraightLine_run fuel c r1 img w h Hbounds Hw Hh Hsize Hfuel)
      as (lineColor & path & Hrun & _).
    eexists. eexists. split; [exact Hrun |].
    rewrite Bounds_plot. cbn [tape cursor r1]. repeat split; try assumption; lia.
  - destruct (canvas_sides w h Hsize Hw Hh) as [Hw' Hh'].
    destruct (drawCurveLine_run c r1 img w h Hbounds) as (lineColor & Hrun);
      [unfold GoInt.max_int; lia .. |].
    eexists. eexists. split; [exact Hrun |].
    rewrite curveLine_plot, Bounds_plot. cbn [tape cursor r1].
    repeat split; try assumption; lia.
Qed.

(** [drawLines] on a canvas with pixels returns: it does not panic and
    the loops of the straight lines end. *)
Lemma drawLines_run (fuel : nat) (c : Captcha) (r : Rand) (src : image.RGBA) (w h : Z) :
  DrawKeepsBounds ->
  WellTyped c -> 0 <= minLines c <= maxLines c ->
  image.Bounds src = image.Rect 0 0 w h ->
  0 < w -> 0 < h -> 4 * w * h <= GoInt.max_int ->
  (Z.to_nat (w + h) <= fuel)%nat ->
  exists img r' n,
    drawLines fuel src (mkWorld c r) = (Returned img, mkWorld c r')
    /\ image.Bounds img = image.Rect 0 0 w h
    /\ tape r' = tape r
    /\ (minLines c = maxLines c -> n = minLines c)
    /\ (minLines c < maxLines c -> minLines c <= n < maxLines c)
    /\ (cursor r + 8 * Z.to_nat n <= cursor r' <= cursor r + 10 * Z.to_nat n + 1)%nat.
Proof.
  intros Hlaw Hty Hlines Hbounds Hw Hh Hsize Hfuel.
  destruct (Z.eq_dec (maxLines c) 0) as [Hzero | Hsome].
  { exists src, r, 0. rewrite drawLines_none by lia.
    repeat split; try assumption; try lia. }
  destruct (canvas_sides w h Hsize Hw Hh) as [Hw' Hh'].
  assert (Hcnt : exists n r1,
             lineCount (mkWorld c r) = (Returned n, mkWorld c r1)
             /\ tape r1 = tape r
             /\ (cursor r <= cursor r1 <= cursor r + 1)%nat
             /\ (minLines c = maxLines c -> n = minLines c /\ r1 = r)
             /\ (minLines c < maxLines c -> minLines c <= n < maxLines c)).
  { destruct (Z.eq_dec (minLines c) (maxLines c)) as [E | E].
    - exists (minLines c), r. rewrite lineCount_fixed by exact E.
      repeat split; try lia.
    - destruct (lineCount_drawn c r Hty ltac:(lia)) as [Hrun Hrange].
      eexists. eexists. split; [exact Hrun |]. cbn [tape cursor].
      repeat split; try lia. }
  destruct Hcnt as (n & r1 & Hcnt & Htape1 & Hcur1 & Hfixed & Hdrawn).
  rewrite (drawLines_some fuel c r r1 src n) by (try exact Hcnt; lia).
  rewrite Hbounds, (NewRGBA_canvas w h) by (unfold GoInt.max_int in *; lia).
  unfold bind at 1. unfold liftOutcome at 1. cbn [image.Bounds].
  set (dst := draw_Draw _ _ _ _ _).
  assert (Hdst : image.Bounds dst = image.Rect 0 0 w h).
  { unfold dst. rewrite Hlaw. reflexivity. }
  destruct (forEach_returns c
              (fun k img r' => image.Bounds img = image.Rect 0 0 w h
                               /\ tape r' = tape r1
                               /\ (cursor r1 + 8 * k <= cursor r' <= cursor r1 + 10 * k)%nat)
              (drawLines_line fuel))
    with (l := seq 0 (Z.to_nat n)) (k := 0%nat) (acc := dst) (r := r1)
    as (img & r' & Hrun & Hb & Ht & Hc).
  { intros k img v r2 (Hb & Ht & Hc).
    destruct (drawLines_line_run fuel c r2 img w h v Hb Hw Hh Hsize Hfuel)
      as (img' & r' & Hrun & Hb' & Ht' & Hc').
    exists img', r'. split; [exact Hrun |].
    repeat split; try assumption; try congruence; lia. }
  { repeat split; try assumption; lia. }
  rewrite length_seq in Hc. cbn [Nat.add] in Hc.
  exists img, r', n. split; [exact Hrun |].
  split; [exact Hb |]. split; [congruence |].
  split; [intros E; apply Hfixed, E |]. split; [exact Hdrawn |]. lia.
Qed.


End LinesOnACanvas.

(** ** The noise *)

Lemma noisePoints_cons (r : Rand) (n : nat) (w h : Z) :
  noisePoints r (S n) w h
  = (nthIntN r 0 w, nthIntN r 1 h)
      :: noisePoints (mkRand (tape r) (cursor r + 2)) n w h.
Proof.
  unfold noisePoints. cbn [seq map]. f_equal.
  rewrite <- seq_shift, map_map. apply map_ext. intros k.
  rewrite !nthIntN_shift. f_equal; f_equal; lia.
Qed.


Section Noise.

Context {L : Library}.

(** One round of the loop of [drawNoise]. *)
Lemma drawNoise_dot_run (c : Captcha) (r : Rand) (src dst : image.RGBA) (w h : Z)
  (k : nat) :
  image.Dx (image.Bounds src) = w -> image.Dy (image.Bounds src) = h ->
  0 < w -> 0 < h ->
  drawNoise_dot src dst k (mkWorld c r)
  = (Returned (image.Set_ dst (nthIntN r 0 w) (nthIntN r 1 h) (foreground c)),
     mkWorld c (mkRand (tape r) (cursor r + 2))).
Proof.
  intros HDx HDy Hw Hh. unfold drawNoise_dot. rewrite HDx, HDy.
  rewrite (bind_returned _ _ _ _ _
             (liftRand_run _ (mkWorld c r) _ _ (rand_IntN_run w r Hw))).
  cbn [recv].
  rewrite (bind_returned _ _ _ _ _
             (liftRand_run _ (mkWorld c (mkRand (tape r) (S (cursor r)))) _ _
                (rand_IntN_run h _ Hh))).
  cbn [recv rnd tape cursor]. rewrite this_run. unfold ret.
  replace (nthIntN (mkRand (tape r) (S (cursor r))) 0 h) with (nthIntN r 1 h)
    by (unfold nthIntN; cbn [tape cursor];
        replace (S (cursor r) + 0)%nat with (cursor r + 1)%nat by lia; reflexivity).
  replace (cursor r + 2)%nat with (S (S (cursor r))) by lia. reflexivity.
Qed.

(** The loop of [drawNoise]: [n] rounds set the [n] noise points. *)
Lemma drawNoise_loop (c : Captcha) (src : image.RGBA) (w h : Z) :
  image.Dx (image.Bounds src) = w -> image.Dy (image.Bounds src) = h ->
  0 < w -> 0 < h ->
  forall (n s : nat) (dst : image.RGBA) (r : Rand),
    forEach (seq s n) (drawNoise_dot src) dst (mkWorld c r)
    = (Returned (paint (fun _ => Some (foreground c)) (noisePoints r n w h) dst),
       mkWorld c (mkRand (tape r) (cursor r + 2 * n))).
Proof.
  intros HDx HDy Hw Hh. induction n as [| n IH]; intros s dst r.
  - cbn [seq forEach]. unfold ret, noisePoints. cbn [seq map paint fold_left].
    rewrite Nat.add_0_r. destruct r; reflexivity.
  - cbn [seq forEach].
    rewrite (bind_returned _ _ _ _ _ (drawNoise_dot_run c r src dst w h s HDx HDy Hw Hh)).
    rewrite IH, noisePoints_cons, paint_cons. cbn [tape cursor fst snd].
    do 3 f_equal. lia.
Qed.

(** What [drawNoise] does on a canvas with pixels. *)
Lemma drawNoise_run (c : Captcha) (r : Rand) (src : image.RGBA) (w h : Z) :
  image.Bounds src = image.Rect 0 0 w h ->
  0 < w -> 0 < h -> 4 * w * h <= GoInt.max_int ->
  PrimFloat.eqb (noiseLevel c) 0 = false ->
  let level := if PrimFloat.ltb 1 (noiseLevel c) then 1%float else noiseLevel c in
  let n := Z.to_nat (int_of_float64 (float64_of_int (w * h) * level)) in
  let copy := draw_Draw (image.mkRGBA (image.Rect 0 0 w h) (fun _ _ => color.transparent))
                (image.Rect 0 0 w h) (ofImage src) (image.Pt 0 0) Src in
  drawNoise src (mkWorld c r)
  = (Returned (paint (fun _ => Some (foreground c)) (noisePoints r n w h) copy),
     mkWorld (if PrimFloat.ltb 1 (noiseLevel c) then WithNoise 1 c else c)
             (mkRand (tape r) (cursor r + 2 * n))).
Proof.
  intros Hbounds Hw Hh Hsize Hlevel level n copy.
  destruct (canvas_sides w h Hsize Hw Hh) as [Hw' Hh'].
  destruct (Dx_Rect_canvas w h) as [HDx HDy]; [unfold GoInt.max_int; lia .. |].
  rewrite <- Hbounds in HDx, HDy.
  unfold drawNoise. rewrite this_run, Hlevel.
  assert (Hmul : GoInt.mul (image.Dx (image.Bounds src)) (image.Dy (image.Bounds src))
                 = w * h).
  { rewrite HDx, HDy. unfold GoInt.mul. apply wrap_id. int_bounds. nia. }
  rewrite Hmul, Hbounds.
  rewrite (NewRGBA_canvas w h) by (unfold GoInt.max_int in *; lia).
  unfold copy, n, level. clear copy n level.
  destruct (PrimFloat.ltb 1 (noiseLevel c)) eqn:Hover.
  - unfold bind at 1. unfold assignNoiseLevel at 1. cbn [recv rnd].
    rewrite this_run. unfold bind at 1. unfold liftOutcome at 1.
    cbn [image.Bounds noiseLevel WithNoise].
    rewrite (drawNoise_loop (WithNoise 1 c) src w h HDx HDy Hw Hh). reflexivity.
  - unfold bind at 1. unfold ret at 1.
    rewrite this_run. unfold bind at 1. unfold liftOutcome at 1.
    cbn [image.Bounds].
    rewrite (drawNoise_loop c src w h HDx HDy Hw Hh). reflexivity.
Qed.


End Noise.

(** ** The image of [Generate] *)

Section GenerateImage.

Context {L : Library}.

(** [drawNoise] on a canvas with pixels, for a noise level that is not
    above 1: it returns an image with the bounds of the canvas. *)
Lemma drawNoise_returns (c : Captcha) (r : Rand) (src : image.RGBA) (w h : Z) :
  DrawKeepsBounds ->
  PrimFloat.ltb 1 (noiseLevel c) = false ->
  image.Bounds src = image.Rect 0 0 w h ->
  0 < w -> 0 < h -> 4 * w * h <= GoInt.max_int ->
  exists dst r',
    drawNoise src (mkWorld c r) = (Returned dst, mkWorld c r')
    /\ image.Bounds dst = image.Rect 0 0 w h.
Proof.
  intros Hlaw Hnoise Hbounds Hw Hh Hsize.
  destruct (PrimFloat.eqb (noiseLevel c) 0) eqn:Hzero.
  - exists src, r. split; [| exact Hbounds].
    unfold drawNoise. rewrite this_run, Hzero. reflexivity.
  - pose proof (drawNoise_run c r src w h Hbounds Hw Hh Hsize Hzero) as Hrun.
    cbv zeta in Hrun. rewrite Hnoise in Hrun.
    eexists. eexists. split; [exact Hrun |].
    rewrite Bounds_paint, Hlaw. reflexivity.
Qed.

(** The outcome of [Generate] for a validated configuration: it is
    decided by the code, by the size of the canvas and by [drawString]. *)
Lemma Generate_run (fuel : nat) (c : Captcha) (r : Rand) :
  DrawKeepsBounds -> Validated c -> WellTyped c ->
  (Z.to_nat (width c + height c) <= fuel)%nat ->
  match Captcha_randomString (mkWorld c r) with
  | (Returned code, w1) =>
      if 4 * width c * height c <=? GoInt.max_int then
        match drawString code w1 with
        | (Returned stringImg, w2) =>
            exists img w',
              Generate fuel (mkWorld c r) = (Returned (img, code), w')
              /\ image.Bounds img = image.Rect 0 0 (width c) (height c)
        | (Panicked msg, w2) => Generate fuel (mkWorld c r) = (Panicked msg, w2)
        | (OutOfFuel, _) => False
        end
      else
        Generate fuel (mkWorld c r)
        = (Panicked "image: NewRGBA Rectangle has huge or negative dimensions", w1)
  | (Panicked msg, w1) => Generate fuel (mkWorld c r) = (Panicked msg, w1)
  | (OutOfFuel, _) => False
  end.
Proof.
  intros Hlaw Hval Hty Hfuel.
  destruct (validated_facts c Hval) as (Hw & Hh & _ & _ & Hlines & Hnoise).
  assert (Hwr : width c <= GoInt.max_int) by (destruct Hty as ([_ H] & _); exact H).
  assert (Hhr : height c <= GoInt.max_int) by (destruct Hty as (_ & [_ H] & _); exact H).
  pose proof (ends_Captcha_randomString (mkWorld c r)) as Hends.
  pose proof (keeps_Captcha_randomString (mkWorld c r)) as Hkeeps.
  unfold Generate.
  destruct (Captcha_randomString (mkWorld c r)) as [[code | msg |] [c1 r1]] eqn:Hcode;
    cbn [fst snd recv] in Hends, Hkeeps; [| | congruence].
  2: { apply bind_panicked. exact Hcode. }
  subst c1. rewrite (bind_returned _ _ _ _ _ Hcode), this_run.
  destruct (Dx_Rect_canvas (width c) (height c)) as [HDx HDy]; [lia .. |].
  destruct (4 * width c * height c <=? GoInt.max_int) eqn:Hsize.
  2: { apply bind_panicked. unfold liftOutcome, image.NewRGBA.
       rewrite HDx, HDy, Hsize, andb_false_r. reflexivity. }
  apply Z.leb_le in Hsize.
  rewrite (bind_returned _ _ _ _ _
             (f_equal (fun o => (o, mkWorld c r1))
                (NewRGBA_canvas (width c) (height c) ltac:(lia) ltac:(lia) Hsize))).
  pose proof (ends_drawString code (mkWorld c r1)) as Hends2.
  pose proof (keeps_drawString code (mkWorld c r1)) as Hkeeps2.
  destruct (drawString code (mkWorld c r1)) as [[stringImg | msg |] [c2 r2]] eqn:Hstr;
    cbn [fst snd recv] in Hends2, Hkeeps2; [| | congruence].
  2: { apply bind_panicked. exact Hstr. }
  subst c2. rewrite (bind_returned _ _ _ _ _ Hstr).
  match goal with
  | |- context [drawNoise ?canvas] => set (canvas2 := canvas)
  end.
  assert (Hb2 : image.Bounds canvas2 = image.Rect 0 0 (width c) (height c)).
  { unfold canvas2. rewrite !Hlaw. reflexivity. }
  destruct (drawNoise_returns c r2 canvas2 (width c) (height c) Hlaw Hnoise Hb2 Hw Hh Hsize)
    as (canvas3 & r3 & Hrun3 & Hb3).
  rewrite (bind_returned _ _ _ _ _ Hrun3).
  destruct (drawLines_run fuel c r3 canvas3 (width c) (height c)
              Hlaw Hty Hlines Hb3 Hw Hh Hsize Hfuel)
    as (img & r4 & n & Hrun4 & Hb4 & _).
  rewrite (bind_returned _ _ _ _ _ Hrun4).
  exists img, (mkWorld c r4). split; [reflexivity | exact Hb4].
Qed.

(** X8.  For a [Captcha] that [New] made, whose [int] fields hold values
    of [int], [Generate] either panics or returns an image with the bounds
    [(0,0)-(width,height)]; the loops of the straight lines end within
    [width + height] rounds.  It returns whenever the code is drawn, the
    canvas has at most [2^63 - 1] bytes and [drawString] returns: the
    noise and the lines do not panic.  A canvas of more bytes, which the
    validation lets through, makes [image.NewRGBA] panic. *)
Theorem Generate_returns_an_image_of_the_size
  (opts : list Option) (c : Captcha) (fuel : nat) (r : Rand) :
  DrawKeepsBounds ->
  New opts = Ok c -> WellTyped c ->
  (Z.to_nat (width c + height c) <= fuel)%nat ->
  fst (Generate fuel (mkWorld c r)) <> OutOfFuel
  /\ (forall img code w',
        Generate fuel (mkWorld c r) = (Returned (img, code), w') ->
        image.Bounds img = image.Rect 0 0 (width c) (height c))
  /\ (forall code w1 stringImg w2,
        Captcha_randomString (mkWorld c r) = (Returned code, w1) ->
        4 * width c * height c <= GoInt.max_int ->
        drawString code w1 = (Returned stringImg, w2) ->
        exists img w', Generate fuel (mkWorld c r) = (Returned (img, code), w'))
  /\ (forall code w1,
        Captcha_randomString (mkWorld c r) = (Returned code, w1) ->
        GoInt.max_int < 4 * width c * height c ->
        Generate fuel (mkWorld c r)
        = (Panicked "image: NewRGBA Rectangle has huge or negative dimensions", w1)).
Proof.
  intros Hlaw Hnew Hty Hfuel.
  assert (Hval : Validated c).
  { unfold New in Hnew.
    destruct (validate (fold_left (fun c opt => opt c) opts defaults)) eqn:Hv;
      [discriminate |].
    destruct (loadFace (fold_left (fun c opt => opt c) opts defaults));
      [| discriminate].
    injection Hnew as <-. unfold Validated. rewrite validate_setFontFace. exact Hv. }
  pose proof (Generate_run fuel c r Hlaw Hval Hty Hfuel) as Hrun.
  destruct (Captcha_randomString (mkWorld c r)) as [[code | msg |] w1];
    [| rewrite Hrun; repeat split; discriminate | contradiction].
  destruct (Z.leb_spec (4 * width c * height c) GoInt.max_int) as [Hsize | Hsize].
  - destruct (drawString code w1) as [[stringImg | msg |] w2] eqn:Hstr; [| | contradiction].
    + destruct Hrun as (img & w' & Hrun & Hb). rewrite Hrun.
      split; [discriminate |]. split; [| split].
      * intros img' code' w'' E. injection E as <- _ _. exact Hb.
      * intros code' w1' s' w2' E _ _. injection E as <- _. eauto.
      * intros code' w1' _ Hbig. lia.
    + rewrite Hrun. split; [discriminate |]. split; [discriminate |]. split.
      * intros code' w1' s' w2' E _ Hs. injection E as <- <-. congruence.
      * intros code' w1' _ Hbig. lia.
  - rewrite Hrun. split; [discriminate |]. split; [discriminate |]. split.
    + intros code' w1' s' w2' _ Hs _. lia.
    + intros code' w1' E _. injection E as _ <-. reflexivity.
Qed.

End GenerateImage.

(** ** The canvas of [drawString] *)







Section StringCanvas.

Context {L : Library}.





End StringCanvas.

(** ** The vertical offset of a character *)

Lemma quot_low (d : Z) : d < 4 -> Z.quot d 4 <= 0.
Proof.
  intros H. destruct (Z_lt_le_dec d 0) as [Hn | Hp].
  - pose proof (Z.quot_opp_l d 4 ltac:(lia)) as E.
    pose proof (Z.quot_pos (- d) 4 ltac:(lia) ltac:(lia)). lia.
  - rewrite Z.quot_small; lia.
Qed.

Section Jitter.

Context {L : Library}.

(** X12.  A round of the loop of [drawString], after [drawChar].  The
    vertical offset is [rand.IntN(dy/4) - dy/8], [dy] the height of the
    image of the character: when the image is lower than 4 pixels the
    argument of [rand.IntN] is not positive and the round panics; otherwise
    the offset lies in [[-(dy/8), dy/4 - dy/8)], the image is drawn at the
    pen position and the pen moves by [int(float64(dx) * spacing)].  A
    panic of [drawChar] is the panic of the round. *)
Theorem drawString_char_panics_on_a_low_glyph
  (y : Z) (canvas : image.RGBA) (x char : Z) (w : World) :
  match drawChar char w with
  | (Returned charImg, w1) =>
      let dx := image.Dx (image.Bounds charImg) in
      let dy := image.Dy (image.Bounds charImg) in
      (dy < 4 ->
       drawString_char y (canvas, x) char w
       = (Panicked "invalid argument to IntN", w1))
      /\ (4 <= dy ->
          exists v spacing w2,
            0 <= v < dy / 4
            /\ recv w2 = recv w1
            /\ drawString_char y (canvas, x) char w
               = (Returned
                    (draw_Draw canvas
                       (image.Rect x (GoInt.add y (v - dy / 8))
                          (image.Dx (image.Bounds canvas))
                          (image.Dy (image.Bounds canvas)))
                       (ofImage charImg) (image.Pt 0 0) Over,
                     GoInt.add x (int_of_float64 (float64_of_int dx * spacing))),
                  w2))
  | (Panicked msg, w1) => drawString_char y (canvas, x) char w = (Panicked msg, w1)
  | (OutOfFuel, _) => False
  end.
Proof.
  pose proof (ends_drawChar char w) as Hends.
  destruct (drawChar char w) as [[charImg | msg |] [c r1]] eqn:Hchar;
    cbn [fst] in Hends; [| | congruence].
  2: { unfold drawString_char. apply bind_panicked. exact Hchar. }
  cbv zeta.
  assert (Hdy : GoInt.in_range (image.Dy (image.Bounds charImg)))
    by apply wrap_in_range.
  set (dy := image.Dy (image.Bounds charImg)) in *.
  unfold drawString_char. rewrite (bind_returned _ _ _ _ _ Hchar).
  fold dy. int_bounds. split.
  - intros Hlow. apply bind_panicked.
    apply (liftRand_run _ (mkWorld c r1)). cbn [rnd].
    apply rand_IntN_panics. unfold GoInt.quot.
    pose proof (quot_low dy Hlow) as Hq.
    assert (Hq' : - 2 ^ 63 <= Z.quot dy 4).
    { destruct (Z_lt_le_dec dy 0) as [Hn | Hp].
      - pose proof (Z.quot_opp_l dy 4 ltac:(lia)) as E.
        pose proof (Z.quot_le_upper_bound (- dy) 4 (2 ^ 63) ltac:(lia) ltac:(lia)).
        lia.
      - rewrite Z.quot_small; lia. }
    unwrap. exact Hq.
  - intros Hhigh.
    assert (Hq4 : GoInt.quot dy 4 = dy / 4).
    { unfold GoInt.quot. rewrite Z.quot_div_nonneg by lia.
      apply wrap_id. int_bounds.
      pose proof (Z.div_pos dy 4 ltac:(lia) ltac:(lia)).
      pose proof (Z.div_le_upper_bound dy 4 (2 ^ 63 - 1) ltac:(lia) ltac:(lia)). lia. }
    assert (Hq8 : GoInt.quot dy 8 = dy / 8).
    { unfold GoInt.quot. rewrite Z.quot_div_nonneg by lia.
      apply wrap_id. int_bounds.
      pose proof (Z.div_pos dy 8 ltac:(lia) ltac:(lia)).
      pose proof (Z.div_le_upper_bound dy 8 (2 ^ 63 - 1) ltac:(lia) ltac:(lia)). lia. }
    rewrite Hq4, Hq8.
    assert (Hpos : 0 < dy / 4) by (apply Z.div_str_pos; lia).
    pose proof (nthIntN_range r1 0 (dy / 4) Hpos) as Hv.
    rewrite (bind_returned _ _ _ _ _
               (liftRand_run _ (mkWorld c r1) _ _ (rand_IntN_run (dy / 4) r1 Hpos))).
    cbn [recv]. rewrite this_run.
    assert (Hsub : GoInt.sub (nthIntN r1 0 (dy / 4)) (dy / 8)
                   = nthIntN r1 0 (dy / 4) - dy / 8).
    { unfold GoInt.sub. apply wrap_id. int_bounds.
      pose proof (Z.div_pos dy 8 ltac:(lia) ltac:(lia)).
      pose proof (Z.div_le_upper_bound dy 4 (2 ^ 63 - 1) ltac:(lia) ltac:(lia)).
      pose proof (Z.div_le_upper_bound dy 8 (2 ^ 63 - 1) ltac:(lia) ltac:(lia)). lia. }
    rewrite Hsub.
    destruct (PrimFloat.eqb (minSpacing c) (maxSpacing c)).
    + exists (nthIntN r1 0 (dy / 4)), (minSpacing c),
        (mkWorld c (mkRand (tape r1) (S (cursor r1)))).
      split; [exact Hv |]. split; reflexivity.
    + destruct (rand_Float64_run c (mkRand (tape r1) (S (cursor r1)))) as [f Hf].
      exists (nthIntN r1 0 (dy / 4)),
        (f * (maxSpacing c - minSpacing c) + minSpacing c)%float,
        (mkWorld c (mkRand (tape r1) (S (S (cursor r1))))).
      split; [exact Hv |]. split; [reflexivity |].
      unfold randomBetween.
      rewrite (bind_returned _ _ _ _ _
                 (bind_returned _ _ _ _ _ Hf)).
      reflexivity.
Qed.

End Jitter.

(** ** Parameters that are not numbers *)

Section NotANumberAccepted.

Context {L : Library}.

Ltac validate_nan :=
  unfold Validated, validate;
  cbn [WithNoise WithSpacing WithRotation WithScale WithDistortion
       width height charSet fontPath fontSize minLength maxLength minSpacing
       maxSpacing minRotation maxRotation minScale maxScale minDistortion
       maxDistortion minLines maxLines noiseLevel];
  change (PrimFloat.ltb nan 0) with false;
  change (PrimFloat.ltb 1 nan) with false;
  change (PrimFloat.ltb nan nan) with false;
  change (PrimFloat.ltb nan (-180)) with false;
  change (PrimFloat.ltb 180 nan) with false;
  cbn [orb];
  split_ifs; congruence.

(** The comparisons of the validation are all false on a value that is
    not a number. *)
Lemma validate_accepts_nan (c : Captcha) :
  Validated c ->
  Validated (WithNoise nan c) /\ Validated (WithSpacing nan nan c)
  /\ Validated (WithRotation nan nan c) /\ Validated (WithScale nan nan c)
  /\ Validated (WithDistortion nan nan c).
Proof.
  intros H. repeat split; revert H; validate_nan.
Qed.

(** One more option, after the others, that keeps the font and passes the
    validation. *)
Lemma New_one_more (opts : list Option) (c : Captcha) (o : Option) :
  (forall c, Validated c -> Validated (o c)) ->
  (forall c, loadFace (o c) = loadFace c) ->
  (forall f c, setFontFace f (o c) = o (setFontFace f c)) ->
  New opts = Ok c -> New (opts ++ [o]) = Ok (o c).
Proof.
  intros Hval Hface Hset Hnew. unfold New in *. cbv zeta in *.
  rewrite fold_left_app. cbn [fold_left].
  set (c0 := fold_left _ opts defaults).
  change (match validate c0 with
          | Some err => Err err
          | None => match loadFace c0 with
                    | Ok face => Ok (setFontFace face c0)
                    | Err e => Err e
                    end
          end = Ok c) in Hnew.
  destruct (validate c0) eqn:Hv; [discriminate |].
  rewrite (Hval _ Hv), Hface.
  destruct (loadFace c0); [| discriminate].
  injection Hnew as <-. rewrite Hset. reflexivity.
Qed.

(** X9.  The validation of [New] compares with [<] and [>], which are
    false on a value that is not a number: after options that [New]
    accepts, a spacing, a rotation, a scale, a distortion or a noise level
    that is not a number is accepted too.  With such a noise level
    [drawNoise] copies the canvas, sets no pixel and draws nothing from the
    random source. *)
Theorem New_accepts_parameters_that_are_no_numbers (opts : list Option) (c : Captcha) :
  New opts = Ok c ->
  New (opts ++ [WithNoise nan]) = Ok (WithNoise nan c)
  /\ New (opts ++ [WithSpacing nan nan]) = Ok (WithSpacing nan nan c)
  /\ New (opts ++ [WithRotation nan nan]) = Ok (WithRotation nan nan c)
  /\ New (opts ++ [WithScale nan nan]) = Ok (WithScale nan nan c)
  /\ New (opts ++ [WithDistortion nan nan]) = Ok (WithDistortion nan nan c)
  /\ (forall (src : image.RGBA) (w h : Z) (r : Rand),
        image.Bounds src = image.Rect 0 0 w h ->
        0 < w -> 0 < h -> 4 * w * h <= GoInt.max_int ->
        drawNoise src (mkWorld (WithNoise nan c) r)
        = (Returned
             (draw_Draw (image.mkRGBA (image.Rect 0 0 w h) (fun _ _ => color.transparent))
                (image.Rect 0 0 w h) (ofImage src) (image.Pt 0 0) Src),
           mkWorld (WithNoise nan c) r)).
Proof.
  intros Hnew.
  repeat (split;
          [apply New_one_more;
           [intros c0 H; apply (validate_accepts_nan c0 H) | reflexivity
            | reflexivity | exact Hnew] |]).
  intros src w h r Hbounds Hw Hh Hsize.
  pose proof (drawNoise_run (WithNoise nan c) r src w h Hbounds Hw Hh Hsize eq_refl)
    as Hrun.
  cbv zeta in Hrun. cbn [noiseLevel WithNoise] in Hrun.
  change (PrimFloat.ltb 1 nan) with false in Hrun. cbv iota in Hrun.
  rewrite int_of_float64_times_nan in Hrun.
  change (Z.to_nat GoInt.min_int) with 0%nat in Hrun.
  rewrite Nat.add_0_r in Hrun.
  rewrite Hrun. unfold noisePoints. cbn [seq map paint fold_left].
  destruct r; reflexivity.
Qed.

End NotANumberAccepted.

(** ** A [Captcha] without a font face *)

Section NoFontFace.

Context {L : Library}.

(** X13.  [Generate] on a [Captcha] whose font face is [nil] (one that
    [New] did not make) does not return an image: it panics, whatever the
    other fields are.  When the code is drawn and the canvas is made, the
    panic is the one of [drawString], at its first use of the font face. *)
Theorem Generate_without_a_font_face_panics (fuel : nat) (c : Captcha) (r : Rand) :
  fontFace c = None ->
  exists msg w',
    Generate fuel (mkWorld c r) = (Panicked msg, w')
    /\ (forall code w1 canvas,
          Captcha_randomString (mkWorld c r) = (Returned code, w1) ->
          image.NewRGBA (image.Rect 0 0 (width c) (height c)) = Returned canvas ->
          msg = "invalid memory address or nil pointer dereference"%string
          /\ w' = w1).
Proof.
  intros Hnil.
  pose proof (ends_Captcha_randomString (mkWorld c r)) as Hends.
  pose proof (keeps_Captcha_randomString (mkWorld c r)) as Hkeeps.
  unfold Generate.
  destruct (Captcha_randomString (mkWorld c r)) as [[code | msg |] [c1 r1]] eqn:Hcode;
    cbn [fst snd recv] in Hends, Hkeeps; [| | congruence].
  2: { exists msg, (mkWorld c1 r1). split; [apply bind_panicked; exact Hcode |].
       intros code w1 canvas E. discriminate E. }
  subst c1. rewrite (bind_returned _ _ _ _ _ Hcode), this_run.
  destruct (image.NewRGBA (image.Rect 0 0 (width c) (height c)))
    as [canvas | msg |] eqn:Hnew.
  - exists "invalid memory address or nil pointer dereference"%string, (mkWorld c r1).
    split.
    + rewrite (bind_returned _ _ _ _ _ (eq_refl : liftOutcome (Returned canvas) _ = _)).
      apply bind_panicked. unfold drawString. rewrite this_run.
      apply bind_panicked. unfold face. rewrite this_run, Hnil. reflexivity.
    + intros code' w1 canvas' E _. injection E as _ <-. split; reflexivity.
  - exists msg, (mkWorld c r1). split; [apply bind_panicked; reflexivity |].
    intros code' w1 canvas' _ E. discriminate E.
  - exfalso. exact (NewRGBA_ends _ Hnew).
Qed.

End NoFontFace.

(** ** A scale that is not a number *)

Lemma Prim2SF_nan : Prim2SF nan = S754_nan.
Proof. vm_compute. reflexivity. Qed.

Lemma Prim2SF_add_nan (x y : float) :
  Prim2SF y = S754_nan -> Prim2SF (x + y) = S754_nan.
Proof.
  intros H. rewrite add_spec, H. destruct (Prim2SF x); reflexivity.
Qed.

Lemma Prim2SF_mul_nan (x y : float) :
  Prim2SF y = S754_nan -> Prim2SF (x * y) = S754_nan.
Proof.
  intros H. rewrite mul_spec, H. destruct (Prim2SF x); reflexivity.
Qed.

Lemma int_of_float64_nan (f : float) :
  Prim2SF f = S754_nan -> int_of_float64 f = GoInt.min_int.
Proof. intros H. unfold int_of_float64, truncate. rewrite H. reflexivity. Qed.

(** A rectangle from the origin to the least [int] on both axes has the
    least [int], a negative value, as its sides. *)
Lemma NewRGBA_least :
  image.NewRGBA (image.Rect 0 0 GoInt.min_int GoInt.min_int)
  = Panicked "image: NewRGBA Rectangle has huge or negative dimensions".
Proof. vm_compute. reflexivity. Qed.

Section ScaleNotANumber.

Context {L : Library}.

Lemma randomBetween_run (c : Captcha) (r : Rand) (min max : float) :
  exists f,
    randomBetween min max (mkWorld c r)
    = (Returned (f * (max - min) + min)%float,
       mkWorld c (mkRand (tape r) (S (cursor r)))).
Proof.
  destruct (rand_Float64_run c r) as [f Hf]. exists f.
  unfold randomBetween. rewrite (bind_returned _ _ _ _ _ Hf). reflexivity.
Qed.

(** With a scale range that is not a number the two bounds differ (no
    number equals it), both factors are drawn and are not numbers, and the
    new size is the least [int]: [image.NewRGBA] panics. *)
Lemma scaleChar_nan (c : Captcha) (r : Rand) (src : image.RGBA) :
  minScale c = nan -> maxScale c = nan ->
  scaleChar src (mkWorld c r)
  = (Panicked "image: NewRGBA Rectangle has huge or negative dimensions",
     mkWorld c (mkRand (tape r) (S (S (cursor r))))).
Proof.
  intros Hmin Hmax. unfold scaleChar. rewrite this_run, Hmin, Hmax.
  change (PrimFloat.eqb nan nan) with false. cbv iota.
  destruct (randomBetween_run c r nan nan) as [f1 Hf1].
  destruct (randomBetween_run c (mkRand (tape r) (S (cursor r))) nan nan) as [f2 Hf2].
  rewrite (bind_returned _ _ _ _ _ Hf1), (bind_returned _ _ _ _ _ Hf2).
  cbn [tape cursor]. unfold scaleBy.
  rewrite !int_of_float64_nan
    by (apply Prim2SF_mul_nan, Prim2SF_add_nan, Prim2SF_nan).
  rewrite NewRGBA_least. reflexivity.
Qed.

Lemma face_run (c : Captcha) (r : Rand) :
  face (mkWorld c r)
  = match fontFace c with
    | Some f => (Returned f, mkWorld c r)
    | None => (Panicked "invalid memory address or nil pointer dereference", mkWorld c r)
    end.
Proof. unfold face. rewrite this_run. destruct (fontFace c); reflexivity. Qed.

Lemma drawChar_nan_scale (c : Captcha) (r : Rand) (char : Z) :
  minScale c = nan -> maxScale c = nan ->
  exists msg w', drawChar char (mkWorld c r) = (Panicked msg, w').
Proof.
  intros Hmin Hmax. unfold drawChar. rewrite this_run.
  pose proof (face_run c r) as Hface.
  destruct (fontFace c) as [f |].
  2: { eexists. eexists. apply bind_panicked. exact Hface. }
  rewrite (bind_returned _ _ _ _ _ Hface).
  match goal with
  | |- context [liftOutcome (image.NewRGBA ?rect)] =>
      destruct (image.NewRGBA rect) as [canvas | msg |] eqn:Hnew
  end.
  - rewrite (bind_returned _ _ _ _ _ (eq_refl : liftOutcome (Returned canvas) _ = _)).
    eexists. eexists. apply bind_panicked. apply scaleChar_nan; assumption.
  - eexists. eexists. apply bind_panicked. reflexivity.
  - exfalso. exact (NewRGBA_ends _ Hnew).
Qed.

Lemma drawString_nan_scale (c : Captcha) (r : Rand) (code : string) :
  minScale c = nan -> maxScale c = nan -> runesOf code <> [] ->
  exists msg w', drawString code (mkWorld c r) = (Panicked msg, w').
Proof.
  intros Hmin Hmax Hcode. unfold drawString. rewrite this_run.
  pose proof (face_run c r) as Hface.
  destruct (fontFace c) as [f |].
  2: { eexists. eexists. apply bind_panicked. exact Hface. }
  rewrite (bind_returned _ _ _ _ _ Hface).
  match goal with
  | |- context [liftOutcome (image.NewRGBA ?rect)] =>
      destruct (image.NewRGBA rect) as [canvas | msg |] eqn:Hnew
  end.
  - rewrite (bind_returned _ _ _ _ _ (eq_refl : liftOutcome (Returned canvas) _ = _)).
    destruct (runesOf code) as [| char rest]; [congruence |].
    destruct (drawChar_nan_scale c r char Hmin Hmax) as (msg & w' & Hchar).
    exists msg, w'. apply bind_panicked. cbn [forEach]. apply bind_panicked.
    unfold drawString_char. apply bind_panicked. exact Hchar.
  - eexists. eexists. apply bind_panicked. reflexivity.
  - exfalso. exact (NewRGBA_ends _ Hnew).
Qed.

(** X15.  A scale range that is not a number, which the validation of
    [New] lets through: [scaleChar] draws both factors, the new size
    [int(float64(dx) * factor)] is the least [int] and [image.NewRGBA]
    panics.  So [drawChar] panics on every character, [drawString] on every
    code that has a character, and [Generate] whenever the code it draws has
    one. *)
Theorem Generate_panics_on_a_scale_that_is_no_number
  (fuel : nat) (c : Captcha) (r : Rand) :
  minScale c = nan -> maxScale c = nan ->
  (forall src,
      scaleChar src (mkWorld c r)
      = (Panicked "image: NewRGBA Rectangle has huge or negative dimensions",
         mkWorld c (mkRand (tape r) (S (S (cursor r))))))
  /\ (forall char, exists msg w', drawChar char (mkWorld c r) = (Panicked msg, w'))
  /\ (forall code, runesOf code <> [] ->
        exists msg w', drawString code (mkWorld c r) = (Panicked msg, w'))
  /\ (forall code w1,
        Captcha_randomString (mkWorld c r) = (Returned code, w1) ->
        runesOf code <> [] ->
        exists msg w', Generate fuel (mkWorld c r) = (Panicked msg, w')).
Proof.
  intros Hmin Hmax.
  split; [intros src; apply scaleChar_nan; assumption |].
  split; [intros char; apply drawChar_nan_scale; assumption |].
  split; [intros code; apply drawString_nan_scale; assumption |].
  intros code [c1 r1] Hcode Hrunes.
  pose proof (keeps_Captcha_randomString (mkWorld c r)) as Hkeeps.
  rewrite Hcode in Hkeeps. cbn [snd recv] in Hkeeps. subst c1.
  unfold Generate. rewrite (bind_returned _ _ _ _ _ Hcode), this_run.
  destruct (image.NewRGBA (image.Rect 0 0 (width c) (height c)))
    as [canvas | msg |] eqn:Hnew.
  - rewrite (bind_returned _ _ _ _ _ (eq_refl : liftOutcome (Returned canvas) _ = _)).
    destruct (drawString_nan_scale c r1 code Hmin Hmax Hrunes) as (msg & w' & Hstr).
    exists msg, w'. apply bind_panicked. exact Hstr.
  - eexists. eexists. apply bind_panicked. reflexivity.
  - exfalso. exact (NewRGBA_ends _ Hnew).
Qed.

End ScaleNotANumber.

(** * Running the model *)

#[local] Existing Instance Sample.library.

(** The claim C6 as it is worded fails on the stripes: the destination
    pixel [(0,0)] does not have the color of the source pixel
    [(x + round(xOfs), y + round(yOfs))], which lies in the canvas. *)
Lemma distortChar_does_not_round :
  exists dst w',
    distortChar stripes (mkWorld (warped Sample.plain) Sample.counting)
    = (Returned dst, w')
    /\ inCanvasb 1 4 (roundedSource 1.75 4 0 0) = true
    /\ color.eqb (image.RGBAAt dst 0 0)
                 (image.RGBAAt stripes (fst (roundedSource 1.75 4 0 0))
                                       (snd (roundedSource 1.75 4 0 0)))
       = false.
Proof.
  destruct (distortChar_at_origin Sample.plain Sample.counting eq_refl eq_refl)
    as [dst [Hrun [Hpix Hround]]].
  exists dst. eexists. split; [exact Hrun |].
  rewrite Hround, Hpix. split; reflexivity.
Qed.

(** ** The theorems at concrete inputs *)



(** The line from [(0,0)] to [(2,1)] on a 3x3 canvas. *)
Lemma straightLine_on_small_canvas :
  exists path,
    straightLinePath 10 0 0 2 1 = Some path
    /\ NoDup path /\ EightConnected path /\ Forall (inCanvas 3 3) path.
Proof.
  destruct (straightLine_draws_eight_connected_path
              10 (color.mkRGBA 0 0 0 255) transparentCanvas 3 3 0 0 2 1)
    as (path & Hpath & _ & _ & _ & Hnodup & Hchain & Hin & _).
  - reflexivity.
  - unfold GoInt.max_int. lia.
  - unfold inCanvas. simpl. lia.
  - unfold inCanvas. simpl. lia.
  - simpl. lia.
  - exists path. repeat split; assumption.
Defined.

(** The stripes under the amplitude 1.75. *)
Lemma distortChar_on_stripes :
  exists dst,
    distortChar stripes (mkWorld (warped Sample.plain) Sample.counting)
    = (Returned dst, mkWorld (warped Sample.plain) Sample.counting)
    /\ image.Bounds dst = image.Bounds stripes.
Proof.
  destruct (distortChar_samples_by_truncation
              (warped Sample.plain) Sample.counting stripes 1 4)
    as [dst [Hrun [Hbounds _]]].
  - reflexivity.
  - unfold GoInt.max_int. lia.
  - unfold GoInt.max_int. lia.
  - unfold GoInt.max_int. lia.
  - reflexivity.
  - exists dst. split; [exact Hrun | exact Hbounds].
Defined.


(** The transforms of the default configuration. *)
Lemma transforms_on_plain :
  scaleChar stripes (mkWorld Sample.plain Sample.counting)
  = (Returned stripes, mkWorld Sample.plain Sample.counting)
  /\ distortChar stripes (mkWorld Sample.plain Sample.counting)
     = (Returned stripes, mkWorld Sample.plain Sample.counting)
  /\ rotateChar stripes (mkWorld Sample.plain Sample.counting)
     = (Returned stripes, mkWorld Sample.plain Sample.counting).
Proof.
  apply (neutral_transforms_return_their_input Sample.plain Sample.counting stripes);
    reflexivity.
Defined.

(** [New] on the options of the example. *)
Lemma New_makes_made : New Sample.options = Ok Sample.made.
Proof.
  unfold New.
  replace (validate (fold_left (fun c opt => opt c) Sample.options defaults))
    with (@None string) by reflexivity.
  replace (loadFace (fold_left (fun c opt => opt c) Sample.options defaults))
    with (@Ok Face tt) by reflexivity.
  reflexivity.
Defined.

(** A call of [Generate] on the [Captcha] of the example. *)
Lemma Generate_on_made :
  recv (snd (Generate 200 (mkWorld Sample.made Sample.counting))) = Sample.made.
Proof.
  exact (proj1 (Generate_leaves_configuration_unchanged
                  Sample.options Sample.made New_makes_made
                  200 200 Sample.counting stripes)).
Defined.

(** ** The further theorems at concrete inputs *)

(** The compositor of the small library keeps the bounds of its
    destination. *)
Lemma sample_draw_keeps_bounds : DrawKeepsBounds.
Proof. intros dst r src sp op. reflexivity. Defined.

(** The configuration of the example holds values of [int]. *)
Lemma wellTyped_made : WellTyped Sample.made.
Proof. unfold WellTyped. simpl. int_bounds. lia. Defined.

(** Clamping 200 to [[10, 100]]. *)
Lemma clamp_on_a_narrow_range : 10 <= clamp 200 10 100 <= 100 /\ clamp 200 10 100 = 100.
Proof.
  destruct (clamp_stays_within 200 10 100) as (H1 & _ & _ & H4 & _); [lia |].
  split; [exact H1 | apply H4; lia].
Defined.

(** The absolute value of -5. *)
Lemma abs_of_minus_five : abs (-5) = Z.abs (-5) /\ 0 <= abs (-5).
Proof.
  destruct (abs_of_an_int (-5)) as (_ & H & _).
  - unfold GoInt.in_range, GoInt.min_int, GoInt.max_int. lia.
  - apply H. unfold GoInt.min_int. lia.
Defined.

(** The pixel bounds of the canvas with one opaque pixel. *)
Lemma pixelBounds_on_one_pixel : WellFormed (pixelBounds onePixelCanvas).
Proof.
  refine (proj1 (pixelBounds_lies_within_the_image onePixelCanvas _)).
  unfold WellFormed. simpl. lia.
Defined.

(** Cutting the canvas with one opaque pixel. *)
Lemma cut_on_one_pixel :
  exists img,
    cut onePixelCanvas (mkWorld Sample.plain Sample.counting)
    = (Returned img, mkWorld Sample.plain Sample.counting).
Proof.
  destruct (cut_keeps_one_column_and_row_less onePixelCanvas 3 3
              (mkWorld Sample.plain Sample.counting))
    as (w' & h' & blank & _ & Hrun & _).
  - reflexivity.
  - unfold GoInt.max_int. lia.
  - unfold GoInt.max_int. lia.
  - unfold GoInt.max_int. lia.
  - eexists. exact Hrun.
Defined.



(** [Generate] on the [Captcha] of the example ends. *)
Lemma Generate_image_on_made :
  fst (Generate 200 (mkWorld Sample.made Sample.counting)) <> OutOfFuel.
Proof.
  refine (proj1 (Generate_returns_an_image_of_the_size
                   Sample.options Sample.made 200 Sample.counting
                   sample_draw_keeps_bounds New_makes_made wellTyped_made _)).
  simpl. lia.
Defined.

(** The options of the example, then a noise level that is not a number. *)
Lemma New_on_made_with_nan :
  New (Sample.options ++ [WithNoise nan]) = Ok (WithNoise nan Sample.made).
Proof.
  exact (proj1 (New_accepts_parameters_that_are_no_numbers
                  Sample.options Sample.made New_makes_made)).
Defined.

(** The line from [(0,0)] to [(2,1)] has three pixels. *)
Lemma straightLine_three_pixels :
  exists path,
    straightLinePath 3 0 0 2 1 = Some path /\ List.length path = 3%nat.
Proof.
  destruct (straightLine_sets_one_pixel_per_major_step
              3 (color.mkRGBA 0 0 0 255) transparentCanvas 3 3 0 0 2 1)
    as (path & Hpath & _ & Hlen).
  - unfold GoInt.max_int. lia.
  - unfold inCanvas. simpl. lia.
  - unfold inCanvas. simpl. lia.
  - simpl. lia.
  - exists path. split; [exact Hpath | exact Hlen].
Defined.


(** [Generate] on the default configuration, which has no font face. *)
Lemma Generate_on_plain_panics :
  exists msg w',
    Generate 10 (mkWorld Sample.plain Sample.counting) = (Panicked msg, w').
Proof.
  destruct (Generate_without_a_font_face_panics 10 Sample.plain Sample.counting
              eq_refl) as (msg & w' & Hrun & _).
  exists msg, w'. exact Hrun.
Defined.

(** A color near black. *)
Lemma randomNearColor_on_black :
  exists result,
    randomNearColor (color.ofRGBA (color.mkRGBA 0 0 0 255)) Sample.counting
    = (Returned result, mkRand (tape Sample.counting) (cursor Sample.counting + 3))
    /\ color.A result = 255.
Proof.
  destruct (randomNearColor_is_near_or_wraps (color.mkRGBA 0 0 0 255) Sample.counting)
    as (result & Hrun & Ha & _); try (simpl; lia).
  exists result. split; [exact Hrun | exact Ha].
Defined.

(** The [Captcha] of the example with a scale that is not a number. *)
Lemma drawChar_on_nan_scale :
  exists msg w',
    drawChar 97 (mkWorld (WithScale nan nan Sample.made) Sample.counting)
    = (Panicked msg, w').
Proof.
  exact (proj1 (proj2 (Generate_panics_on_a_scale_that_is_no_number
                         0 (WithScale nan nan Sample.made) Sample.counting
                         eq_refl eq_refl)) 97).
Defined.
